(** * Sonnet search engine (part11/models.py): model and verification

    A shallow embedding of [part11/models.py].  Python integers are [Z],
    Python [str] values are [string]s whose characters stand for the code
    points below 256, a [dict] is an association list in insertion order,
    and the [spans] lists held by [LineMatch] objects, the only objects the
    program mutates in place while other objects still refer to them, live
    in an explicit store. *)

From Stdlib Require Import ZArith List String Ascii Lia Bool.
From stdpp Require Import base list strings sorting.

Local Open Scope string_scope.
Local Open Scope list_scope.
Local Open Scope Z_scope.

(** ** Python built-ins used by the module *)

(** [str.isspace] on one character, for code points below 256. *)
Definition isspace (c : ascii) : bool :=
  let n := N_of_ascii c in
  (((9 <=? n) && (n <=? 13)) || ((28 <=? n) && (n <=? 32))
   || (n =? 133) || (n =? 160))%N.

(** [str.lower] on one character, for code points below 256. *)
Definition lower_char (c : ascii) : ascii :=
  let n := N_of_ascii c in
  if (((65 <=? n) && (n <=? 90))
      || ((192 <=? n) && (n <=? 222) && negb (n =? 215)))%N
  then ascii_of_N (n + 32) else c.

Definition chars (s : string) : list ascii := list_ascii_of_string s.
Definition str (cs : list ascii) : string := string_of_list_ascii cs.

(** [len(s)] *)
Definition len (s : string) : Z := Z.of_nat (String.length s).

(** [s.lower()] *)
Definition lower (s : string) : string := str (map lower_char (chars s)).

(** [s.replace(c, "")] for a one-character [c]. *)
Definition remove_char (c : ascii) (s : string) : string :=
  str (filter (fun x => x <> c) (chars s)).

(** [s.rstrip(c)] for a one-character [c]. *)
Fixpoint rstrip_chars (c : ascii) (cs : list ascii) : list ascii :=
  match cs with
  | [] => []
  | x :: cs' =>
      match rstrip_chars c cs' with
      | [] => if decide (x = c) then [] else [x]
      | r => x :: r
      end
  end.

Definition rstrip (c : ascii) (s : string) : string :=
  str (rstrip_chars c (chars s)).

(** A slice bound as Python clamps it: a negative bound counts from the
    end, and the result is kept within [0, n]. *)
Definition clamp (n i : Z) : Z :=
  if i <? 0 then Z.max 0 (i + n) else Z.min i n.

(** [l[i:j]] *)
Definition slice_list {A} (l : list A) (i j : Z) : list A :=
  let n := Z.of_nat (length l) in
  let i' := clamp n i in
  let j' := clamp n j in
  take (Z.to_nat (j' - i')) (drop (Z.to_nat i') l).

(** [s[i:j]] *)
Definition slice (s : string) (i j : Z) : string :=
  str (slice_list (chars s) i j).

(** [s[i:]] *)
Definition slice_from (s : string) (i : Z) : string :=
  str (drop (Z.to_nat (clamp (len s) i)) (chars s)).

(** [l[i]]: [None] stands for the IndexError. *)
Definition index_list {A} (l : list A) (i : Z) : option A :=
  let n := Z.of_nat (length l) in
  if i <? 0 then (if i + n <? 0 then None else l !! Z.to_nat (i + n))
  else l !! Z.to_nat i.

(** [sorted(l)] and [sorted(l, key=...)]: a stable sort, given the
    "less than or equal" test of the elements or of their keys. *)
Fixpoint insert_sorted {A} (leb : A -> A -> bool) (x : A) (l : list A)
  : list A :=
  match l with
  | [] => [x]
  | y :: l' => if leb x y then x :: y :: l' else y :: insert_sorted leb x l'
  end.

Definition sorted {A} (leb : A -> A -> bool) (l : list A) : list A :=
  foldr (insert_sorted leb) [] l.

(** The exceptions the module can raise. *)
Inductive exn : Set := IndexError | ValueError | KeyError.

Definition class_name (e : exn) : string :=
  match e with
  | IndexError => "IndexError"
  | ValueError => "ValueError"
  | KeyError => "KeyError"
  end.

(** *** [int(s)] for a string *)

Definition digit_value (c : ascii) : option Z :=
  let n := N_of_ascii c in
  if ((48 <=? n) && (n <=? 57))%N then Some (Z.of_N n - 48) else None.

(** Digits with single underscores between them, read left to right;
    [acc] is the value so far and [after_digit] tells whether the previous
    character was a digit. *)
Fixpoint int_digits (cs : list ascii) (acc : Z) (after_digit : bool)
  : option Z :=
  match cs with
  | [] => if after_digit then Some acc else None
  | c :: cs' =>
      match digit_value c with
      | Some d => int_digits cs' (10 * acc + d) true
      | None =>
          if decide (c = "_"%char) then
            if after_digit then int_digits cs' acc false else None
          else None
      end
  end.

(** The text after its leading whitespace. *)
Fixpoint skip_space (cs : list ascii) : list ascii :=
  match cs with
  | [] => []
  | c :: cs' => if isspace c then skip_space cs' else cs
  end.

(** The longest prefix without whitespace. *)
Fixpoint nonspace_run (cs : list ascii) : list ascii :=
  match cs with
  | [] => []
  | c :: cs' => if isspace c then [] else c :: nonspace_run cs'
  end.

Definition strip_space (cs : list ascii) : list ascii :=
  reverse (skip_space (reverse (skip_space cs))).

(** The value of a decimal numeral: whitespace around it is dropped, one
    sign may precede the digits. *)
Definition int_value (s : string) : option Z :=
  match strip_space (chars s) with
  | [] => None
  | c :: cs =>
      if decide (c = "-"%char) then Z.opp <$> int_digits cs 0 false
      else if decide (c = "+"%char) then int_digits cs 0 false
      else int_digits (c :: cs) 0 false
  end.

(** The number of decimal digits of a text. *)
Definition digit_count (cs : list ascii) : Z :=
  Z.of_nat (length (filter (fun c => is_Some (digit_value c)) cs)).

(** CPython's bound on the digits of a numeral that [int] converts
    ([sys.int_max_str_digits]; the program does not change it). *)
Definition int_max_str_digits : Z := 4300.

(** [int(s)]: [None] stands for the ValueError, raised for a text that is
    no numeral and for a numeral of more than [int_max_str_digits]
    digits; signs, underscores and whitespace do not count as digits. *)
Definition int (s : string) : option Z :=
  if digit_count (chars s) <=? int_max_str_digits then int_value s
  else None.

(** *** [dict]: association lists in insertion order *)

Section dict.
Context {K V : Type} `{EqDecision K}.

Definition dict := list (K * V).

(** [d.get(k)] *)
Fixpoint dict_get (k : K) (d : dict) : option V :=
  match d with
  | [] => None
  | (k', v) :: d' => if decide (k = k') then Some v else dict_get k d'
  end.

(** [k in d] *)
Definition dict_in (k : K) (d : dict) : bool :=
  match dict_get k d with Some _ => true | None => false end.

(** [d[k] = v]: an existing key keeps its place, a new one goes last. *)
Fixpoint dict_set (k : K) (v : V) (d : dict) : dict :=
  match d with
  | [] => [(k, v)]
  | (k', v') :: d' =>
      if decide (k = k') then (k, v) :: d'
      else (k', v') :: dict_set k v d'
  end.

(** [del d[k]] for a key that is present. *)
Fixpoint dict_del (k : K) (d : dict) : dict :=
  match d with
  | [] => []
  | (k', v') :: d' =>
      if decide (k = k') then d' else (k', v') :: dict_del k d'
  end.

Definition dict_keys (d : dict) : list K := d.*1.
Definition dict_values (d : dict) : list V := d.*2.
End dict.
Global Arguments dict : clear implicits.

(** ** The stemmer

    [stemmer = PorterStemmer()] comes from nltk; the module only calls its
    [stem] method, so the stemmer is an interface with that one method. *)
Class Stemmer := { stem : string -> string }.

Definition normalize_token (token : string) : string :=
  let token := lower token in
  remove_char "."%char (remove_char ","%char (remove_char "'"%char token)).

Definition normalized_stem_token `{Stemmer} (token : string) : string :=
  let normalized_token := normalize_token token in
  stem normalized_token.

(** ** The store of span lists *)

Definition span : Type := Z * Z.

(** A reference to a list object holding spans, and the store of these
    objects. *)
Abbreviation ref := nat.
Abbreviation store := (list (list span)).

(** The list a reference points to. *)
Definition deref (h : store) (r : ref) : list span := default [] (h !! r).

(** What a computation does from a store: return a value and the store
    it leaves, or raise. *)
Inductive outcome (A : Type) : Type :=
| Returns (a : A) (h : store)
| Raises (e : exn).
Global Arguments Returns {A} a h.
Global Arguments Raises {A} e.

Definition M (A : Type) : Type := store -> outcome A.

Definition ret {A} (a : A) : M A := fun h => Returns a h.

Definition bind {A B} (m : M A) (k : A -> M B) : M B :=
  fun h => match m h with
           | Returns a h' => k a h'
           | Raises e => Raises e
           end.

Definition raise {A} (e : exn) : M A := fun _ => Raises e.

Notation "'let*' x ':=' m 'in' k" := (bind m (fun x => k))
  (at level 10, x name, m at level 100, k at level 200).
Notation "'run' m 'in' k" := (bind m (fun _ => k))
  (at level 10, m at level 100, k at level 200).

(** A new list object. *)
Definition new_list (v : list span) : M ref :=
  fun h => Returns (length h) (h ++ [v]).

(** [r.extend(v)] and [r.append(x)] on the list object [r]. *)
Definition extend (r : ref) (v : list span) : M unit :=
  fun h => Returns tt (<[r := deref h r ++ v]> h).

(** The current content of the list object [r]. *)
Definition read (r : ref) : M (list span) :=
  fun h => Returns (deref h r) h.

(** [x = o[...]] where a missing entry raises [e]. *)
Definition get_or_raise {A} (e : exn) (o : option A) : M A :=
  match o with
  | Some a => ret a
  | None => raise e
  end.

(** [for x in l: acc = body(acc, x)] *)
Fixpoint for_each {A B} (l : list B) (body : A -> B -> M A) (acc : A)
  : M A :=
  match l with
  | [] => ret acc
  | x :: l' => let* acc' := body acc x in for_each l' body acc'
  end.

(** ** The classes of the module *)

Record Sonnet := {
  sonnet_title : string;
  sonnet_lines : list string;
  sonnet_id : Z
}.

Record LineMatch := {
  lm_line_no : Z;
  lm_text : string;
  lm_spans : ref
}.

(** [line_no] is [None] for a token of the title. *)
Record Posting := {
  posting_line_no : option Z;
  posting_position : Z;
  posting_original_token : string
}.

Record SearchResult := {
  sr_title : string;
  sr_title_spans : list span;
  sr_line_matches : list LineMatch;
  sr_matches : Z
}.

Record Index := {
  index_sonnets : dict Z Sonnet;
  index_dictionary : dict string (dict Z (list Posting))
}.

Record Searcher := {
  searcher_index : Index;
  searcher_total_sonnets : Z
}.

(** A raw record of the corpus: [sonnet_data["title"]] and
    [sonnet_data["lines"]]. *)
Record SonnetData := {
  data_title : string;
  data_lines : list string
}.

(** ** [Index.tokenize]

    [re.finditer(r"\S+", text)]: from the current position, skip to the
    next character that is not whitespace, take the longest run of such
    characters as the match, and go on after it.  Every match consumes a
    character, so [fuel] as large as the text left is enough. *)
Fixpoint finditer_nonspace (fuel : nat) (pos : Z) (cs : list ascii)
  : list (string * Z) :=
  match fuel with
  | O => []
  | S fuel' =>
      let rest := skip_space cs in
      let start := pos + Z.of_nat (length cs - length rest) in
      match nonspace_run rest with
      | [] => []
      | tok =>
          (str tok, start)
            :: finditer_nonspace fuel' (start + Z.of_nat (length tok))
                 (drop (length tok) rest)
      end
  end.

Definition tokenize (text : string) : list (string * Z) :=
  finditer_nonspace (String.length text) 0 (chars text).

(** [text.split()] *)
Definition split (text : string) : list string := (tokenize text).*1.

(** [enumerate(l, start)] *)
Fixpoint enumerate {A} (start : Z) (l : list A) : list (Z * A) :=
  match l with
  | [] => []
  | x :: l' => (start, x) :: enumerate (start + 1) l'
  end.

(** ** [Sonnet.__init__] *)
Definition Sonnet_init (sonnet_data : SonnetData) : exn + Sonnet :=
  let title := data_title sonnet_data in
  let lines := data_lines sonnet_data in
  match index_list (split title) 1 with
  | None => inl IndexError
  | Some word =>
      match int (rstrip ":"%char word) with
      | None => inl ValueError
      | Some n =>
          inr {| sonnet_title := title; sonnet_lines := lines;
                 sonnet_id := n |}
      end
  end.

(** ** [Index._add_token] and [Index.__init__] *)
Definition _add_token (dictionary : dict string (dict Z (list Posting)))
    (doc_id : Z) (stem : string) (line_no : option Z) (position : Z)
    (token : string) : dict string (dict Z (list Posting)) :=
  let postings := default [] (dict_get stem dictionary) in
  let occurrences := default [] (dict_get doc_id postings) in
  let posting := {| posting_line_no := line_no;
                    posting_position := position;
                    posting_original_token := token |} in
  dict_set stem (dict_set doc_id (occurrences ++ [posting]) postings)
    dictionary.

Section with_stemmer.
Context `{Stemmer}.

(** The loop over the tokens of one text: the title ([line_no] is
    [None]) or one line. *)
Definition add_tokens (doc_id : Z) (line_no : option Z) (text : string)
    (dictionary : dict string (dict Z (list Posting)))
  : dict string (dict Z (list Posting)) :=
  fold_left
    (fun dictionary '(token, pos) =>
       let stem := normalized_stem_token token in
       if decide (stem = "") then dictionary
       else _add_token dictionary doc_id stem line_no pos token)
    (tokenize text) dictionary.

Definition add_sonnet (dictionary : dict string (dict Z (list Posting)))
    (sonnet : Sonnet) : dict string (dict Z (list Posting)) :=
  let dictionary :=
    add_tokens (sonnet_id sonnet) None (sonnet_title sonnet) dictionary in
  fold_left
    (fun dictionary '(line_no, line) =>
       add_tokens (sonnet_id sonnet) (Some line_no) line dictionary)
    (enumerate 1 (sonnet_lines sonnet)) dictionary.

Definition Index_init (sonnets : list Sonnet) : Index :=
  {| index_sonnets :=
       fold_left (fun d sonnet => dict_set (sonnet_id sonnet) sonnet d)
         sonnets [];
     index_dictionary := fold_left add_sonnet sonnets [] |}.
End with_stemmer.

(** ** [SearchResult.combine_with] *)

(** The order of tuples of two integers. *)
Definition span_leb (a b : span) : bool :=
  (a.1 <? b.1) || ((a.1 =? b.1) && (a.2 <=? b.2)).

Definition line_no_leb (a b : LineMatch) : bool :=
  lm_line_no a <=? lm_line_no b.

(** [LineMatch.copy] builds a new object with the same three fields: the
    copy refers to the same [spans] list as the original. *)
Definition LineMatch_copy (self : LineMatch) : LineMatch :=
  {| lm_line_no := lm_line_no self; lm_text := lm_text self;
     lm_spans := lm_spans self |}.

(** One round of the loop over [other.line_matches]. *)
Definition merge_line (lines_by_no : dict Z LineMatch) (lm : LineMatch)
  : M (dict Z LineMatch) :=
  let ln := lm_line_no lm in
  match dict_get ln lines_by_no with
  | Some mine =>
      let* spans := read (lm_spans lm) in
      run extend (lm_spans mine) spans in
      ret lines_by_no
  | None => ret (dict_set ln (LineMatch_copy lm) lines_by_no)
  end.

Definition combine_with (self other : SearchResult) : M SearchResult :=
  let matches := sr_matches self + sr_matches other in
  let title_spans :=
    sorted span_leb (sr_title_spans self ++ sr_title_spans other) in
  let lines_by_no :=
    fold_left (fun d lm => dict_set (lm_line_no lm) (LineMatch_copy lm) d)
      (sr_line_matches self) [] in
  let* lines_by_no :=
    for_each (sr_line_matches other) merge_line lines_by_no in
  ret {| sr_title := sr_title self;
         sr_title_spans := title_spans;
         sr_line_matches := sorted line_no_leb (dict_values lines_by_no);
         sr_matches := matches |}.

(** [results[doc_id] = sr], or the combination with the result that is
    already there. *)
Definition add_result (doc_id : Z) (results : dict Z SearchResult)
    (sr : SearchResult) : M (dict Z SearchResult) :=
  match dict_get doc_id results with
  | None => ret (dict_set doc_id sr results)
  | Some r =>
      let* c := combine_with r sr in
      ret (dict_set doc_id c results)
  end.

Definition posting_span (posting : Posting) : span :=
  (posting_position posting,
   posting_position posting + len (posting_original_token posting)).

Section search.
Context `{Stemmer}.

(** ** [Index.search_for] *)

(** The [SearchResult] built for one posting. *)
Definition posting_result (sonnet : Sonnet) (posting : Posting)
  : M SearchResult :=
  match posting_line_no posting with
  | None =>
      ret {| sr_title := sonnet_title sonnet;
             sr_title_spans := [posting_span posting];
             sr_line_matches := [];
             sr_matches := 1 |}
  | Some line_no =>
      let* line_text :=
        get_or_raise IndexError
          (index_list (sonnet_lines sonnet) (line_no - 1)) in
      let* spans := new_list [posting_span posting] in
      let lm := {| lm_line_no := line_no; lm_text := line_text;
                   lm_spans := spans |} in
      ret {| sr_title := sonnet_title sonnet;
             sr_title_spans := [];
             sr_line_matches := [lm];
             sr_matches := 1 |}
  end.

Definition Index_search_for (self : Index) (token : string)
  : M (dict Z SearchResult) :=
  let token := normalized_stem_token token in
  if decide (token = "") then ret []
  else
    match dict_get token (index_dictionary self) with
    | None => ret []
    | Some postings_list =>
        for_each postings_list
          (fun results '(doc_id, postings) =>
             let* sonnet :=
               get_or_raise KeyError
                 (dict_get doc_id (index_sonnets self)) in
             for_each postings
               (fun results posting =>
                  let* sr := posting_result sonnet posting in
                  add_result doc_id results sr)
               results)
          []
    end.

(** ** [Searcher.__init__] and [Searcher.search] *)
Definition Searcher_init (sonnets : list Sonnet) : Searcher :=
  {| searcher_index := Index_init sonnets;
     searcher_total_sonnets := Z.of_nat (length sonnets) |}.

(** The OR branch. *)
Definition search_or (combined_results results : dict Z SearchResult)
  : M (dict Z SearchResult) :=
  for_each results
    (fun combined_results '(doc_id, r) =>
       add_result doc_id combined_results r)
    combined_results.

(** The other branch: the loop over the keys of [combined_results],
    then the deletions. *)
Definition search_and (combined_results results : dict Z SearchResult)
  : M (dict Z SearchResult) :=
  let* state :=
    for_each (dict_keys combined_results)
      (fun '(combined_results, deleted) doc_id =>
         match dict_get doc_id results, dict_get doc_id combined_results
         with
         | Some r, Some mine =>
             let* c := combine_with mine r in
             ret (dict_set doc_id c combined_results, deleted)
         | Some r, None => raise KeyError
         | None, _ => ret (combined_results, deleted ++ [doc_id])
         end)
      (combined_results, []) in
  let '(combined_results, deleted) := state in
  ret (fold_left (fun d doc_id => dict_del doc_id d) deleted
         combined_results).

(** One round of the loop over the words of the query. *)
Definition search_word (self : Searcher) (search_mode : string)
    (combined_results : dict Z SearchResult) (word : string)
  : M (dict Z SearchResult) :=
  let token := normalized_stem_token word in
  let* results := Index_search_for (searcher_index self) token in
  match combined_results with
  | [] => ret results
  | _ =>
      if decide (search_mode = "OR")
      then search_or combined_results results
      else search_and combined_results results
  end.

(** [combined_results] when the loop over the words has ended. *)
Definition search_combined (self : Searcher) (query search_mode : string)
  : M (dict Z SearchResult) :=
  let words := split query in
  for_each words (search_word self search_mode) [].

Definition title_leb (a b : SearchResult) : bool :=
  String.leb (sr_title a) (sr_title b).

Definition Searcher_search (self : Searcher) (query search_mode : string)
  : M (list SearchResult) :=
  let* combined_results := search_combined self query search_mode in
  let results := dict_values combined_results in
  ret (sorted title_leb results).

(** ** [Sonnet.search_for] *)

(** One round of the loop over the postings: the title spans so far
    and the list object of every line seen so far. *)
Definition collect_posting (state : list span * dict Z ref)
    (posting : Posting) : M (list span * dict Z ref) :=
  let '(title_spans, line_matches_dict) := state in
  let span := posting_span posting in
  match posting_line_no posting with
  | None => ret (title_spans ++ [span], line_matches_dict)
  | Some line_no =>
      match dict_get line_no line_matches_dict with
      | Some spans =>
          run extend spans [span] in
          ret (title_spans, line_matches_dict)
      | None =>
          let* spans := new_list [] in
          run extend spans [span] in
          ret (title_spans, dict_set line_no spans line_matches_dict)
      end
  end.

Definition Sonnet_search_for (self : Sonnet) (query : string)
    (index : Index) : M SearchResult :=
  let stem := normalized_stem_token query in
  match dict_get stem (index_dictionary index) with
  | None =>
      ret {| sr_title := sonnet_title self; sr_title_spans := [];
             sr_line_matches := []; sr_matches := 0 |}
  | Some by_doc =>
      let postings := default [] (dict_get (sonnet_id self) by_doc) in
      let* state := for_each postings collect_posting ([], []) in
      let '(title_spans, line_matches_dict) := state in
      let* line_matches :=
        for_each (sorted (fun a b : Z * ref => a.1 <=? b.1)
                    line_matches_dict)
          (fun acc '(ln, spans) =>
             let* text :=
               get_or_raise IndexError
                 (index_list (sonnet_lines self) (ln - 1)) in
             ret (acc ++ [{| lm_line_no := ln; lm_text := text;
                             lm_spans := spans |}]))
          [] in
      let* total :=
        for_each line_matches
          (fun acc lm =>
             let* spans := read (lm_spans lm) in
             ret (acc + Z.of_nat (length spans)))
          0 in
      ret {| sr_title := sonnet_title self;
             sr_title_spans := title_spans;
             sr_line_matches := line_matches;
             sr_matches := Z.of_nat (length title_spans) + total |}
  end.
End search.

(** ** [SearchResult.ansi_highlight] *)

(** One round of the merge loop: [merged], [current_start] and
    [current_end] before and after the span [(s, e)]. *)
Definition merge_step (state : list span * Z * Z) (x : span)
  : list span * Z * Z :=
  let '(merged, current_start, current_end) := state in
  let '(s, e) := x in
  if s <=? current_end then (merged, current_start, Z.max current_end e)
  else (merged ++ [(current_start, current_end)], s, e).

(** The merge of the spans (lines 277 to 288); the function only gets
    here with a list that is not empty. *)
Definition merge_spans (spans : list span) : list span :=
  match sorted span_leb spans with
  | [] => []
  | (s0, e0) :: rest =>
      let '(merged, current_start, current_end) :=
        fold_left merge_step rest ([], s0, e0) in
      merged ++ [(current_start, current_end)]
  end.

Definition esc : string := String (ascii_of_nat 27) "".

Definition ansi_reset : string := esc ++ "[0m".

Definition ansi_sequence (highlight_mode : string) : string :=
  if decide (highlight_mode = "DEFAULT")
  then esc ++ "[43m" ++ esc ++ "[30m"
  else esc ++ "[1;92m".

(** One round of the loop that builds [out]: the pieces so far and the
    position [i] in the text. *)
Definition highlight_step (text : string) (highlight_mode : string)
    (state : list string * Z) (x : span) : list string * Z :=
  let '(out, i) := state in
  let '(s, e) := x in
  (out ++ [slice text i s; ansi_sequence highlight_mode; slice text s e;
           ansi_reset], e).

(** The list [out] when the function joins it. *)
Definition highlight_pieces (text : string) (spans : list span)
    (highlight_mode : string) : list string :=
  let merged := merge_spans spans in
  let '(out, i) :=
    fold_left (highlight_step text highlight_mode) merged ([], 0) in
  out ++ [slice_from text i].

(** ["".join(out)] *)
Definition join (out : list string) : string :=
  foldr String.append "" out.

Definition ansi_highlight (text : string) (spans : list span)
    (highlight_mode : string) : string :=
  match spans with
  | [] => text
  | _ => join (highlight_pieces text spans highlight_mode)
  end.

(** ** Loading the corpus *)

(** Modelled from the spec: the loader that turns the records of the
    corpus into documents is not part of [models.py].  Every record goes
    through the constructor in order, and the exception of the first one
    that fails ends the construction. *)
Fixpoint load_sonnets (records : list SonnetData) : exn + list Sonnet :=
  match records with
  | [] => inr []
  | d :: records' =>
      match Sonnet_init d with
      | inl e => inl e
      | inr sonnet =>
          match load_sonnets records' with
          | inl e => inl e
          | inr sonnets => inr (sonnet :: sonnets)
          end
      end
  end.

(** ** Stemmers and corpora for the examples *)

(** A stemmer that leaves the normalized token as it is. *)
Definition identity_stemmer : Stemmer := {| stem := fun token => token |}.

(** A stemmer that removes one final "s". *)
Definition plural_stemmer : Stemmer :=
  {| stem := fun token =>
       match reverse (chars token) with
       | c :: cs => if decide (c = "s"%char) then str (reverse cs) else token
       | [] => token
       end |}.

Definition sonnet1 : Sonnet :=
  {| sonnet_title := "Sonnet 1: Fairest";
     sonnet_lines := ["From fairest creatures we desire increase";
                      "That thereby beauty's rose might never die";
                      "Shall I compare thee to a summer's day?"];
     sonnet_id := 1 |}.

Definition sonnet2 : Sonnet :=
  {| sonnet_title := "Sonnet 2: Winters";
     sonnet_lines := ["When forty winters shall besiege thy brow"];
     sonnet_id := 2 |}.

Definition corpus : list Sonnet := [sonnet1; sonnet2].

(** ** Specification predicates *)

(** What it is for [tok] to be a token of [text] at offset [off]: a
    run of characters that are not whitespace, found at [off], that can
    be extended neither to the left nor to the right. *)
Definition token_at (text tok : list ascii) (off : nat) : Prop :=
  tok <> []
  /\ Forall (fun c => isspace c = false) tok
  /\ take (length tok) (drop off text) = tok
  /\ (off = 0%nat
      \/ exists c, text !! (off - 1)%nat = Some c /\ isspace c = true)
  /\ ((off + length tok)%nat = length text
      \/ exists c, text !! (off + length tok)%nat = Some c
                   /\ isspace c = true).

(** The positions a list of spans covers. *)
Definition covers (spans : list span) (p : Z) : Prop :=
  exists s e, (s, e) ∈ spans /\ s <= p < e.

(** [b] starts after the end of [a], and not before the start of [a]. *)
Definition separated (a b : span) : Prop := a.1 <= b.1 /\ a.2 < b.1.

(** What the merge loop leaves when it is at the span [(cs, ce)] with
    [rest] still to come. *)
Fixpoint merge_run (cs ce : Z) (rest : list span) : list span :=
  match rest with
  | [] => [(cs, ce)]
  | (s, e) :: rest' =>
      if s <=? ce then merge_run cs (Z.max ce e) rest'
      else (cs, ce) :: merge_run s e rest'
  end.

(** The spans still to come are in order and not below the current one. *)
Definition merge_ready (cs ce : Z) (rest : list span) : Prop :=
  Sorted (fun a b => span_leb a b = true) ((cs, ce) :: rest).

(** Two neighbours of the output: in order, with a gap between them. *)
Definition gap (a b : span) : Prop := span_leb a b = true /\ a.2 < b.1.

(** The pieces appended from position [i] on for the merged spans [m]. *)
Fixpoint pieces_from (text highlight_mode : string) (i : Z) (m : list span)
  : list string :=
  match m with
  | [] => [slice_from text i]
  | (s, e) :: m' =>
      [slice text i s; ansi_sequence highlight_mode; slice text s e;
       ansi_reset] ++ pieces_from text highlight_mode e m'
  end.

(** The markers of a list of pieces, with the piece each pair encloses:
    the second to fourth of every four pieces. *)
Fixpoint markers (out : list string) : list (string * string * string) :=
  match out with
  | _ :: opening :: inside :: closing :: out' =>
      (opening, inside, closing) :: markers out'
  | _ => []
  end.

(** The pieces without those markers. *)
Fixpoint strip_markers (out : list string) : list string :=
  match out with
  | before :: _ :: inside :: _ :: out' =>
      before :: inside :: strip_markers out'
  | _ => out
  end.

(** The text from position [i] on with every span of [merged] wrapped:
    the marker [opening] before and the marker [closing] after the slice
    of each span, and the text between the spans as it is. *)
Fixpoint wrapped (text opening closing : string) (i : Z)
    (merged : list span) : string :=
  match merged with
  | [] => slice_from text i
  | (s, e) :: merged' =>
      (slice text i s ++ opening ++ slice text s e ++ closing
         ++ wrapped text opening closing e merged')%string
  end.

(** The spans lie within the text. *)
Definition within (text : string) (spans : list span) : Prop :=
  Forall (fun x : span => 0 <= x.1 <= x.2 /\ x.2 <= len text) spans.

(** The title has no decimal digit. *)
Definition no_digit (title : string) : Prop :=
  Forall (fun c => digit_value c = None) (chars title).

(** The number the constructor reads from a title: the second word,
    without its final colons, as an integer. *)
Definition identifying_number (title : string) : option Z :=
  match index_list (split title) 1 with
  | Some word => int (rstrip ":"%char word)
  | None => None
  end.

Definition sonnet3 : Sonnet :=
  {| sonnet_title := "Sonnet 3: Glass";
     sonnet_lines := ["Look in thy glass and tell the face thou viewest"];
     sonnet_id := 3 |}.

(** ** What a store says about a search result *)

(** The list objects and the line numbers of line matches. *)
Definition refs (lms : list LineMatch) : list ref := lm_spans <$> lms.
Definition line_numbers (lms : list LineMatch) : list Z := lm_line_no <$> lms.

(** The spans the line matches hold for line [ln], in the store [h]. *)
Definition spans_at (h : store) (lms : list LineMatch) (ln : Z) : list span :=
  concat ((fun lm => deref h (lm_spans lm))
            <$> filter (fun lm => lm_line_no lm = ln) lms).

(** The text the line matches give for line [ln]. *)
Definition text_at (lms : list LineMatch) (ln : Z) : option string :=
  lm_text <$> head (filter (fun lm => lm_line_no lm = ln) lms).

(** The number of spans held by the line matches. *)
Definition span_total (h : store) (lms : list LineMatch) : Z :=
  foldr (fun lm n => Z.of_nat (length (deref h (lm_spans lm))) + n) 0 lms.

(** The invariant of the data model:
    [matches = |title_spans| + sum of |spans| over the line matches]. *)
Definition count_invariant (h : store) (sr : SearchResult) : Prop :=
  sr_matches sr
  = Z.of_nat (length (sr_title_spans sr)) + span_total h (sr_line_matches sr).

(** The line matches have different line numbers and different list
    objects, all of them in the store. *)
Definition lines_apart (h : store) (lms : list LineMatch) : Prop :=
  NoDup (line_numbers lms) /\ NoDup (refs lms)
  /\ Forall (fun r => (r < length h)%nat) (refs lms).

(** The dictionary [{lm.line_no: lm for lm in lms}] when the line
    numbers differ. *)
Definition keyed (lms : list LineMatch) : dict Z LineMatch :=
  (fun lm => (lm_line_no lm, lm)) <$> lms.

(** The line matches of [bl] whose line is not among those of [lms]. *)
Definition new_lines (lms bl : list LineMatch) : list LineMatch :=
  filter (fun lm => lm_line_no lm ∉ line_numbers lms) bl.

(** The result of [a.combine_with(b)] when the line numbers of each of
    them differ. *)
Definition combined (a b : SearchResult) : SearchResult :=
  {| sr_title := sr_title a;
     sr_title_spans :=
       sorted span_leb (sr_title_spans a ++ sr_title_spans b);
     sr_line_matches :=
       sorted line_no_leb
         (sr_line_matches a
            ++ new_lines (sr_line_matches a) (sr_line_matches b));
     sr_matches := sr_matches a + sr_matches b |}.

(** Two results that can be combined in the store [h]: each has its
    lines apart, and they share no list object. *)
Definition apart (h : store) (a b : SearchResult) : Prop :=
  lines_apart h (sr_line_matches a) /\ lines_apart h (sr_line_matches b)
  /\ forall r, r ∈ refs (sr_line_matches a) -> r ∉ refs (sr_line_matches b).

(** What a combination [a.combine_with(b)] needs for its count: [a] has
    a line once at most, and the line matches of [a] and [b] have each a
    list object of their own, all of them in the store. *)
Definition own_lists (h : store) (a b : SearchResult) : Prop :=
  NoDup (line_numbers (sr_line_matches a))
  /\ NoDup (refs (sr_line_matches a) ++ refs (sr_line_matches b))
  /\ Forall (fun r => (r < length h)%nat)
       (refs (sr_line_matches a) ++ refs (sr_line_matches b)).

(** Two results hold the same spans, each in its store: the same title
    spans and, for every line number, the same line spans, as multisets. *)
Definition same_spans (h1 : store) (r1 : SearchResult) (h2 : store)
    (r2 : SearchResult) : Prop :=
  sr_title_spans r1 ≡ₚ sr_title_spans r2
  /\ forall ln, spans_at h1 (sr_line_matches r1) ln
                ≡ₚ spans_at h2 (sr_line_matches r2) ln.

(** The line matches are in order of line number. *)
Definition lines_sorted (r : SearchResult) : Prop :=
  Sorted (fun x y => line_no_leb x y = true) (sr_line_matches r).

(** Both computations return, and their results with the stores they
    leave are related by [P]. *)
Definition both_return {A} (P : store -> A -> store -> A -> Prop)
    (o1 o2 : outcome A) : Prop :=
  match o1, o2 with
  | Returns r1 h1, Returns r2 h2 => P h1 r1 h2 r2
  | _, _ => False
  end.

(** [a.combine_with(b).combine_with(c)] and
    [a.combine_with(b.combine_with(c))]. *)
Definition combine_left (a b c : SearchResult) : M SearchResult :=
  let* ab := combine_with a b in combine_with ab c.

Definition combine_right (a b c : SearchResult) : M SearchResult :=
  let* bc := combine_with b c in combine_with a bc.

(** Results and stores for the examples: line matches over the line
    ["x y"], with the spans of its two words. *)
Definition line_x_y (ln : Z) (spans : ref) : LineMatch :=
  {| lm_line_no := ln; lm_text := "x y"; lm_spans := spans |}.

Definition result_of (lms : list LineMatch) (matches : Z) : SearchResult :=
  {| sr_title := "Sonnet 1: Fairest"; sr_title_spans := [];
     sr_line_matches := lms; sr_matches := matches |}.

Definition store_x_y : store := [[(0, 1)]; [(2, 3)]; [(0, 1)]; [(2, 3)]].

(** ** What the postings say about a result *)

(** The spans of the postings of the title, and of the postings of line
    [ln], in the order of the postings. *)
Definition title_spans_of (ps : list Posting) : list span :=
  posting_span <$> filter (fun p => posting_line_no p = None) ps.

Definition line_spans_of (ps : list Posting) (ln : Z) : list span :=
  posting_span <$> filter (fun p => posting_line_no p = Some ln) ps.

(** The result [r] stands, in the store [h], for the postings [ps] of the
    document [sonnet]. *)
Definition summary (h : store) (sonnet : Sonnet) (ps : list Posting)
    (r : SearchResult) : Prop :=
  sr_title r = sonnet_title sonnet
  /\ sr_matches r = Z.of_nat (length ps)
  /\ sr_title_spans r ≡ₚ title_spans_of ps
  /\ (forall ln, spans_at h (sr_line_matches r) ln = line_spans_of ps ln)
  /\ (forall ln,
        text_at (sr_line_matches r) ln
        = if decide (line_spans_of ps ln = []) then None
          else index_list (sonnet_lines sonnet) (ln - 1))
  /\ span_total h (sr_line_matches r)
     = Z.of_nat (length ps) - Z.of_nat (length (title_spans_of ps))
  /\ lines_apart h (sr_line_matches r).

(** The postings of document [id] among the entries [seen] of a postings
    list. *)
Definition postings_for (id : Z) (seen : list (Z * list Posting))
  : list Posting :=
  concat (snd <$> filter (fun e : Z * list Posting => e.1 = id) seen).

(** The mapping [results] stands for the postings seen so far: a result
    for every document with postings, which is a summary of them, and no
    list object shared between two documents. *)
Definition results_ok (h : store) (sonnets : dict Z Sonnet)
    (results : dict Z SearchResult) (seen : list (Z * list Posting)) : Prop :=
  NoDup (dict_keys results)
  /\ (forall id,
        match dict_get id results with
        | Some r =>
            postings_for id seen <> []
            /\ exists sonnet, dict_get id sonnets = Some sonnet
                 /\ summary h sonnet (postings_for id seen) r
        | None => postings_for id seen = []
        end)
  /\ (forall id1 id2 r1 r2,
        id1 <> id2 -> dict_get id1 results = Some r1 ->
        dict_get id2 results = Some r2 ->
        forall x, x ∈ refs (sr_line_matches r1) ->
                  x ∉ refs (sr_line_matches r2)).

(** The postings list that [Index.search_for] goes through for a token:
    the one of the stem of the token, when that stem is not empty and is a
    key of the dictionary. *)
Definition lookup_postings `{Stemmer} (self : Index) (token : string)
  : dict Z (list Posting) :=
  let token := normalized_stem_token token in
  if decide (token = "") then []
  else default [] (dict_get token (index_dictionary self)).

(** The text of line [ln] of a document, or the empty string if there
    is no such line. *)
Definition line_text (sonnet : Sonnet) (ln : Z) : string :=
  default "" (index_list (sonnet_lines sonnet) (ln - 1)).

(** The line matches that [Sonnet.search_for] builds from its dictionary
    of list objects. *)
Definition as_lines (sonnet : Sonnet) (d : dict Z ref) : list LineMatch :=
  (fun e : Z * ref =>
     {| lm_line_no := e.1; lm_text := line_text sonnet e.1;
        lm_spans := e.2 |}) <$> d.

(** The postings that [Sonnet.search_for] goes through for a query. *)
Definition own_postings `{Stemmer} (self : Sonnet) (query : string)
    (index : Index) : list Posting :=
  match dict_get (normalized_stem_token query) (index_dictionary index) with
  | None => []
  | Some by_doc => default [] (dict_get (sonnet_id self) by_doc)
  end.

(** The state of the loop over the postings, after the postings [ps]. *)
Definition collected (h : store) (sonnet : Sonnet) (ps : list Posting)
    (state : list span * dict Z ref) : Prop :=
  state.1 = title_spans_of ps
  /\ lines_apart h (as_lines sonnet state.2)
  /\ (forall ln, spans_at h (as_lines sonnet state.2) ln
                 = line_spans_of ps ln)
  /\ span_total h (as_lines sonnet state.2)
     = Z.of_nat (length ps) - Z.of_nat (length (title_spans_of ps))
  /\ (forall ln, ln ∈ dict_keys state.2 <-> line_spans_of ps ln <> []).

(** The dictionary of an index as the constructor builds it: the empty
    stem is not a key, and a postings list has one entry for a document. *)
Definition dictionary_ok (dictionary : dict string (dict Z (list Posting)))
  : Prop :=
  dict_get "" dictionary = None
  /\ forall stem by_doc,
       dict_get stem dictionary = Some by_doc -> NoDup (dict_keys by_doc).

(** ** The match counts of a mapping *)

(** The match count of document [id] in a mapping of results. *)
Definition count_of (d : dict Z SearchResult) (id : Z) : option Z :=
  sr_matches <$> dict_get id d.

(** The match counts after a word with counts [w], from the counts [a]
    of the running mapping: under OR and under AND. *)
Definition or_count (a w : option Z) : option Z :=
  match a, w with
  | Some x, Some y => Some (x + y)
  | Some x, None => Some x
  | None, w => w
  end.

Definition and_count (a w : option Z) : option Z :=
  match a, w with
  | Some x, Some y => Some (x + y)
  | _, _ => None
  end.

(** The exception of the index lookup, if any: a document of the
    postings list that the index does not know, or a posting of a line that
    the document does not have. *)
Definition posting_error (sonnet : Sonnet) (p : Posting) : option exn :=
  match posting_line_no p with
  | Some ln =>
      match index_list (sonnet_lines sonnet) (ln - 1) with
      | Some _ => None
      | None => Some IndexError
      end
  | None => None
  end.

Fixpoint postings_error (sonnet : Sonnet) (ps : list Posting) : option exn :=
  match ps with
  | [] => None
  | p :: ps' =>
      match posting_error sonnet p with
      | Some e => Some e
      | None => postings_error sonnet ps'
      end
  end.

Fixpoint docs_error (sonnets : dict Z Sonnet) (pl : list (Z * list Posting))
  : option exn :=
  match pl with
  | [] => None
  | (doc_id, ps) :: pl' =>
      match dict_get doc_id sonnets with
      | None => Some KeyError
      | Some sonnet =>
          match postings_error sonnet ps with
          | Some e => Some e
          | None => docs_error sonnets pl'
          end
      end
  end.

Definition lookup_error `{Stemmer} (self : Index) (token : string)
  : option exn :=
  docs_error (index_sonnets self) (lookup_postings self token).

(** The running mapping [A] of the AND search lies within the running
    mapping [U] of the OR search: every document of [A] is in [U] with a
    match count that is not smaller, and no count of [U] is negative. *)
Definition within_or (A U : dict Z SearchResult) : Prop :=
  (forall id a, count_of A id = Some a ->
                exists o, count_of U id = Some o /\ a <= o)
  /\ (forall id o, count_of U id = Some o -> 0 <= o)
  /\ NoDup (dict_keys A) /\ NoDup (dict_keys U).

(** Every posting of the dictionary belongs to a document of [sonnets]
    and, if it is the posting of a line, to a line of that document. *)
Definition postings_known (sonnets : dict Z Sonnet)
    (dictionary : dict string (dict Z (list Posting))) : Prop :=
  forall stem by_doc,
    dict_get stem dictionary = Some by_doc ->
    Forall (fun e : Z * list Posting =>
              exists sonnet, dict_get e.1 sonnets = Some sonnet
                /\ Forall (fun p => posting_error sonnet p = None) e.2)
      by_doc.

(** ** [Sonnet.find_spans] *)

(** [range(n)] *)
Definition range (n : Z) : list Z := seqZ 0 n.

Definition find_spans (text pattern : string) : list span :=
  if decide (pattern = "") then []
  else
    fold_left
      (fun spans i =>
         if decide (slice text i (i + len pattern) = pattern)
         then spans ++ [(i, i + len pattern)]
         else spans)
      (range (len text - len pattern + 1)) [].

(** ** What the index holds *)

(** [dictionary[stem][doc_id]], or the empty list when one of the keys
    is missing. *)
Definition postings_at (dictionary : dict string (dict Z (list Posting)))
    (stem : string) (doc_id : Z) : list Posting :=
  match dict_get stem dictionary with
  | None => []
  | Some by_doc => default [] (dict_get doc_id by_doc)
  end.

(** The occurrences of [stem] in a text: a posting for every token of
    the text, in order, whose normalized stem is [stem]. *)
Definition text_postings `{Stemmer} (stem : string) (line_no : option Z)
    (text : string) : list Posting :=
  (fun e : string * Z =>
     {| posting_line_no := line_no; posting_position := e.2;
        posting_original_token := e.1 |})
    <$> filter (fun e : string * Z => normalized_stem_token e.1 = stem)
          (tokenize text).

(** The occurrences of [stem] in a document: those of the title, then
    those of the lines from the first to the last, numbered from 1. *)
Definition sonnet_postings `{Stemmer} (stem : string) (sonnet : Sonnet)
  : list Posting :=
  text_postings stem None (sonnet_title sonnet)
  ++ concat ((fun e : Z * string => text_postings stem (Some e.1) e.2)
               <$> enumerate 1 (sonnet_lines sonnet)).

(** No key of the dictionary stands for nothing: a stem has a document,
    and a document of a stem has a posting. *)
Definition dictionary_full
    (dictionary : dict string (dict Z (list Posting))) : Prop :=
  forall stem by_doc,
    dict_get stem dictionary = Some by_doc ->
    by_doc <> [] /\ Forall (fun e : Z * list Posting => e.2 <> []) by_doc.

(** The postings of a document under a stem as the constructor of the
    index enters them: none under the empty stem. *)
Definition indexed_postings `{Stemmer} (stem : string) (sonnet : Sonnet)
  : list Posting :=
  if decide (stem = "") then [] else sonnet_postings stem sonnet.

(** [x] is the span of a token of [text] whose normalized stem is
    [stem]: from the offset of the token to its end. *)
Definition stem_span `{Stemmer} (stem text : string) (x : span) : Prop :=
  exists token,
    (token, x.1) ∈ tokenize text /\ x.2 = x.1 + len token
    /\ normalized_stem_token token = stem.

(** Line [ln] of a document, numbered from 1. *)
Definition line_at (sonnet : Sonnet) (ln : Z) : option string :=
  if 1 <=? ln then sonnet_lines sonnet !! Z.to_nat (ln - 1) else None.

(** ** The counts of a search *)

(** The key under which [Searcher.search] looks a word of the query up:
    the word is stemmed by the search, and what comes out is stemmed
    again by the lookup. *)
Definition search_key `{Stemmer} (word : string) : string :=
  normalized_stem_token (normalized_stem_token word).

(** The number of occurrences of a key that the index holds for a
    document, if there is any. *)
Definition occurrence_count `{Stemmer} (key : string) (sonnet : Sonnet)
  : option Z :=
  match indexed_postings key sonnet with
  | [] => None
  | ps => Some (Z.of_nat (length ps))
  end.

(** The sum of the counts of the words, when every word has one. *)
Definition all_counts (counts : list (option Z)) : option Z :=
  foldr (fun w acc => and_count w acc) (Some 0) counts.

(** ** The decimal numeral of a number *)

Definition digit_char (d : Z) : ascii := ascii_of_N (Z.to_N (48 + d)).

(** The digits of [n] in front of [acc], the last digit first; [fuel]
    above the number of digits is enough. *)
Fixpoint decimal_from (fuel : nat) (n : Z) (acc : list ascii) : list ascii :=
  match fuel with
  | O => acc
  | S fuel' =>
      let acc' := digit_char (n mod 10) :: acc in
      if n <? 10 then acc' else decimal_from fuel' (n / 10) acc'
  end.

(** [str(n)] for a number that is not negative. *)
Definition decimal (n : Z) : string :=
  str (decimal_from (S (Z.to_nat n)) n []).

(** ** The results of a search *)

(** From the store [h0] to the store [h]: the lists of [h0] are as they
    were, and the lists of the results were created since. *)
Definition grown (h0 h : store) (results : dict Z SearchResult) : Prop :=
  (length h0 <= length h)%nat
  /\ (forall x, (x < length h0)%nat -> deref h x = deref h0 x)
  /\ forall id r, dict_get id results = Some r ->
       forall x, x ∈ refs (sr_line_matches r) -> (length h0 <= x)%nat.

(** The result [r] stands for postings of document [id] that are all
    [known]. *)
Definition stands_for (h : store) (sonnets : dict Z Sonnet)
    (known : Z -> Posting -> Prop) (id : Z) (r : SearchResult) : Prop :=
  exists sonnet ps,
    dict_get id sonnets = Some sonnet /\ summary h sonnet ps r
    /\ ps <> [] /\ Forall (known id) ps.

(** The running mapping of a search: every result stands for known
    postings of its document, and no list object is shared between two
    results. *)
Definition sound (h : store) (sonnets : dict Z Sonnet)
    (known : Z -> Posting -> Prop) (results : dict Z SearchResult) : Prop :=
  NoDup (dict_keys results)
  /\ (forall id r, dict_get id results = Some r ->
                   stands_for h sonnets known id r)
  /\ forall id1 id2 r1 r2,
       id1 <> id2 -> dict_get id1 results = Some r1 ->
       dict_get id2 results = Some r2 ->
       forall x, x ∈ refs (sr_line_matches r1) ->
                 x ∉ refs (sr_line_matches r2).

(** The results of a lookup that wait to be combined into the running
    mapping [combined_results]: they are sound, and share no list object
    with the results of the running mapping. *)
Definition pending (h : store) (sonnets : dict Z Sonnet)
    (known : Z -> Posting -> Prop)
    (combined_results results : dict Z SearchResult) : Prop :=
  sound h sonnets known results
  /\ forall id1 id2 r1 r2,
       dict_get id1 combined_results = Some r1 ->
       dict_get id2 results = Some r2 ->
       forall x, x ∈ refs (sr_line_matches r1) ->
                 x ∉ refs (sr_line_matches r2).

(** Every result of the mapping has its line matches in order of line
    number. *)
Definition lines_in_order (results : dict Z SearchResult) : Prop :=
  Forall (fun e : Z * SearchResult => lines_sorted e.2) results.

(** [x] is the span of a token of [text] that is looked up for a word of
    the query. *)
Definition query_span `{Stemmer} (query text : string) (x : span) : Prop :=
  exists word,
    word ∈ split query /\ stem_span (search_key word) text x.

(** The postings that a search can come upon for document [id]: those
    of the lookups for the words of the query. *)
Definition query_postings `{Stemmer} (sonnets : list Sonnet)
    (query : string) (id : Z) (p : Posting) : Prop :=
  exists word,
    word ∈ split query
    /\ p ∈ postings_for id
             (lookup_postings (Index_init sonnets)
                (normalized_stem_token word)).

(** The list objects of the results are those from number [base] on. *)
Definition above (base : nat) (results : dict Z SearchResult) : Prop :=
  forall id r, dict_get id results = Some r ->
    forall x, x ∈ refs (sr_line_matches r) -> (base <= x)%nat.

(** * Verification *)

(** ** Strings and slices *)

Lemma chars_str (cs : list ascii) : chars (str cs) = cs.
Proof. apply list_ascii_of_string_of_list_ascii. Qed.

Lemma str_chars (s : string) : str (chars s) = s.
Proof. apply string_of_list_ascii_of_string. Qed.

Lemma length_chars (s : string) : length (chars s) = String.length s.
Proof. induction s as [|c s IH]; simpl; [done | by rewrite IH]. Qed.

Lemma len_str (cs : list ascii) : len (str cs) = Z.of_nat (length cs).
Proof. unfold len. by rewrite <- length_chars, chars_str. Qed.

Lemma str_inj (cs1 cs2 : list ascii) : str cs1 = str cs2 -> cs1 = cs2.
Proof. intros E. by rewrite <- (chars_str cs1), E, chars_str. Qed.

Lemma chars_app (s1 s2 : string) :
  chars (s1 ++ s2)%string = chars s1 ++ chars s2.
Proof. induction s1 as [|c s1 IH]; simpl; [done | by rewrite IH]. Qed.

Lemma str_app (cs1 cs2 : list ascii) :
  str (cs1 ++ cs2) = (str cs1 ++ str cs2)%string.
Proof.
  rewrite <- (str_chars (str cs1 ++ str cs2)%string).
  by rewrite chars_app, !chars_str.
Qed.

(** A slice with bounds inside the list is a [take] of a [drop]. *)
Lemma slice_list_within {A} (l : list A) (i j : nat) :
  (i <= j <= length l)%nat ->
  slice_list l (Z.of_nat i) (Z.of_nat j) = take (j - i) (drop i l).
Proof.
  intros Hij. unfold slice_list, clamp.
  destruct (Z.of_nat i <? 0) eqn:Ei; [lia|].
  destruct (Z.of_nat j <? 0) eqn:Ej; [lia|].
  rewrite !Z.min_l by lia.
  by replace (Z.to_nat (Z.of_nat j - Z.of_nat i)) with (j - i)%nat by lia;
    rewrite Nat2Z.id.
Qed.

Lemma slice_within (s : string) (i j : nat) :
  (i <= j <= String.length s)%nat ->
  slice s (Z.of_nat i) (Z.of_nat j) = str (take (j - i) (drop i (chars s))).
Proof.
  intros Hij. unfold slice. rewrite slice_list_within; [done|].
  by rewrite length_chars.
Qed.

Lemma slice_from_within (s : string) (i : nat) :
  (i <= String.length s)%nat ->
  slice_from s (Z.of_nat i) = str (drop i (chars s)).
Proof.
  intros Hi. unfold slice_from, clamp, len.
  destruct (Z.of_nat i <? 0) eqn:Ei; [lia|].
  by rewrite Z.min_l, Nat2Z.id by lia.
Qed.

(** ** The tokenizer *)

Lemma skip_space_split (cs : list ascii) :
  exists ws, cs = ws ++ skip_space cs
    /\ Forall (fun c => isspace c = true) ws
    /\ match skip_space cs with
       | [] => True
       | c :: _ => isspace c = false
       end.
Proof.
  induction cs as [|c cs IH]; simpl.
  - by exists [].
  - destruct (isspace c) eqn:Ec.
    + destruct IH as (ws & E & Hws & Hhd).
      exists (c :: ws). split_and!; [simpl; congruence | by constructor | done].
    + exists []. by rewrite Ec.
Qed.

Lemma nonspace_run_split (cs : list ascii) :
  cs = nonspace_run cs ++ drop (length (nonspace_run cs)) cs
  /\ Forall (fun c => isspace c = false) (nonspace_run cs)
  /\ match drop (length (nonspace_run cs)) cs with
     | [] => True
     | c :: _ => isspace c = true
     end.
Proof.
  induction cs as [|c cs IH]; simpl; [done|].
  destruct (isspace c) eqn:Ec; simpl; [by rewrite Ec|].
  destruct IH as (E & Hrun & Hnext).
  split_and!; [congruence | by constructor | done].
Qed.

Lemma nonspace_run_nonempty (c : ascii) (cs : list ascii) :
  isspace c = false -> nonspace_run (c :: cs) = c :: nonspace_run cs.
Proof. intros Ec. simpl. by rewrite Ec. Qed.

Lemma finditer_nonspace_tokens (n : nat) :
  forall (pre cs : list ascii),
    (length cs <= n)%nat ->
    (pre = [] \/ match cs with [] => True | c :: _ => isspace c = true end) ->
    Forall (fun '(tok, off) =>
              exists k : nat, off = Z.of_nat k /\ (length pre <= k)%nat
                /\ token_at (pre ++ cs) (chars tok) k)
      (finditer_nonspace n (Z.of_nat (length pre)) cs)
    /\ StronglySorted Z.lt (finditer_nonspace n (Z.of_nat (length pre)) cs).*2.
Proof.
  induction n as [|n IH]; intros pre cs Hn Hleft; simpl.
  { split; constructor. }
  destruct (skip_space_split cs) as (ws & Ecs & Hws & Hhd).
  set (rest := skip_space cs) in *.
  assert (Hlen : (length cs - length rest)%nat = length ws).
  { rewrite Ecs at 1. rewrite length_app. lia. }
  rewrite Hlen.
  destruct rest as [|c r] eqn:Erest; simpl; [split; constructor|].
  rewrite Hhd.
  destruct (nonspace_run_split (c :: r)) as (Esplit & Hrun & Hnext).
  rewrite (nonspace_run_nonempty c r Hhd) in Esplit, Hrun, Hnext.
  simpl in Esplit, Hnext.
  set (tok := c :: nonspace_run r) in *.
  set (rest' := drop (length (nonspace_run r)) r) in *.
  assert (Etext : pre ++ cs = (pre ++ ws ++ tok) ++ rest').
  { rewrite Ecs, <- !app_assoc. do 2 f_equal. unfold tok. simpl.
    by injection Esplit as <-. }
  assert (Epos : Z.of_nat (length pre) + Z.of_nat (length ws)
                 + Z.of_nat (length tok)
                 = Z.of_nat (length (pre ++ ws ++ tok))).
  { rewrite !length_app. lia. }
  replace (Z.of_nat (S (length (nonspace_run r))))
    with (Z.of_nat (length tok)) by done.
  rewrite Epos.
  destruct (IH (pre ++ ws ++ tok) rest') as [IHtok IHsorted].
  { assert (length cs = (length ws + length tok + length rest')%nat).
    { apply (f_equal length) in Etext. rewrite !length_app in Etext. lia. }
    unfold tok in *. simpl in *. lia. }
  { right. exact Hnext. }
  split.
  - constructor.
    + exists (length pre + length ws)%nat. split_and!; [lia | lia |].
      change (String c (str (nonspace_run r))) with (str tok).
      rewrite chars_str. unfold token_at. split_and!.
      * done.
      * exact Hrun.
      * rewrite Etext.
        replace ((pre ++ ws ++ tok) ++ rest')
          with ((pre ++ ws) ++ tok ++ rest') by (by rewrite <- !app_assoc).
        rewrite drop_app_length'; [| by rewrite length_app].
        by rewrite take_app_length.
      * destruct ws as [|w ws' _] using rev_ind.
        -- destruct Hleft as [-> | Hsp]; [by left|].
           simpl in Ecs. rewrite Ecs in Hsp. congruence.
        -- right. exists w. split.
           ++ rewrite Ecs.
              replace (pre ++ (ws' ++ [w]) ++ c :: r)
                with ((pre ++ ws') ++ w :: c :: r)
                by (by rewrite <- !app_assoc).
              apply list_lookup_middle. rewrite !length_app. simpl. lia.
           ++ apply Forall_app in Hws as [_ Hw].
              exact (Forall_inv Hw).
      * rewrite Etext. destruct rest' as [|c' r'] eqn:Er'.
        -- left. rewrite app_nil_r, !length_app. lia.
        -- right. exists c'. split; [| exact Hnext].
           apply list_lookup_middle. rewrite !length_app. lia.
    + rewrite <- Etext in IHtok.
      eapply Forall_impl; [exact IHtok|].
      intros [t off] (k & -> & Hk & Htok). exists k. split_and!; [done | | done].
      rewrite !length_app in Hk. lia.
  - simpl. constructor; [exact IHsorted|].
    apply Forall_fmap. eapply Forall_impl; [exact IHtok|].
    intros [t off] (k & -> & Hk & _). simpl.
    rewrite !length_app in Hk. unfold tok in Hk. simpl in Hk. lia.
Qed.

Lemma token_at_slice (text tok : string) (k : nat) :
  token_at (chars text) (chars tok) k ->
  slice text (Z.of_nat k) (Z.of_nat k + len tok) = tok.
Proof.
  intros (Hne & _ & Htake & _ & _).
  assert (Hlen : (k + length (chars tok) <= length (chars text))%nat).
  { apply (f_equal length) in Htake.
    rewrite length_take, length_drop in Htake.
    assert (length (chars tok) <> 0%nat) by (by destruct (chars tok)).
    lia. }
  unfold len. rewrite <- length_chars, <- Nat2Z.inj_add.
  rewrite slice_within; [| rewrite <- length_chars; lia].
  replace (k + length (chars tok) - k)%nat with (length (chars tok)) by lia.
  by rewrite Htake, str_chars.
Qed.

Lemma token_at_lookup (text tok : list ascii) (k i : nat) :
  token_at text tok k -> (i < length tok)%nat ->
  exists c, text !! (k + i)%nat = Some c /\ isspace c = false.
Proof.
  intros (_ & Hall & Htake & _ & _) Hi.
  destruct (lookup_lt_is_Some_2 tok i Hi) as [c Hc].
  exists c. split.
  - rewrite <- Htake in Hc.
    by rewrite lookup_take_lt, lookup_drop in Hc.
  - by eapply (proj1 (Forall_lookup _ _) Hall).
Qed.

Lemma finditer_nonspace_complete (n : nat) :
  forall (pre cs tok : list ascii) (k : nat),
    (length cs <= n)%nat -> (length pre <= k)%nat ->
    token_at (pre ++ cs) tok k ->
    (str tok, Z.of_nat k) ∈ finditer_nonspace n (Z.of_nat (length pre)) cs.
Proof.
  induction n as [|n IH]; intros pre cs tok k Hn Hk Hat.
  { destruct cs; [| simpl in Hn; lia].
    destruct (token_at_lookup _ _ k 0 Hat) as (c & Hc & _).
    { destruct Hat as (Hne & _). destruct tok; [done | simpl; lia]. }
    apply lookup_lt_Some in Hc. rewrite length_app in Hc. simpl in Hc. lia. }
  assert (Htok : (0 < length tok)%nat).
  { destruct Hat as (Hne & _). destruct tok; [done | simpl; lia]. }
  cbn [finditer_nonspace]. cbv zeta.
  destruct (skip_space_split cs) as (ws & Ecs & Hws & Hhd).
  set (rest := skip_space cs) in *.
  assert (Hlen : (length cs - length rest)%nat = length ws).
  { rewrite Ecs at 1. rewrite length_app. lia. }
  rewrite Hlen.
  assert (Hspace : forall i c, (length pre <= i < length pre + length ws)%nat ->
            (pre ++ cs) !! i = Some c -> isspace c = true).
  { intros i c Hi Hc. rewrite Ecs in Hc.
    rewrite lookup_app_r in Hc by lia.
    rewrite lookup_app_l in Hc by lia.
    by eapply (proj1 (Forall_lookup _ _) Hws). }
  assert (Hstart : (length pre + length ws <= k)%nat).
  { destruct (decide (length pre + length ws <= k)%nat); [done|].
    destruct (token_at_lookup _ _ k 0 Hat Htok) as (c & Hc & Hns).
    rewrite Nat.add_0_r in Hc.
    rewrite (Hspace k c) in Hns; [done | lia | done]. }
  destruct rest as [|c r] eqn:Erest.
  { destruct (token_at_lookup _ _ k 0 Hat Htok) as (c & Hc & _).
    apply lookup_lt_Some in Hc. rewrite Ecs, !length_app in Hc.
    simpl in Hc. lia. }
  destruct (nonspace_run_split (c :: r)) as (Esplit & Hrun & Hnext).
  rewrite (nonspace_run_nonempty c r Hhd) in Esplit, Hrun, Hnext |- *.
  set (tok0 := c :: nonspace_run r) in *.
  set (rest' := drop (length tok0) (c :: r)) in *.
  assert (Etext : pre ++ cs = (pre ++ ws ++ tok0) ++ rest').
  { rewrite Ecs, <- !app_assoc. do 2 f_equal. exact Esplit. }
  assert (Hin0 : forall i x, (i < length tok0)%nat ->
            (pre ++ cs) !! (length pre + length ws + i)%nat = Some x ->
            isspace x = false).
  { intros i x Hi Hx. rewrite Etext in Hx.
    rewrite lookup_app_l in Hx by (rewrite !length_app; lia).
    rewrite lookup_app_r in Hx by lia.
    rewrite lookup_app_r in Hx by lia.
    replace (length pre + length ws + i - length pre - length ws)%nat
      with i in Hx by lia.
    by eapply (proj1 (Forall_lookup _ _) Hrun). }
  assert (Hend : (pre ++ cs) !! (length pre + length ws + length tok0)%nat
                 = head rest').
  { rewrite Etext. rewrite lookup_app_r by (rewrite !length_app; lia).
    rewrite !length_app.
    replace (length pre + length ws + length tok0
             - (length pre + (length ws + length tok0)))%nat with 0%nat by lia.
    by destruct rest'. }
  destruct (decide (k = length pre + length ws)%nat) as [-> | Hne].
  - (* the token starts where the first match starts *)
    assert (Elen : length tok = length tok0).
    { destruct (Nat.lt_trichotomy (length tok) (length tok0))
        as [Hlt | [E | Hgt]]; [| done |]; exfalso.
      - destruct Hat as (_ & _ & _ & _ & [Hr | (x & Hx & Hsp)]).
        + apply (f_equal length) in Etext. rewrite !length_app in Etext.
          rewrite length_app in Hr. lia.
        + rewrite (Hin0 _ x Hlt Hx) in Hsp. done.
      - destruct (token_at_lookup _ _ _ (length tok0) Hat Hgt)
          as (x & Hx & Hns).
        rewrite Hend in Hx. destruct rest' as [|y rest'']; [done|].
        simpl in Hx. injection Hx as ->. congruence. }
    assert (Etok : tok = tok0).
    { destruct Hat as (_ & _ & Htake & _). rewrite <- Htake, Etext, Elen.
      replace ((pre ++ ws ++ tok0) ++ rest')
        with ((pre ++ ws) ++ tok0 ++ rest') by (by rewrite <- !app_assoc).
      rewrite drop_app_length'; [| by rewrite length_app].
      by rewrite take_app_length. }
    rewrite Etok, Nat2Z.inj_add. left.
  - destruct (decide (k < length pre + length ws + length tok0)%nat)
      as [Hlt | Hge].
    + exfalso.
      destruct Hat as (_ & _ & _ & [-> | (x & Hx & Hsp)] & _); [lia|].
      replace (k - 1)%nat
        with (length pre + length ws + (k - 1 - length pre - length ws))%nat
        in Hx by lia.
      apply Hin0 in Hx; [congruence | lia].
    + apply list_elem_of_further.
      replace (Z.of_nat (length pre) + Z.of_nat (length ws)
               + Z.of_nat (length tok0))
        with (Z.of_nat (length (pre ++ ws ++ tok0)))
        by (rewrite !length_app; lia).
      apply IH.
      * apply (f_equal length) in Etext. rewrite !length_app in Etext.
        unfold tok0 in *. simpl in *. lia.
      * rewrite !length_app. lia.
      * by rewrite <- Etext.
Qed.

(** C7: the tokenizer returns, in strictly increasing order of offset,
    pairs (token, offset) where the token is a maximal run of characters
    that are not whitespace and is the slice of the text that starts at
    the offset; every maximal run of the text is returned with its
    offset; the empty text has no tokens. *)
Theorem tokenize_maximal_runs (text : string) :
  Forall (fun '(token, offset) =>
            (exists k : nat, offset = Z.of_nat k
               /\ token_at (chars text) (chars token) k)
            /\ slice text offset (offset + len token) = token)
    (tokenize text)
  /\ StronglySorted Z.lt (tokenize text).*2
  /\ tokenize "" = []
  /\ forall (token : string) (k : nat),
       token_at (chars text) (chars token) k ->
       (token, Z.of_nat k) ∈ tokenize text.
Proof.
  destruct (finditer_nonspace_tokens (String.length text) [] (chars text))
    as [Htok Hsorted]; [by rewrite length_chars | by left |].
  split_and!; [| exact Hsorted | done |].
  - eapply Forall_impl; [exact Htok|].
    intros [token offset] (k & -> & _ & Hat). split; [by exists k|].
    by apply token_at_slice.
  - intros token k Hat. rewrite <- (str_chars token) at 1.
    apply (finditer_nonspace_complete _ [] (chars text));
      [by rewrite length_chars | simpl; lia | done].
Qed.

Example tokenize_example :
  tokenize "  Shall I  compare thee " =
    [("Shall", 2); ("I", 8); ("compare", 11); ("thee", 19)].
Proof. reflexivity. Qed.

(** ** Sorting *)

Section sorted.
Context {A : Type} (leb : A -> A -> bool).

Local Abbreviation R := (fun x y => leb x y = true).

Hypothesis leb_total : forall x y, leb x y = false -> leb y x = true.

Lemma insert_sorted_perm (x : A) (l : list A) :
  insert_sorted leb x l ≡ₚ x :: l.
Proof.
  induction l as [|y l IH]; simpl; [done|].
  destruct (leb x y); [done|]. by rewrite IH, Permutation_swap.
Qed.

Lemma sorted_perm (l : list A) : sorted leb l ≡ₚ l.
Proof.
  induction l as [|x l IH]; simpl; [done|].
  by rewrite insert_sorted_perm, IH.
Qed.

Lemma insert_sorted_Sorted (x : A) (l : list A) :
  Sorted R l -> Sorted R (insert_sorted leb x l).
Proof.
  induction 1 as [|y l Hl IH Hhd]; simpl.
  - by repeat constructor.
  - destruct (leb x y) eqn:E.
    + by repeat constructor.
    + constructor; [done|].
      destruct Hhd as [|z l Hz]; simpl.
      * constructor. by apply leb_total.
      * destruct (leb x z); constructor; [by apply leb_total | done].
Qed.

Lemma sorted_Sorted (l : list A) : Sorted R (sorted leb l).
Proof.
  induction l as [|x l IH]; simpl; [constructor|].
  by apply insert_sorted_Sorted.
Qed.

Lemma sorted_of_Sorted (l : list A) : Sorted R l -> sorted leb l = l.
Proof.
  induction 1 as [|x l Hl IH Hhd]; simpl; [done|].
  fold (sorted leb l). rewrite IH.
  destruct Hhd as [|y l Hy]; simpl; [done|]. by rewrite Hy.
Qed.

Lemma sorted_perm_eq `{!Transitive R, !AntiSymm (=) R} (l1 l2 : list A) :
  l1 ≡ₚ l2 -> sorted leb l1 = sorted leb l2.
Proof.
  intros Hperm. apply (Sorted_unique R); [apply sorted_Sorted..|].
  by rewrite !sorted_perm.
Qed.

End sorted.

(** The order of spans is a total order. *)
Lemma span_leb_total (a b : span) : span_leb a b = false -> span_leb b a = true.
Proof. destruct a, b. unfold span_leb. simpl. lia. Qed.

Global Instance span_leb_trans : Transitive (fun a b => span_leb a b = true).
Proof. intros [] [] []. unfold span_leb. simpl. lia. Qed.

Global Instance span_leb_antisymm :
  AntiSymm (=) (fun a b => span_leb a b = true).
Proof.
  intros [a1 a2] [b1 b2]. unfold span_leb. simpl. intros H1 H2.
  f_equal; lia.
Qed.

(** ** The merge of spans *)

Lemma fold_merge_step (rest merged : list span) (cs ce : Z) :
  (let '(m, a, b) := fold_left merge_step rest (merged, cs, ce) in
   m ++ [(a, b)]) = merged ++ merge_run cs ce rest.
Proof.
  revert merged cs ce. induction rest as [|[s e] rest IH]; intros; simpl.
  - done.
  - destruct (s <=? ce); rewrite IH; [done|].
    by rewrite <- app_assoc.
Qed.

Lemma merge_spans_run (spans : list span) :
  merge_spans spans =
    match sorted span_leb spans with
    | [] => []
    | (s0, e0) :: rest => merge_run s0 e0 rest
    end.
Proof.
  unfold merge_spans. destruct (sorted span_leb spans) as [|[s0 e0] rest].
  - done.
  - apply (fold_merge_step rest [] s0 e0).
Qed.

Lemma merge_ready_above (cs ce : Z) (rest : list span) :
  merge_ready cs ce rest ->
  Forall (fun x => span_leb (cs, ce) x = true) rest.
Proof.
  intros Hs. apply (Sorted_StronglySorted _) in Hs.
  by apply StronglySorted_inv in Hs as [_ ?].
Qed.

Lemma merge_ready_merge (cs ce s e : Z) (rest : list span) :
  merge_ready cs ce ((s, e) :: rest) -> s <= ce ->
  merge_ready cs (Z.max ce e) rest.
Proof.
  intros Hs Hle. pose proof (merge_ready_above _ _ _ Hs) as Habove.
  apply Sorted_inv in Hs as [Hs _]. apply Sorted_inv in Hs as [Hs Hhd].
  constructor; [done|].
  apply Forall_cons in Habove as [Hcur _].
  destruct Hhd as [|[s' e'] rest Hx]; constructor.
  unfold span_leb in *. simpl in *. lia.
Qed.

Lemma merge_ready_next (cs ce s e : Z) (rest : list span) :
  merge_ready cs ce ((s, e) :: rest) -> merge_ready s e rest.
Proof. intros Hs. by apply Sorted_inv in Hs as [Hs _]. Qed.

Lemma merge_run_head (cs ce : Z) (rest : list span) :
  exists ce' tl, merge_run cs ce rest = (cs, ce') :: tl /\ ce <= ce'.
Proof.
  revert cs ce. induction rest as [|[s e] rest IH]; intros; simpl.
  - exists ce, []. split; [done | lia].
  - destruct (s <=? ce).
    + destruct (IH cs (Z.max ce e)) as (ce' & tl & -> & Hle).
      exists ce', tl. split; [done | lia].
    + exists ce, (merge_run s e rest). split; [done | lia].
Qed.

Lemma merge_run_gap (rest : list span) :
  forall cs ce, merge_ready cs ce rest -> Sorted gap (merge_run cs ce rest).
Proof.
  induction rest as [|[s e] rest IH]; intros cs ce Hs; simpl.
  - repeat constructor.
  - destruct (s <=? ce) eqn:E.
    + apply IH. apply (merge_ready_merge _ _ _ _ _ Hs). lia.
    + constructor; [by apply IH, (merge_ready_next cs ce)|].
      destruct (merge_run_head s e rest) as (e' & tl & -> & Hle).
      constructor. apply merge_ready_above, Forall_cons in Hs as [Hcur _].
      unfold gap, span_leb in *. simpl in *. lia.
Qed.

Lemma merge_run_covers (rest : list span) :
  forall cs ce p, merge_ready cs ce rest ->
    covers (merge_run cs ce rest) p <-> covers ((cs, ce) :: rest) p.
Proof.
  induction rest as [|[s e] rest IH]; intros cs ce p Hs; simpl; [done|].
  pose proof (merge_ready_above _ _ _ Hs) as Habove.
  apply Forall_cons in Habove as [Hcur _].
  assert (Hcs : cs <= s) by (unfold span_leb in Hcur; simpl in Hcur; lia).
  unfold covers in *. destruct (s <=? ce) eqn:E.
  - rewrite IH by (apply (merge_ready_merge _ _ _ _ _ Hs); lia).
    setoid_rewrite elem_of_cons. setoid_rewrite elem_of_cons.
    split.
    + intros (a & b & [[= -> ->] | Hin] & Hp).
      * destruct (decide (p < ce)).
        -- exists cs, ce. split; [by left | lia].
        -- exists s, e. split; [by right; left | lia].
      * exists a, b. split; [by right; right | done].
    + intros (a & b & [[= -> ->] | [[= -> ->] | Hin]] & Hp).
      * exists cs, (Z.max ce e). split; [by left | lia].
      * exists cs, (Z.max ce e). split; [by left | lia].
      * exists a, b. split; [by right | done].
  - setoid_rewrite elem_of_cons. setoid_rewrite elem_of_cons.
    split.
    + intros (a & b & [[= -> ->] | Hin] & Hp).
      * exists cs, ce. split; [by left | done].
      * assert (Hc : exists a' b', (a', b') ∈ (s, e) :: rest /\ a' <= p < b').
        { apply IH; [by apply (merge_ready_next cs ce)|]. by exists a, b. }
        destruct Hc as (a' & b' & Hin' & Hp').
        apply elem_of_cons in Hin'. exists a', b'. split; [by right | done].
    + intros (a & b & [[= -> ->] | Hin] & Hp).
      * exists cs, ce. split; [by left | done].
      * assert (Hc : exists a' b', (a', b') ∈ merge_run s e rest
                                   /\ a' <= p < b').
        { apply IH; [by apply (merge_ready_next cs ce)|].
          exists a, b. split; [by apply elem_of_cons | done]. }
        destruct Hc as (a' & b' & Hin' & Hp').
        exists a', b'. split; [by right | done].
Qed.

Lemma merge_run_no_merge (rest : list span) :
  forall cs ce, Sorted gap ((cs, ce) :: rest) ->
    merge_run cs ce rest = (cs, ce) :: rest.
Proof.
  induction rest as [|[s e] rest IH]; intros cs ce Hs; simpl; [done|].
  apply Sorted_inv in Hs as [Hs Hhd]. apply HdRel_inv in Hhd as [_ Hgap].
  simpl in Hgap. destruct (s <=? ce) eqn:E; [lia|].
  by rewrite IH.
Qed.

Global Instance gap_trans : Transitive gap.
Proof.
  intros [a1 a2] [b1 b2] [c1 c2]. unfold gap, span_leb. simpl. lia.
Qed.

Lemma gap_separated (a b : span) : gap a b -> separated a b.
Proof.
  destruct a, b. unfold gap, separated, span_leb. simpl. lia.
Qed.

Lemma gap_span_leb (l : list span) :
  Sorted gap l -> Sorted (fun a b => span_leb a b = true) l.
Proof.
  induction 1 as [|x l Hl IH Hhd]; constructor; [done|].
  destruct Hhd as [|y l [Hy _]]; by constructor.
Qed.

Lemma merge_spans_gap (spans : list span) : Sorted gap (merge_spans spans).
Proof.
  rewrite merge_spans_run.
  pose proof (sorted_Sorted span_leb span_leb_total spans) as Hs.
  destruct (sorted span_leb spans) as [|[s0 e0] rest]; [constructor|].
  by apply merge_run_gap.
Qed.

Lemma merge_run_endpoints (rest : list span) :
  forall cs ce,
    Forall (fun x : span => x.1 ∈ cs :: rest.*1 /\ x.2 ∈ ce :: rest.*2)
      (merge_run cs ce rest)
    /\ (length (merge_run cs ce rest) <= S (length rest))%nat.
Proof.
  induction rest as [|[s e] rest IH]; intros cs ce; simpl.
  - split; [| lia]. repeat constructor.
  - destruct (s <=? ce).
    + destruct (IH cs (Z.max ce e)) as [Hall Hlen]. split; [| lia].
      eapply Forall_impl; [exact Hall|]. intros [a b]. simpl.
      rewrite !elem_of_cons. intros [[-> | Ha] [Hb | Hb]]; split; auto.
      all: destruct (Z.max_spec ce e) as [[_ E] | [_ E]]; rewrite E in Hb;
        auto.
    + destruct (IH s e) as [Hall Hlen]. split; [| simpl; lia].
      constructor; [split; by left|].
      eapply Forall_impl; [exact Hall|]. intros [a b]. simpl.
      rewrite !elem_of_cons. intros [[-> | Ha] [-> | Hb]]; split; auto.
Qed.

Lemma merge_run_contains (rest : list span) :
  forall cs ce, merge_ready cs ce rest ->
    Forall (fun y : span =>
              exists x, x ∈ merge_run cs ce rest /\ x.1 <= y.1 /\ y.2 <= x.2)
      ((cs, ce) :: rest).
Proof.
  induction rest as [|[s e] rest IH]; intros cs ce Hs; simpl.
  - constructor; [| constructor]. exists (cs, ce). split; [by left | done].
  - pose proof (merge_ready_above _ _ _ Hs) as Habove.
    apply Forall_cons in Habove as [Hcur _].
    assert (Hcs : cs <= s) by (unfold span_leb in Hcur; simpl in Hcur; lia).
    destruct (s <=? ce) eqn:E.
    + assert (Hm : merge_ready cs (Z.max ce e) rest)
        by (apply (merge_ready_merge _ _ _ _ _ Hs); lia).
      apply IH in Hm. apply Forall_cons in Hm as [(x & Hx & H1 & H2) Hrest].
      simpl in H1, H2.
      constructor; [exists x; simpl; split; [done | lia]|].
      constructor; [exists x; simpl; split; [done | lia]|]. done.
    + constructor; [exists (cs, ce); split; [by left | done]|].
      eapply Forall_impl; [apply IH, (merge_ready_next cs ce _ _ _ Hs)|].
      intros y (x & Hx & Hy). exists x. split; [by right | done].
Qed.

(** C6: the merge of spans gives spans in order of start that lie apart
    from each other and cover the same positions as the spans given;
    merging its own output changes nothing; and the output does not depend
    on the order of the spans given. *)
Theorem merge_spans_canonical (spans : list span) :
  StronglySorted separated (merge_spans spans)
  /\ (forall p, covers (merge_spans spans) p <-> covers spans p)
  /\ merge_spans (merge_spans spans) = merge_spans spans
  /\ (forall spans', spans' ≡ₚ spans -> merge_spans spans' = merge_spans spans).
Proof.
  pose proof (merge_spans_gap spans) as Hgap.
  split_and!.
  - apply (Sorted_StronglySorted _) in Hgap.
    induction Hgap as [|x l Hl IH Hx]; constructor; [done|].
    eapply Forall_impl; [exact Hx|]. intros y. apply gap_separated.
  - intros p. rewrite merge_spans_run.
    pose proof (sorted_Sorted span_leb span_leb_total spans) as Hs.
    pose proof (sorted_perm span_leb spans) as Hperm.
    assert (Hc : covers spans p <-> covers (sorted span_leb spans) p).
    { unfold covers. by setoid_rewrite Hperm. }
    rewrite Hc. destruct (sorted span_leb spans) as [|[s0 e0] rest].
    + done.
    + by apply merge_run_covers.
  - rewrite (merge_spans_run (merge_spans spans)).
    rewrite (sorted_of_Sorted span_leb); [| by apply gap_span_leb].
    destruct (merge_spans spans) as [|[s0 e0] rest]; [done|].
    by apply merge_run_no_merge.
  - intros spans' Hperm. rewrite !merge_spans_run.
    by rewrite (sorted_perm_eq span_leb span_leb_total _ _ Hperm).
Qed.

Example merge_spans_example : merge_spans [(9, 15); (7, 11)] = [(7, 15)].
Proof. reflexivity. Qed.

(** ** The highlight renderer *)

Lemma drop_slices {A} (l : list A) (i s e : nat) :
  (i <= s <= e)%nat ->
  take (s - i) (drop i l) ++ take (e - s) (drop s l) ++ drop e l = drop i l.
Proof.
  intros H.
  replace (drop e l) with (drop (e - s) (drop s l))
    by (rewrite drop_drop; f_equal; lia).
  rewrite take_drop.
  replace (drop s l) with (drop (s - i) (drop i l))
    by (rewrite drop_drop; f_equal; lia).
  by rewrite take_drop.
Qed.

Lemma slice_from_split (text : string) (i s e : Z) :
  0 <= i <= s -> s <= e <= len text ->
  (slice text i s ++ slice text s e ++ slice_from text e)%string
  = slice_from text i.
Proof.
  intros Hi He. unfold len in He.
  rewrite <- (Z2Nat.id i), <- (Z2Nat.id s), <- (Z2Nat.id e) by lia.
  rewrite !slice_within, !slice_from_within by lia.
  rewrite <- !str_app. f_equal. apply drop_slices. lia.
Qed.

Lemma slice_from_0 (text : string) : slice_from text 0 = text.
Proof.
  change 0 with (Z.of_nat 0). rewrite slice_from_within by lia.
  apply str_chars.
Qed.

Lemma fold_highlight_step (text mode : string) (m : list span) :
  forall out i,
    (let '(out', i') := fold_left (highlight_step text mode) m (out, i) in
     out' ++ [slice_from text i']) = out ++ pieces_from text mode i m.
Proof.
  induction m as [|[s e] m IH]; intros out i; simpl; [done|].
  rewrite IH. by rewrite <- app_assoc.
Qed.

Lemma highlight_pieces_from (text mode : string) (spans : list span) :
  highlight_pieces text spans mode
  = pieces_from text mode 0 (merge_spans spans).
Proof.
  unfold highlight_pieces.
  apply (fold_highlight_step text mode (merge_spans spans) [] 0).
Qed.

Lemma append_empty_r (s : string) : (s ++ "")%string = s.
Proof.
  rewrite <- (str_chars (s ++ "")%string), chars_app. simpl.
  by rewrite app_nil_r, str_chars.
Qed.

Lemma pieces_from_spec (text mode : string) (m : list span) :
  forall i, 0 <= i -> within text m -> Sorted gap m ->
    Forall (fun x : span => i <= x.1) m ->
    markers (pieces_from text mode i m)
      = map (fun x : span => (ansi_sequence mode, slice text x.1 x.2,
                              ansi_reset)) m
    /\ join (strip_markers (pieces_from text mode i m)) = slice_from text i.
Proof.
  induction m as [|[s e] m IH]; intros i Hi Hin Hs Hlow; simpl.
  - split; [done | apply append_empty_r].
  - apply Forall_cons in Hin as [[Hse He] Hin].
    apply Forall_cons in Hlow as [Hlow _]. simpl in *.
    assert (Hnext : Forall (fun x : span => e <= x.1) m).
    { apply (Sorted_StronglySorted _), StronglySorted_inv in Hs as [_ Hall].
      eapply Forall_impl; [exact Hall|].
      intros [a b] [_ Hgap]. simpl in *. lia. }
    apply Sorted_inv in Hs as [Hs _].
    destruct (IH e) as [IHm IHj]; [lia | done..|].
    split; [by rewrite IHm|].
    fold (join (strip_markers (pieces_from text mode e m))).
    rewrite IHj. apply slice_from_split; lia.
Qed.

Lemma merge_run_within (text : string) (rest : list span) :
  forall cs ce, within text ((cs, ce) :: rest) ->
    within text (merge_run cs ce rest).
Proof.
  induction rest as [|[s e] rest IH]; intros cs ce Hin; simpl; [done|].
  apply Forall_cons in Hin as [Hc Hin].
  pose proof Hin as Hin'. apply Forall_cons in Hin' as [Hx Hrest].
  simpl in *. destruct (s <=? ce).
  - apply IH. constructor; [simpl; lia | done].
  - constructor; [done | by apply IH].
Qed.

Lemma merge_spans_within (text : string) (spans : list span) :
  within text spans -> within text (merge_spans spans).
Proof.
  intros Hin. rewrite merge_spans_run.
  assert (Hs : within text (sorted span_leb spans)).
  { unfold within. by rewrite sorted_perm. }
  destruct (sorted span_leb spans) as [|[s0 e0] rest]; [constructor|].
  by apply merge_run_within.
Qed.

Lemma join_pieces_from (text mode : string) (m : list span) :
  forall i,
    join (pieces_from text mode i m)
    = wrapped text (ansi_sequence mode) ansi_reset i m.
Proof.
  induction m as [|[s e] m IH]; intros i; simpl.
  - apply append_empty_r.
  - by rewrite IH.
Qed.

Lemma merge_spans_separated (spans : list span) :
  StronglySorted separated (merge_spans spans).
Proof.
  pose proof (merge_spans_gap spans) as Hgap.
  apply (Sorted_StronglySorted _) in Hgap.
  induction Hgap as [|x l Hl IH Hx]; constructor; [done|].
  eapply Forall_impl; [exact Hx|]. intros y. apply gap_separated.
Qed.

Lemma merge_spans_covers (spans : list span) (p : Z) :
  covers (merge_spans spans) p <-> covers spans p.
Proof.
  rewrite merge_spans_run.
  pose proof (sorted_Sorted span_leb span_leb_total spans) as Hs.
  pose proof (sorted_perm span_leb spans) as Hperm.
  assert (Hc : covers spans p <-> covers (sorted span_leb spans) p).
  { unfold covers. by setoid_rewrite Hperm. }
  rewrite Hc. destruct (sorted span_leb spans) as [|[s0 e0] rest]; [done|].
  by apply merge_run_covers.
Qed.

Lemma merge_spans_contains (spans : list span) :
  Forall (fun y : span =>
            exists x, x ∈ merge_spans spans /\ x.1 <= y.1 /\ y.2 <= x.2)
    spans
  /\ Forall (fun x : span => x.1 ∈ spans.*1 /\ x.2 ∈ spans.*2)
       (merge_spans spans).
Proof.
  rewrite merge_spans_run.
  pose proof (sorted_Sorted span_leb span_leb_total spans) as Hs.
  pose proof (sorted_perm span_leb spans) as Hperm.
  destruct (sorted span_leb spans) as [|[s0 e0] rest] eqn:E.
  - apply Permutation_nil_l in Hperm as <-. by split.
  - split.
    + rewrite <- Hperm. by apply merge_run_contains.
    + destruct (merge_run_endpoints rest s0 e0) as [Hall _].
      eapply Forall_impl; [exact Hall|]. intros x [H1 H2].
      rewrite <- Hperm. by rewrite !fmap_cons.
Qed.

(** C8: without spans the text comes back as it is.  With spans inside
    the text, the output is the text with one pair of markers around the
    slice of each merged span and nothing else added: the opening marker
    is ESC[43m ESC[30m in the mode "DEFAULT" and ESC[1;92m in every other
    mode, the closing marker is ESC[0m.  The merged spans lie in the
    text, in order and apart from each other; they cover the positions
    that the given spans cover, every given span lies inside one of
    them, and they start and end where given spans do.  The pieces
    joined into the output carry one pair of markers for each merged
    span, and the pieces without the markers join to the text. *)
Theorem ansi_highlight_wraps (text : string) (spans : list span)
    (highlight_mode : string) :
  ansi_highlight text [] highlight_mode = text
  /\ (spans <> [] -> within text spans ->
      let out := highlight_pieces text spans highlight_mode in
      let opening :=
        if decide (highlight_mode = "DEFAULT")
        then String "027"%char ("[43m" ++ String "027"%char "[30m")
        else String "027"%char "[1;92m" in
      let closing := String "027"%char "[0m" in
      ansi_highlight text spans highlight_mode = join out
      /\ markers out
         = map (fun x : span => (ansi_sequence highlight_mode,
                                 slice text x.1 x.2, ansi_reset))
             (merge_spans spans)
      /\ length out = (4 * length (merge_spans spans) + 1)%nat
      /\ join (strip_markers out) = text
      /\ exists merged : list span,
           ansi_highlight text spans highlight_mode
           = wrapped text opening closing 0 merged
           /\ markers out
              = map (fun x : span => (opening, slice text x.1 x.2, closing))
                  merged
           /\ within text merged
           /\ StronglySorted separated merged
           /\ (forall p, covers merged p <-> covers spans p)
           /\ Forall (fun y : span =>
                        exists x, x ∈ merged /\ x.1 <= y.1 /\ y.2 <= x.2)
                spans
           /\ Forall (fun x : span => x.1 ∈ spans.*1 /\ x.2 ∈ spans.*2)
                merged).
Proof.
  split; [done|]. intros Hne Hin. cbv zeta.
  assert (Hopen : ansi_sequence highlight_mode
                  = if decide (highlight_mode = "DEFAULT")
                    then String "027"%char
                           ("[43m" ++ String "027"%char "[30m")
                    else String "027"%char "[1;92m").
  { unfold ansi_sequence. by case_decide. }
  assert (Hclose : ansi_reset = String "027"%char "[0m") by done.
  assert (Hout : ansi_highlight text spans highlight_mode
                 = join (highlight_pieces text spans highlight_mode))
    by (by destruct spans).
  pose proof (merge_spans_within text spans Hin) as Hm.
  pose proof (merge_spans_gap spans) as Hgap.
  destruct (pieces_from_spec text highlight_mode (merge_spans spans) 0)
    as [Hmark Hjoin]; [lia | done | done | |].
  { eapply Forall_impl; [exact Hm|]. intros x Hx. simpl in Hx. lia. }
  destruct (merge_spans_contains spans) as [Hinside Hends].
  rewrite Hout, highlight_pieces_from.
  split_and!; [done | done | | by rewrite Hjoin, slice_from_0 |].
  - clear. generalize 0. induction (merge_spans spans) as [|[s e] m IH];
      intros i; simpl; [done|].
    rewrite IH. lia.
  - exists (merge_spans spans). rewrite <- Hopen, <- Hclose.
    split_and!; [apply join_pieces_from | done | done
                 | apply merge_spans_separated
                 | apply merge_spans_covers | done | done].
Qed.

Example ansi_highlight_example :
  ansi_highlight "Shall I compare" [(9, 15); (7, 11)] "DEFAULT"
  = ("Shall I" ++ esc ++ "[43m" ++ esc ++ "[30m" ++ " compare"
      ++ esc ++ "[0m")%string.
Proof. reflexivity. Qed.

Lemma ansi_highlight_wraps_witness :
  let text := "Shall I compare" in
  let spans := [(9, 15); (7, 11)] in
  let out := highlight_pieces text spans "GREEN" in
  let opening := String "027"%char "[1;92m" in
  let closing := String "027"%char "[0m" in
  ansi_highlight text spans "GREEN" = join out
  /\ markers out
     = map (fun x : span => (ansi_sequence "GREEN", slice text x.1 x.2,
                             ansi_reset))
         (merge_spans spans)
  /\ length out = (4 * length (merge_spans spans) + 1)%nat
  /\ join (strip_markers out) = text
  /\ exists merged : list span,
       ansi_highlight text spans "GREEN"
       = wrapped text opening closing 0 merged
       /\ markers out
          = map (fun x : span => (opening, slice text x.1 x.2, closing))
              merged
       /\ within text merged
       /\ StronglySorted separated merged
       /\ (forall p, covers merged p <-> covers spans p)
       /\ Forall (fun y : span =>
                    exists x, x ∈ merged /\ x.1 <= y.1 /\ y.2 <= x.2)
            spans
       /\ Forall (fun x : span => x.1 ∈ spans.*1 /\ x.2 ∈ spans.*2)
            merged.
Proof.
  apply (ansi_highlight_wraps "Shall I compare" [(9, 15); (7, 11)] "GREEN").
  - done.
  - repeat constructor; simpl; unfold len; simpl; lia.
Defined.

(** ** The construction of a document *)

Lemma int_digits_digit (cs : list ascii) :
  forall acc after n, int_digits cs acc after = Some n ->
    after = true \/ Exists (fun c => digit_value c <> None) cs.
Proof.
  induction cs as [|c cs IH]; intros acc after n; simpl.
  - destruct after; [by left | done].
  - destruct (digit_value c) eqn:Ed.
    + intros _. right. left. by rewrite Ed.
    + destruct (decide (c = "_"%char)); [| done].
      destruct after; [| done].
      intros [|Hex]%IH; [done|]. right. by right.
Qed.

Lemma skip_space_subseteq (cs : list ascii) : skip_space cs ⊆ cs.
Proof.
  destruct (skip_space_split cs) as (ws & E & _).
  intros c Hc. rewrite E. apply elem_of_app. by right.
Qed.

Lemma strip_space_subseteq (cs : list ascii) : strip_space cs ⊆ cs.
Proof.
  unfold strip_space. intros c Hc.
  rewrite elem_of_reverse in Hc. apply skip_space_subseteq in Hc.
  rewrite elem_of_reverse in Hc.
  by apply skip_space_subseteq.
Qed.

Lemma rstrip_chars_subseteq (x : ascii) (cs : list ascii) :
  rstrip_chars x cs ⊆ cs.
Proof.
  induction cs as [|c cs IH]; simpl; [apply list_subseteq_nil|].
  destruct (rstrip_chars x cs) as [|r rs] eqn:E.
  - destruct (decide (c = x)); [apply list_subseteq_nil|].
    by apply list_subseteq_skip.
  - by apply list_subseteq_skip.
Qed.

Lemma int_has_digit (s : string) (n : Z) :
  int s = Some n -> Exists (fun c => digit_value c <> None) (chars s).
Proof.
  unfold int. case_match; [| done]. unfold int_value. intros Hint.
  assert (Hex : Exists (fun c => digit_value c <> None)
                  (strip_space (chars s))).
  { destruct (strip_space (chars s)) as [|c cs]; [done|].
    repeat case_decide.
    - apply fmap_Some in Hint as (m & Hm & _).
      apply int_digits_digit in Hm as [|]; [done | by right].
    - apply int_digits_digit in Hint as [|]; [done | by right].
    - by apply int_digits_digit in Hint as [|]. }
  apply Exists_exists in Hex as (c & Hc & Hd).
  apply Exists_exists. exists c. split; [| done].
  by apply strip_space_subseteq.
Qed.

Lemma tokenize_subseteq (text token : string) (offset : Z) :
  (token, offset) ∈ tokenize text -> chars token ⊆ chars text.
Proof.
  intros Hin.
  destruct (finditer_nonspace_tokens (String.length text) [] (chars text))
    as [Htok _]; [by rewrite length_chars | by left |].
  rewrite Forall_forall in Htok.
  destruct (Htok _ Hin) as (k & _ & _ & _ & _ & Htake & _).
  simpl in Htake. rewrite <- Htake.
  etrans; [apply subseteq_take | apply subseteq_drop].
Qed.

Lemma Sonnet_init_cases (d : SonnetData) :
  match Sonnet_init d with
  | inr sonnet =>
      sonnet_title sonnet = data_title d
      /\ sonnet_lines sonnet = data_lines d
      /\ exists word, index_list (split (data_title d)) 1 = Some word
           /\ int (rstrip ":"%char word) = Some (sonnet_id sonnet)
  | inl e =>
      (e = IndexError /\ index_list (split (data_title d)) 1 = None)
      \/ (e = ValueError
          /\ exists word, index_list (split (data_title d)) 1 = Some word
               /\ int (rstrip ":"%char word) = None)
  end.
Proof.
  unfold Sonnet_init.
  destruct (index_list (split (data_title d)) 1) as [word|]; [| by left].
  destruct (int (rstrip ":"%char word)) as [n|] eqn:E; simpl.
  - split_and!; [done..|]. by exists word.
  - right. split; [done|]. by exists word.
Qed.

Lemma Sonnet_init_no_digit (d : SonnetData) :
  no_digit (data_title d) -> exists e, Sonnet_init d = inl e.
Proof.
  intros Hno. pose proof (Sonnet_init_cases d) as Hc.
  destruct (Sonnet_init d) as [e|sonnet]; [by exists e|].
  destruct Hc as (_ & _ & word & Hword & Hint). exfalso.
  apply int_has_digit, Exists_exists in Hint as (c & Hc & Hd).
  apply Hd. unfold no_digit in Hno. rewrite Forall_forall in Hno.
  apply Hno. unfold rstrip in Hc. rewrite chars_str in Hc.
  apply rstrip_chars_subseteq in Hc.
  unfold index_list in Hword. simpl in Hword.
  apply list_elem_of_lookup_2 in Hword.
  unfold split in Hword. apply list_elem_of_fmap in Hword as ([t o] & -> & Hin).
  by apply (tokenize_subseteq _ _ _ Hin).
Qed.

Lemma load_sonnets_fails (records : list SonnetData) :
  Exists (fun d => exists e, Sonnet_init d = inl e) records ->
  exists e, load_sonnets records = inl e.
Proof.
  induction 1 as [d records [e He] | d records Hex [e IH]]; simpl.
  - rewrite He. by exists e.
  - destruct (Sonnet_init d) as [e'|sonnet]; [by exists e'|].
    rewrite IH. by exists e.
Qed.

Lemma load_sonnets_all (records : list SonnetData) (sonnets : list Sonnet) :
  load_sonnets records = inr sonnets ->
  Forall2 (fun d sonnet => Sonnet_init d = inr sonnet) records sonnets.
Proof.
  revert sonnets. induction records as [|d records IH]; intros sonnets; simpl.
  - intros [= <-]. constructor.
  - destruct (Sonnet_init d) as [e|sonnet] eqn:Ed; [done|].
    destruct (load_sonnets records) as [e|rest] eqn:E; [done|].
    intros [= <-]. constructor; [done | by apply IH].
Qed.

(** C9, as the code has it: the constructor reads the identifying number
    from the second word of the title.  When there is none, which includes
    every title without a digit, the construction builds no document and
    raises a built-in error: IndexError exactly when the title has fewer
    than two words, ValueError exactly when it has a second word that,
    without its final colons, [int] does not convert (no numeral, or a
    numeral of more than 4300 digits); a corpus loaded record by record
    is not built either.  When there is a number, it is the id of the
    document. *)
Theorem Sonnet_init_fails_fast (d : SonnetData) :
  match identifying_number (data_title d) with
  | Some n =>
      Sonnet_init d = inr {| sonnet_title := data_title d;
                             sonnet_lines := data_lines d;
                             sonnet_id := n |}
  | None =>
      exists e, Sonnet_init d = inl e
        /\ (e = IndexError \/ e = ValueError)
        /\ (e = IndexError <-> (length (split (data_title d)) < 2)%nat)
        /\ (e = ValueError <->
              exists word, split (data_title d) !! 1%nat = Some word
                /\ int (rstrip ":"%char word) = None)
        /\ forall records, d ∈ records ->
             exists e', load_sonnets records = inl e'
  end
  /\ (no_digit (data_title d) -> identifying_number (data_title d) = None).
Proof.
  assert (Hidx : index_list (split (data_title d)) 1
                 = split (data_title d) !! 1%nat) by done.
  split.
  - unfold identifying_number, Sonnet_init. cbv zeta. rewrite Hidx.
    destruct (split (data_title d) !! 1%nat) as [word|] eqn:Ew.
    + destruct (int (rstrip ":"%char word)) as [n|] eqn:En; [done|].
      exists ValueError. split_and!; [done | by right | | |].
      * split; [done|]. intros Hlen.
        apply lookup_lt_Some in Ew. lia.
      * split; [| done]. intros _. by exists word.
      * intros records Hin. apply load_sonnets_fails, Exists_exists.
        exists d. split; [done|]. exists ValueError.
        unfold Sonnet_init. cbv zeta. by rewrite Hidx, En.
    + exists IndexError. split_and!; [done | by left | | |].
      * split; [| done]. intros _.
        apply lookup_ge_None in Ew. lia.
      * split; [done|]. by intros (word & ? & _).
      * intros records Hin. apply load_sonnets_fails, Exists_exists.
        exists d. split; [done|]. exists IndexError.
        unfold Sonnet_init. cbv zeta. by rewrite Hidx.
  - intros Hno. destruct (Sonnet_init_no_digit d Hno) as [e He].
    unfold identifying_number. unfold Sonnet_init in He.
    destruct (index_list (split (data_title d)) 1) as [word|]; [| done].
    by destruct (int (rstrip ":"%char word)).
Qed.

Lemma Sonnet_init_fails_fast_witness :
  no_digit "Sonnet the first"
  /\ identifying_number "Sonnet the first" = None.
Proof.
  assert (Hno : no_digit "Sonnet the first").
  { unfold no_digit. simpl. repeat constructor. }
  split; [exact Hno|].
  exact (proj2 (Sonnet_init_fails_fast
                  {| data_title := "Sonnet the first"; data_lines := [] |})
           Hno).
Defined.

(** A title of one word: the constructor raises IndexError, which is not
    an error class of its own for malformed documents. *)
Lemma Sonnet_init_raises_builtin :
  identifying_number "Sonnet" = None
  /\ Sonnet_init {| data_title := "Sonnet"; data_lines := [] |}
     = inl IndexError
  /\ class_name IndexError <> "MalformedDocumentError".
Proof. split_and!; [reflexivity | reflexivity | discriminate]. Qed.

(** A numeral of 4300 digits is read, one of 4301 digits raises
    ValueError. *)
Example Sonnet_init_long_numeral :
  is_Some (identifying_number
             ("Sonnet " ++ str (replicate 4300 "1"%char) ++ ":"))
  /\ Sonnet_init
       {| data_title := "Sonnet " ++ str (replicate 4301 "1"%char) ++ ":";
          data_lines := [] |}
     = inl ValueError.
Proof. split; [vm_compute; by eexists | by vm_compute]. Qed.

Example Sonnet_init_example :
  Sonnet_init {| data_title := "Sonnet 18: Shall I compare thee";
                 data_lines := [] |}
  = inr {| sonnet_title := "Sonnet 18: Shall I compare thee";
           sonnet_lines := []; sonnet_id := 18 |}.
Proof. reflexivity. Qed.

(** ** The query path on examples *)

(** C1, at the query "zzz thee" in AND mode: "zzz" is not indexed, yet
    the search returns the result of "thee", because the empty running
    mapping left by "zzz" is seeded again by the next word.  With the
    words the other way round the result is empty. *)
Theorem search_and_unindexed_word_first :
  let searcher := @Searcher_init identity_stemmer corpus in
  @Index_search_for identity_stemmer (searcher_index searcher) "zzz" []
    = Returns [] []
  /\ (exists r h,
        @Searcher_search identity_stemmer searcher "zzz thee" "AND" []
          = Returns [r] h
        /\ sr_title r = "Sonnet 1: Fairest" /\ sr_matches r = 1)
  /\ (exists h,
        @Searcher_search identity_stemmer searcher "thee zzz" "AND" []
          = Returns [] h).
Proof.
  split_and!.
  - reflexivity.
  - eexists _, _. split_and!; [vm_compute; reflexivity | done..].
  - eexists. vm_compute. reflexivity.
Qed.

(** [Index.search_for] stems the token it is given, so the key of the
    lookup for a word of the query is the stem of its stem. *)
Lemma Index_search_for_key `{Stemmer} (self : Index) (word : string) :
  normalized_stem_token (normalized_stem_token word) = ""
  \/ dict_get (normalized_stem_token (normalized_stem_token word))
       (index_dictionary self) = None ->
  forall h,
    Index_search_for self (normalized_stem_token word) h = Returns [] h.
Proof.
  intros Hkey h. unfold Index_search_for.
  case_decide; [done|]. destruct Hkey as [|Hkey]; [done|].
  by rewrite Hkey.
Qed.

(** C2, at the word "glass" with a stemmer that removes one final "s":
    the stem "glas" of the word is a key of the index, but the search
    looks up "gla", the stem of the stem, and finds nothing, while the
    per-document search, which stems once, finds both occurrences. *)
Theorem search_word_stems_twice :
  let index := @Index_init plural_stemmer [sonnet3] in
  let searcher := @Searcher_init plural_stemmer [sonnet3] in
  @normalized_stem_token plural_stemmer "glass" = "glas"
  /\ dict_in "glas" (index_dictionary index) = true
  /\ @normalized_stem_token plural_stemmer "glas" = "gla"
  /\ dict_in "gla" (index_dictionary index) = false
  /\ @search_word plural_stemmer searcher "OR" [] "glass" [] = Returns [] []
  /\ (exists r h,
        @Sonnet_search_for plural_stemmer sonnet3 "glass" index []
          = Returns r h
        /\ sr_matches r = 2).
Proof.
  split_and!; try reflexivity.
  eexists _, _. split; [vm_compute; reflexivity | done].
Qed.

(** The scenarios of the specification, with the stemmer that removes
    one final "s": "thee summer" in AND mode finds both words in line 3 of
    the first sonnet, and "thee zzz" in OR mode finds what "thee" finds. *)
Example search_and_two_words :
  @Searcher_search plural_stemmer (@Searcher_init plural_stemmer corpus)
    "thee summer" "AND" []
  = Returns
      [{| sr_title := "Sonnet 1: Fairest"; sr_title_spans := [];
          sr_line_matches :=
            [{| lm_line_no := 3;
                lm_text := "Shall I compare thee to a summer's day?";
                lm_spans := 0%nat |}];
          sr_matches := 2 |}]
      [[(16, 20); (26, 34)]; [(26, 34)]].
Proof. vm_compute. reflexivity. Qed.

Example search_or_unindexed_word :
  @Searcher_search plural_stemmer (@Searcher_init plural_stemmer corpus)
    "thee zzz" "OR" []
  = @Searcher_search plural_stemmer (@Searcher_init plural_stemmer corpus)
      "thee" "OR" [].
Proof. vm_compute. reflexivity. Qed.

(** ** Dictionaries *)

Section dict_facts.
Context {K V : Type} `{EqDecision K}.
Implicit Types (d : dict K V) (k : K) (v : V).

Lemma dict_get_None d k : dict_get k d = None <-> k ∉ dict_keys d.
Proof.
  induction d as [|[k' v'] d IH]; simpl.
  - split; [intros _; apply not_elem_of_nil | done].
  - rewrite not_elem_of_cons. case_decide as E.
    + split; [done | by intros [? _]].
    + rewrite IH. split; [done | by intros [_ ?]].
Qed.

Lemma dict_get_Some_elem d k v : dict_get k d = Some v -> (k, v) ∈ d.
Proof.
  induction d as [|[k' v'] d IH]; simpl; [done|].
  case_decide; [intros [= ->]; subst; by left | intros; right; auto].
Qed.

Lemma dict_get_elem d k v :
  NoDup (dict_keys d) -> (k, v) ∈ d -> dict_get k d = Some v.
Proof.
  induction d as [|[k' v'] d IH]; simpl; [by intros _ ?%elem_of_nil|].
  intros [Hk Hd]%NoDup_cons [[= -> ->] | Hin]%elem_of_cons.
  - by rewrite decide_True.
  - rewrite decide_False; [by apply IH|].
    intros ->. apply Hk. by apply (list_elem_of_fmap_2 fst _ (k', v)).
Qed.

Lemma dict_set_absent d k v :
  dict_get k d = None -> dict_set k v d = d ++ [(k, v)].
Proof.
  induction d as [|[k' v'] d IH]; simpl; [done|].
  case_decide; [done|]. intros Hd. by rewrite IH.
Qed.

Lemma dict_get_set d k k' v :
  dict_get k (dict_set k' v d) = if decide (k = k') then Some v
                                 else dict_get k d.
Proof.
  induction d as [|[k0 v0] d IH]; simpl.
  - by repeat case_decide.
  - repeat (case_decide; simpl; subst); try done.
Qed.

Lemma dict_keys_set_present d k v v' :
  dict_get k d = Some v' -> dict_keys (dict_set k v d) = dict_keys d.
Proof.
  induction d as [|[k0 v0] d IH]; simpl; [done|].
  case_decide; simpl; [by subst|]. intros Hd. f_equal. by apply IH.
Qed.

Lemma dict_keys_set_absent d k v :
  dict_get k d = None -> dict_keys (dict_set k v d) = dict_keys d ++ [k].
Proof.
  intros Hd. rewrite dict_set_absent by done.
  unfold dict_keys. by rewrite fmap_app.
Qed.

Lemma dict_set_NoDup d k v :
  NoDup (dict_keys d) -> NoDup (dict_keys (dict_set k v d)).
Proof.
  intros Hd. destruct (dict_get k d) as [v'|] eqn:E.
  - by rewrite (dict_keys_set_present _ _ _ _ E).
  - rewrite (dict_keys_set_absent _ _ _ E).
    apply NoDup_app. split_and!; [done | | apply NoDup_singleton].
    intros x Hx ->%list_elem_of_singleton. by apply dict_get_None in E.
Qed.
End dict_facts.

(** ** The store *)

Lemma LineMatch_copy_id (lm : LineMatch) : LineMatch_copy lm = lm.
Proof. by destruct lm. Qed.

(** ** Computations *)

Lemma for_each_cons {A B} (x : B) (l : list B) (body : A -> B -> M A)
    (acc : A) (h : store) :
  for_each (x :: l) body acc h
  = match body acc x h with
    | Returns acc' h' => for_each l body acc' h'
    | Raises e => Raises e
    end.
Proof. done. Qed.

(** ** Line matches in a store *)

Lemma spans_at_cons (h : store) (lm : LineMatch) (lms : list LineMatch)
    (ln : Z) :
  spans_at h (lm :: lms) ln
  = (if decide (lm_line_no lm = ln) then deref h (lm_spans lm) else [])
      ++ spans_at h lms ln.
Proof.
  unfold spans_at. rewrite filter_cons. by case_decide.
Qed.

Lemma spans_at_app (h : store) (l1 l2 : list LineMatch) (ln : Z) :
  spans_at h (l1 ++ l2) ln = spans_at h l1 ln ++ spans_at h l2 ln.
Proof.
  unfold spans_at. by rewrite filter_app, fmap_app, concat_app.
Qed.

Lemma spans_at_absent (h : store) (lms : list LineMatch) (ln : Z) :
  ln ∉ line_numbers lms -> spans_at h lms ln = [].
Proof.
  induction lms as [|lm lms IH]; [done|].
  intros [Hne Hnot]%not_elem_of_cons. rewrite spans_at_cons.
  rewrite decide_False by done. by apply IH.
Qed.

Lemma spans_at_frame (h h' : store) (lms : list LineMatch) (ln : Z) :
  (forall r, r ∈ refs lms -> deref h' r = deref h r) ->
  spans_at h' lms ln = spans_at h lms ln.
Proof.
  induction lms as [|lm lms IH]; intros Hsame; [done|].
  rewrite !spans_at_cons, IH.
  - rewrite (Hsame (lm_spans lm)); [done | by left].
  - intros r Hr. apply Hsame. by right.
Qed.

Lemma span_total_app (h : store) (l1 l2 : list LineMatch) :
  span_total h (l1 ++ l2) = span_total h l1 + span_total h l2.
Proof.
  induction l1 as [|lm l1 IH]; simpl; [done|].
  fold (span_total h (l1 ++ l2)). fold (span_total h l1). lia.
Qed.

Lemma span_total_frame (h h' : store) (lms : list LineMatch) :
  (forall r, r ∈ refs lms -> deref h' r = deref h r) ->
  span_total h' lms = span_total h lms.
Proof.
  induction lms as [|lm lms IH]; intros Hsame; simpl; [done|].
  fold (span_total h' lms). fold (span_total h lms).
  rewrite IH, (Hsame (lm_spans lm)); [done | by left |].
  intros r Hr. apply Hsame. by right.
Qed.

Lemma span_total_perm (h : store) (l1 l2 : list LineMatch) :
  l1 ≡ₚ l2 -> span_total h l1 = span_total h l2.
Proof.
  induction 1 as [|x l1 l2 _ IH|x y l|l1 l2 l3 _ IH1 _ IH2]; simpl;
    fold (span_total h); lia.
Qed.

Lemma lines_apart_cons (h : store) (x : LineMatch) (lms : list LineMatch) :
  lines_apart h (x :: lms)
  <-> (lm_line_no x ∉ line_numbers lms) /\ (lm_spans x ∉ refs lms)
      /\ (lm_spans x < length h)%nat /\ lines_apart h lms.
Proof.
  unfold lines_apart, line_numbers, refs.
  rewrite !fmap_cons, !NoDup_cons, Forall_cons. tauto.
Qed.

Lemma lines_apart_valid (h : store) (lms : list LineMatch) (lm : LineMatch) :
  lines_apart h lms -> lm ∈ lms -> (lm_spans lm < length h)%nat.
Proof.
  intros (_ & _ & Hvalid) Hin. rewrite Forall_forall in Hvalid.
  apply Hvalid. by apply list_elem_of_fmap_2.
Qed.

Lemma deref_extend_other (h : store) (r r' : ref) (v : list span) :
  r' <> r -> deref (<[r := v]> h) r' = deref h r'.
Proof. intros Hne. unfold deref. by rewrite list_lookup_insert_ne. Qed.

Lemma deref_extend_same (h : store) (r : ref) (v : list span) :
  (r < length h)%nat -> deref (<[r := v]> h) r = v.
Proof. intros Hr. unfold deref. by rewrite list_lookup_insert_eq. Qed.

(** Extending the list object of one line match of [lms]. *)
Lemma spans_at_extend (h : store) (lms : list LineMatch) (mine : LineMatch)
    (v : list span) (ln : Z) :
  mine ∈ lms -> lines_apart h lms ->
  spans_at (<[lm_spans mine := deref h (lm_spans mine) ++ v]> h) lms ln
  = spans_at h lms ln ++ (if decide (lm_line_no mine = ln) then v else []).
Proof.
  induction lms as [|x lms IH]; intros Hin Hap; [by inversion Hin|].
  apply lines_apart_cons in Hap as (Hx & Hrx & Hvx & Hap).
  rewrite !spans_at_cons.
  apply elem_of_cons in Hin as [<- | Hin].
  - rewrite deref_extend_same by done.
    rewrite (spans_at_frame h); last first.
    { intros r Hr. apply deref_extend_other. intros ->. by apply Hrx. }
    case_decide as E; [| by rewrite app_nil_r].
    subst. rewrite (spans_at_absent h lms) by done.
    by rewrite !app_nil_r.
  - rewrite deref_extend_other.
    + rewrite IH by done. by rewrite app_assoc.
    + intros E. apply Hrx. rewrite E. by apply list_elem_of_fmap_2.
Qed.

Lemma span_total_extend (h : store) (lms : list LineMatch) (mine : LineMatch)
    (v : list span) :
  mine ∈ lms -> lines_apart h lms ->
  span_total (<[lm_spans mine := deref h (lm_spans mine) ++ v]> h) lms
  = span_total h lms + Z.of_nat (length v).
Proof.
  induction lms as [|x lms IH]; intros Hin Hap; [by inversion Hin|].
  apply lines_apart_cons in Hap as (Hx & Hrx & Hvx & Hap).
  simpl. fold (span_total h lms).
  fold (span_total (<[lm_spans mine := deref h (lm_spans mine) ++ v]> h) lms).
  apply elem_of_cons in Hin as [<- | Hin].
  - rewrite deref_extend_same by done.
    rewrite (span_total_frame h); last first.
    { intros r Hr. apply deref_extend_other. intros ->. by apply Hrx. }
    rewrite length_app. lia.
  - rewrite deref_extend_other.
    + rewrite IH by done. lia.
    + intros E. apply Hrx. rewrite E. by apply list_elem_of_fmap_2.
Qed.

(** ** The loop of [combine_with] *)

Lemma dict_keys_keyed (lms : list LineMatch) :
  dict_keys (keyed lms) = line_numbers lms.
Proof.
  unfold dict_keys, keyed, line_numbers. rewrite <- list_fmap_compose.
  by apply list_fmap_ext.
Qed.

Lemma dict_values_keyed (lms : list LineMatch) :
  dict_values (keyed lms) = lms.
Proof.
  unfold dict_values, keyed. rewrite <- list_fmap_compose.
  rewrite <- (list_fmap_id lms) at 2. by apply list_fmap_ext.
Qed.

Lemma dict_get_keyed_Some (lms : list LineMatch) (ln : Z) (lm : LineMatch) :
  dict_get ln (keyed lms) = Some lm -> lm ∈ lms /\ lm_line_no lm = ln.
Proof.
  intros Hget%dict_get_Some_elem.
  apply list_elem_of_fmap in Hget as (x & [= -> ->] & Hx). done.
Qed.

Lemma dict_get_keyed_None (lms : list LineMatch) (ln : Z) :
  dict_get ln (keyed lms) = None <-> ln ∉ line_numbers lms.
Proof. by rewrite dict_get_None, dict_keys_keyed. Qed.

Lemma keyed_snoc (lms : list LineMatch) (lm : LineMatch) :
  lm_line_no lm ∉ line_numbers lms ->
  dict_set (lm_line_no lm) lm (keyed lms) = keyed (lms ++ [lm]).
Proof.
  intros Hnot. rewrite dict_set_absent by by apply dict_get_keyed_None.
  unfold keyed. by rewrite fmap_app.
Qed.

Lemma fold_keyed (l lms : list LineMatch) :
  NoDup (line_numbers (lms ++ l)) ->
  fold_left (fun d lm => dict_set (lm_line_no lm) (LineMatch_copy lm) d) l
    (keyed lms)
  = keyed (lms ++ l).
Proof.
  revert lms. induction l as [|x l IH]; intros lms Hnd; simpl.
  - by rewrite app_nil_r.
  - rewrite LineMatch_copy_id, keyed_snoc.
    + rewrite IH; rewrite <- app_assoc; done.
    + unfold line_numbers in Hnd. rewrite fmap_app in Hnd.
      apply NoDup_app in Hnd as (_ & Hdisj & _).
      intros Hin. apply (Hdisj _ Hin). by left.
Qed.

Lemma new_lines_cons_old (lms bl : list LineMatch) (lm : LineMatch) :
  lm_line_no lm ∈ line_numbers lms ->
  new_lines lms (lm :: bl) = new_lines lms bl.
Proof.
  intros Hin. unfold new_lines. rewrite filter_cons.
  by rewrite decide_False by (by intros ?).
Qed.

Lemma filter_ext_in {A} (P Q : A -> Prop) `{!forall x, Decision (P x)}
    `{!forall x, Decision (Q x)} (l : list A) :
  (forall x, x ∈ l -> P x <-> Q x) -> filter P l = filter Q l.
Proof.
  induction l as [|x l IH]; intros Hext; [done|].
  rewrite !filter_cons.
  assert (HP : P x <-> Q x) by (apply Hext; by left).
  rewrite IH by (intros y Hy; apply Hext; by right).
  destruct (decide (P x)), (decide (Q x)); tauto.
Qed.

Lemma new_lines_cons_new (lms bl : list LineMatch) (lm : LineMatch) :
  lm_line_no lm ∉ line_numbers lms ->
  lm_line_no lm ∉ line_numbers bl ->
  new_lines lms (lm :: bl) = lm :: new_lines (lms ++ [lm]) bl.
Proof.
  intros Hnot Hbl. unfold new_lines. rewrite filter_cons.
  rewrite decide_True by done. f_equal.
  apply filter_ext_in. intros x Hx.
  unfold line_numbers. rewrite fmap_app, not_elem_of_app. simpl.
  rewrite list_elem_of_singleton. split; [| by intros [? _]].
  intros Hxl. split; [done|]. intros E. apply Hbl. rewrite <- E.
  by apply list_elem_of_fmap_2.
Qed.

Lemma lines_apart_snoc (h : store) (lms : list LineMatch) (lm : LineMatch) :
  lines_apart h lms -> lm_line_no lm ∉ line_numbers lms ->
  lm_spans lm ∉ refs lms -> (lm_spans lm < length h)%nat ->
  lines_apart h (lms ++ [lm]).
Proof.
  intros (Hl & Hr & Hv) Hln Href Hvalid. unfold lines_apart, line_numbers, refs.
  rewrite !fmap_app. simpl. split_and!.
  - apply NoDup_app. split_and!; [done | | apply NoDup_singleton].
    by intros x Hx ->%list_elem_of_singleton.
  - apply NoDup_app. split_and!; [done | | apply NoDup_singleton].
    by intros x Hx ->%list_elem_of_singleton.
  - apply Forall_app. split; [done | by constructor].
Qed.

Lemma lines_apart_length (h h' : store) (lms : list LineMatch) :
  length h' = length h -> lines_apart h lms -> lines_apart h' lms.
Proof. intros E (Hl & Hr & Hv). unfold lines_apart. by rewrite E. Qed.

Lemma merge_lines_spec (bl : list LineMatch) :
  forall (lms : list LineMatch) (h : store),
    lines_apart h lms -> lines_apart h bl ->
    (forall r, r ∈ refs lms -> r ∉ refs bl) ->
    exists h',
      for_each bl merge_line (keyed lms) h
        = Returns (keyed (lms ++ new_lines lms bl)) h'
      /\ length h' = length h
      /\ (forall r,
            (forall mine, mine ∈ lms -> lm_spans mine = r ->
                          lm_line_no mine ∉ line_numbers bl) ->
            deref h' r = deref h r)
      /\ (forall ln, spans_at h' (lms ++ new_lines lms bl) ln
                     = spans_at h lms ln ++ spans_at h bl ln)
      /\ span_total h' (lms ++ new_lines lms bl)
         = span_total h lms + span_total h bl.
Proof.
  induction bl as [|lm bl IH]; intros lms h Hlms Hbl Hdisj.
  { exists h. unfold new_lines. simpl. rewrite !app_nil_r.
    split_and!; [done.. | intros; by rewrite app_nil_r | lia]. }
  apply lines_apart_cons in Hbl as (Hln & Href & Hvalid & Hbl).
  rewrite for_each_cons. unfold merge_line at 1.
  destruct (dict_get (lm_line_no lm) (keyed lms)) as [mine|] eqn:Eget.
  - apply dict_get_keyed_Some in Eget as [Hmine Eln].
    pose proof (lines_apart_valid _ _ _ Hlms Hmine) as Hmv.
    unfold bind, read, extend, ret.
    set (h1 := <[lm_spans mine := deref h (lm_spans mine)
                                  ++ deref h (lm_spans lm)]> h).
    assert (Hlen1 : length h1 = length h) by apply length_insert.
    assert (Hother : forall r, r <> lm_spans mine -> deref h1 r = deref h r).
    { intros r Hr. by apply deref_extend_other. }
    assert (Hbl1 : forall r, r ∈ refs bl -> deref h1 r = deref h r).
    { intros r Hr. apply Hother. intros ->.
      apply (Hdisj (lm_spans mine)); [by apply list_elem_of_fmap_2|].
      by right. }
    destruct (IH lms h1) as (h' & Hrun & Hlen & Hframe & Hspans & Htotal).
    { by apply (lines_apart_length h). }
    { by apply (lines_apart_length h). }
    { intros r Hr Hr'. apply (Hdisj r Hr). by right. }
    exists h'. rewrite new_lines_cons_old
      by (rewrite <- Eln; by apply list_elem_of_fmap_2).
    split_and!.
    + done.
    + congruence.
    + intros r Hr. rewrite Hframe.
      * apply Hother. intros ->.
        apply (Hr mine Hmine eq_refl). rewrite Eln. by left.
      * intros m Hm Er Hin. apply (Hr m Hm Er). by right.
    + intros ln. rewrite Hspans. unfold h1.
      rewrite spans_at_extend by done. fold h1.
      rewrite (spans_at_frame h h1 bl) by done.
      rewrite spans_at_cons, Eln. by rewrite <- !app_assoc.
    + rewrite Htotal. unfold h1. rewrite span_total_extend by done. fold h1.
      rewrite (span_total_frame h h1 bl) by done. simpl.
      fold (span_total h bl). lia.
  - apply dict_get_keyed_None in Eget.
    unfold ret. rewrite LineMatch_copy_id, keyed_snoc by done.
    destruct (IH (lms ++ [lm]) h) as (h' & Hrun & Hlen & Hframe & Hspans
                                      & Htotal).
    { apply lines_apart_snoc; [done.. | | done].
      intros Hin. apply (Hdisj _ Hin). by left. }
    { done. }
    { intros r Hr. unfold refs in Hr. rewrite fmap_app in Hr.
      apply elem_of_app in Hr as [Hr | ->%list_elem_of_singleton].
      - intros Hr'. apply (Hdisj r Hr). by right.
      - done. }
    exists h'. rewrite new_lines_cons_new by done.
    replace (lms ++ lm :: new_lines (lms ++ [lm]) bl)
      with ((lms ++ [lm]) ++ new_lines (lms ++ [lm]) bl)
      by (by rewrite <- app_assoc).
    split_and!.
    + done.
    + done.
    + intros r Hr. apply Hframe. intros m Hm Er.
      apply elem_of_app in Hm as [Hm | ->%list_elem_of_singleton].
      * intros Hin. apply (Hr m Hm Er). by right.
      * done.
    + intros ln. rewrite Hspans, spans_at_app, (spans_at_cons h lm bl).
      rewrite <- !app_assoc. do 2 f_equal.
      rewrite spans_at_cons. unfold spans_at. simpl. by rewrite app_nil_r.
    + rewrite Htotal, span_total_app. simpl. fold (span_total h bl). lia.
Qed.

(** ** [combine_with] *)

Lemma merge_lines_returns (bl : list LineMatch) :
  forall (d : dict Z LineMatch) (h : store),
    exists d' h', for_each bl merge_line d h = Returns d' h'
                  /\ length h' = length h.
Proof.
  induction bl as [|lm bl IH]; intros d h; [by exists d, h|].
  rewrite for_each_cons. unfold merge_line at 1.
  destruct (dict_get (lm_line_no lm) d) as [mine|].
  - unfold bind, read, extend, ret.
    destruct (IH d (<[lm_spans mine := deref h (lm_spans mine)
                                       ++ deref h (lm_spans lm)]> h))
      as (d' & h' & -> & Hlen).
    exists d', h'. split; [done|]. by rewrite Hlen, length_insert.
  - unfold ret. apply IH.
Qed.

(** What [combine_with] returns whatever the arguments are. *)
Lemma combine_with_returns (a b : SearchResult) (h : store) :
  exists c h',
    combine_with a b h = Returns c h'
    /\ length h' = length h
    /\ sr_title c = sr_title a
    /\ sr_matches c = sr_matches a + sr_matches b
    /\ sr_title_spans c
       = sorted span_leb (sr_title_spans a ++ sr_title_spans b).
Proof.
  unfold combine_with, bind.
  destruct (merge_lines_returns (sr_line_matches b)
              (fold_left
                 (fun d lm => dict_set (lm_line_no lm) (LineMatch_copy lm) d)
                 (sr_line_matches a) []) h) as (d' & h' & -> & Hlen).
  by eexists _, h'.
Qed.

Lemma fold_keyed_nil (l : list LineMatch) :
  NoDup (line_numbers l) ->
  fold_left (fun d lm => dict_set (lm_line_no lm) (LineMatch_copy lm) d) l []
  = keyed l.
Proof. intros Hnd. by apply (fold_keyed l []). Qed.

Lemma combine_with_spec (a b : SearchResult) (h : store) :
  apart h a b ->
  exists h',
    combine_with a b h = Returns (combined a b) h'
    /\ length h' = length h
    /\ (forall r, r ∉ refs (sr_line_matches a) -> deref h' r = deref h r)
    /\ (forall ln,
          spans_at h'
            (sr_line_matches a
               ++ new_lines (sr_line_matches a) (sr_line_matches b)) ln
          = spans_at h (sr_line_matches a) ln
              ++ spans_at h (sr_line_matches b) ln)
    /\ span_total h'
         (sr_line_matches a
            ++ new_lines (sr_line_matches a) (sr_line_matches b))
       = span_total h (sr_line_matches a) + span_total h (sr_line_matches b).
Proof.
  intros (Ha & Hb & Hdisj).
  destruct (merge_lines_spec (sr_line_matches b) (sr_line_matches a) h)
    as (h' & Hrun & Hlen & Hframe & Hspans & Htotal); [done..|].
  exists h'. split_and!; [| done | | done | done].
  - unfold combine_with, bind.
    rewrite fold_keyed_nil by apply Ha.
    rewrite Hrun. unfold ret, combined.
    by rewrite dict_values_keyed.
  - intros r Hr. apply Hframe. intros mine Hmine <-.
    exfalso. apply Hr. by apply list_elem_of_fmap_2.
Qed.

(** ** The line matches of a combination *)

Lemma line_no_leb_total (a b : LineMatch) :
  line_no_leb a b = false -> line_no_leb b a = true.
Proof. unfold line_no_leb. lia. Qed.

Lemma lines_apart_perm (h : store) (l1 l2 : list LineMatch) :
  l1 ≡ₚ l2 -> lines_apart h l1 -> lines_apart h l2.
Proof.
  intros Hp. unfold lines_apart, line_numbers, refs. by rewrite Hp.
Qed.

(** With different line numbers, at most one line match has line [ln]. *)
Lemma filter_line_unique (lms : list LineMatch) (ln : Z) :
  NoDup (line_numbers lms) ->
  filter (fun lm => lm_line_no lm = ln) lms = []
  \/ exists x, filter (fun lm => lm_line_no lm = ln) lms = [x].
Proof.
  induction lms as [|lm lms IH]; [by left|].
  unfold line_numbers. rewrite fmap_cons, NoDup_cons. intros [Hnot Hnd].
  rewrite filter_cons. case_decide as E; [| by apply IH].
  right. exists lm. f_equal.
  destruct (filter (fun lm0 => lm_line_no lm0 = ln) lms) as [|y l] eqn:Ef;
    [done|].
  exfalso. apply Hnot.
  assert (Hy : y ∈ filter (fun lm0 => lm_line_no lm0 = ln) lms)
    by (rewrite Ef; by left).
  apply list_elem_of_filter in Hy as [Ey Hy].
  rewrite E, <- Ey. by apply list_elem_of_fmap_2.
Qed.

Lemma filter_line_perm (l1 l2 : list LineMatch) (ln : Z) :
  l1 ≡ₚ l2 -> NoDup (line_numbers l1) ->
  filter (fun lm => lm_line_no lm = ln) l1
  = filter (fun lm => lm_line_no lm = ln) l2.
Proof.
  intros Hp Hnd.
  assert (Hf : filter (fun lm => lm_line_no lm = ln) l1
               ≡ₚ filter (fun lm => lm_line_no lm = ln) l2)
    by (by rewrite Hp).
  destruct (filter_line_unique l1 ln Hnd) as [E | [x E]]; rewrite E in Hf |- *.
  - by apply Permutation_nil_l in Hf.
  - by apply Permutation_singleton_l in Hf.
Qed.

Lemma spans_at_perm (h : store) (l1 l2 : list LineMatch) (ln : Z) :
  l1 ≡ₚ l2 -> NoDup (line_numbers l1) -> spans_at h l1 ln = spans_at h l2 ln.
Proof.
  intros Hp Hnd. unfold spans_at. by rewrite (filter_line_perm l1 l2).
Qed.

Lemma text_at_perm (l1 l2 : list LineMatch) (ln : Z) :
  l1 ≡ₚ l2 -> NoDup (line_numbers l1) -> text_at l1 ln = text_at l2 ln.
Proof.
  intros Hp Hnd. unfold text_at. by rewrite (filter_line_perm l1 l2).
Qed.

Lemma text_at_app (l1 l2 : list LineMatch) (ln : Z) :
  text_at (l1 ++ l2) ln
  = match text_at l1 ln with
    | Some t => Some t
    | None => text_at l2 ln
    end.
Proof.
  unfold text_at. rewrite filter_app.
  by destruct (filter (fun lm => lm_line_no lm = ln) l1).
Qed.

Lemma text_at_absent (lms : list LineMatch) (ln : Z) :
  ln ∉ line_numbers lms -> text_at lms ln = None.
Proof.
  intros Hnot. unfold text_at.
  destruct (filter (fun lm => lm_line_no lm = ln) lms) as [|y l] eqn:Ef;
    [done|].
  exfalso. apply Hnot.
  assert (Hy : y ∈ filter (fun lm0 => lm_line_no lm0 = ln) lms)
    by (rewrite Ef; by left).
  apply list_elem_of_filter in Hy as [Ey Hy].
  rewrite <- Ey. by apply list_elem_of_fmap_2.
Qed.

Lemma text_at_present (lms : list LineMatch) (ln : Z) :
  ln ∈ line_numbers lms -> is_Some (text_at lms ln).
Proof.
  intros (lm & -> & Hin)%list_elem_of_fmap. unfold text_at.
  destruct (filter (fun lm0 => lm_line_no lm0 = lm_line_no lm) lms)
    as [|y l] eqn:Ef; [| by eexists].
  assert (Hy : lm ∈ filter (fun lm0 => lm_line_no lm0 = lm_line_no lm) lms)
    by (by apply list_elem_of_filter).
  rewrite Ef in Hy. by inversion Hy.
Qed.

Lemma text_at_new_lines (lms bl : list LineMatch) (ln : Z) :
  text_at (new_lines lms bl) ln
  = if decide (ln ∈ line_numbers lms) then None else text_at bl ln.
Proof.
  unfold text_at, new_lines.
  induction bl as [|x bl IH]; [by case_decide|].
  rewrite !filter_cons.
  destruct (decide (lm_line_no x ∉ line_numbers lms)) as [Hx|Hx];
    destruct (decide (lm_line_no x = ln)) as [E|E];
    rewrite ?filter_cons, ?decide_True, ?decide_False by done;
    try done.
  - subst. rewrite decide_False by done. reflexivity.
  - subst. apply dec_stable in Hx. rewrite IH. by case_decide.
Qed.

Lemma new_lines_sublist (lms bl : list LineMatch) :
  new_lines lms bl `sublist_of` bl.
Proof. apply sublist_filter. Qed.

Lemma lines_apart_sublist (h : store) (l1 l2 : list LineMatch) :
  l1 `sublist_of` l2 -> lines_apart h l2 -> lines_apart h l1.
Proof.
  intros Hsub (Hl & Hr & Hv). unfold lines_apart, line_numbers, refs.
  split_and!.
  - eapply sublist_NoDup; [exact Hl | by apply fmap_sublist].
  - eapply sublist_NoDup; [exact Hr | by apply fmap_sublist].
  - rewrite Forall_forall in Hv |- *. intros r Hr'. apply Hv.
    eapply sublist_subseteq; [| exact Hr']. by apply fmap_sublist.
Qed.

Lemma lines_apart_app (h : store) (l1 l2 : list LineMatch) :
  lines_apart h l1 -> lines_apart h l2 ->
  (forall ln, ln ∈ line_numbers l1 -> ln ∉ line_numbers l2) ->
  (forall r, r ∈ refs l1 -> r ∉ refs l2) ->
  lines_apart h (l1 ++ l2).
Proof.
  intros (Hl1 & Hr1 & Hv1) (Hl2 & Hr2 & Hv2) Hln Hrf.
  unfold lines_apart, line_numbers, refs. rewrite !fmap_app.
  split_and!; [by apply NoDup_app | by apply NoDup_app | by apply Forall_app].
Qed.

Lemma lines_apart_union (h : store) (a b : SearchResult) :
  apart h a b ->
  lines_apart h
    (sr_line_matches a ++ new_lines (sr_line_matches a) (sr_line_matches b)).
Proof.
  intros (Ha & Hb & Hdisj). apply lines_apart_app.
  - done.
  - by apply (lines_apart_sublist h _ _ (new_lines_sublist _ _)).
  - intros ln Hln (lm & -> & Hin)%list_elem_of_fmap.
    unfold new_lines in Hin. by apply list_elem_of_filter in Hin as [Hnot _].
  - intros r Hr Hr'. apply (Hdisj r Hr).
    eapply sublist_subseteq; [| exact Hr'].
    apply fmap_sublist, new_lines_sublist.
Qed.

(** The combination of two results that are apart. *)
Lemma combine_with_apart (a b : SearchResult) (h : store) :
  apart h a b ->
  exists h',
    combine_with a b h = Returns (combined a b) h'
    /\ length h' = length h
    /\ (forall r, r ∉ refs (sr_line_matches a) -> deref h' r = deref h r)
    /\ lines_apart h' (sr_line_matches (combined a b))
    /\ (forall r, r ∈ refs (sr_line_matches (combined a b)) ->
                  r ∈ refs (sr_line_matches a)
                  \/ r ∈ refs (sr_line_matches b))
    /\ (forall ln,
          spans_at h' (sr_line_matches (combined a b)) ln
          = spans_at h (sr_line_matches a) ln
              ++ spans_at h (sr_line_matches b) ln)
    /\ span_total h' (sr_line_matches (combined a b))
       = span_total h (sr_line_matches a) + span_total h (sr_line_matches b)
    /\ (forall ln,
          text_at (sr_line_matches (combined a b)) ln
          = match text_at (sr_line_matches a) ln with
            | Some t => Some t
            | None => text_at (sr_line_matches b) ln
            end)
    /\ Sorted (fun x y => line_no_leb x y = true)
         (sr_line_matches (combined a b)).
Proof.
  intros Hap.
  destruct (combine_with_spec a b h Hap)
    as (h' & Hrun & Hlen & Hframe & Hspans & Htotal).
  pose proof (lines_apart_union h a b Hap) as Hunion.
  set (u := sr_line_matches a
            ++ new_lines (sr_line_matches a) (sr_line_matches b)) in *.
  assert (Hperm : sorted line_no_leb u ≡ₚ u) by apply sorted_perm.
  exists h'. simpl. fold u. split_and!; [done.. | | | | | |].
  - apply (lines_apart_perm h' u); [done|]. by apply (lines_apart_length h).
  - intros r Hr. unfold refs in Hr. rewrite Hperm in Hr.
    unfold u in Hr. rewrite fmap_app in Hr.
    apply elem_of_app in Hr as [Hr | Hr]; [by left | right].
    eapply sublist_subseteq; [| exact Hr].
    apply fmap_sublist, new_lines_sublist.
  - intros ln. rewrite <- Hspans. symmetry.
    apply spans_at_perm; [done | apply Hunion].
  - rewrite <- Htotal. by apply span_total_perm.
  - intros ln. rewrite <- (text_at_perm u) by (done || apply Hunion).
    unfold u. rewrite text_at_app, text_at_new_lines.
    destruct (text_at (sr_line_matches a) ln) as [t|] eqn:Et; [done|].
    case_decide as E; [| done].
    apply text_at_present in E as [t E]. congruence.
  - apply sorted_Sorted, line_no_leb_total.
Qed.

(** ** Commutativity and associativity of [combine_with] *)

Lemma apart_sym (h : store) (a b : SearchResult) : apart h a b -> apart h b a.
Proof.
  intros (Ha & Hb & Hdisj). split_and!; [done..|].
  intros r Hr Hr'. by apply (Hdisj r Hr').
Qed.

Lemma combine_with_comm_spans (a b : SearchResult) (h : store) :
  apart h a b ->
  both_return
    (fun h1 r1 h2 r2 =>
       same_spans h1 r1 h2 r2 /\ lines_sorted r1 /\ lines_sorted r2)
    (combine_with a b h) (combine_with b a h).
Proof.
  intros Hab.
  destruct (combine_with_apart a b h Hab)
    as (h1 & -> & _ & _ & _ & _ & Hs1 & _ & _ & Hsorted1).
  destruct (combine_with_apart b a h (apart_sym _ _ _ Hab))
    as (h2 & -> & _ & _ & _ & _ & Hs2 & _ & _ & Hsorted2).
  simpl. split_and!; [| done..]. split.
  - simpl. rewrite !sorted_perm. apply Permutation_app_comm.
  - intros ln. rewrite Hs1, Hs2. apply Permutation_app_comm.
Qed.

Lemma combine_with_assoc_spans (a b c : SearchResult) (h : store) :
  apart h a b -> apart h b c -> apart h a c ->
  both_return
    (fun h1 r1 h2 r2 =>
       same_spans h1 r1 h2 r2 /\ lines_sorted r1 /\ lines_sorted r2)
    (combine_left a b c h) (combine_right a b c h).
Proof.
  intros Hab Hbc Hac. unfold combine_left, combine_right, bind.
  destruct (combine_with_apart a b h Hab)
    as (h1 & -> & Hlen1 & Hframe1 & Hap1 & Hrefs1 & Hs1 & _ & _ & _).
  destruct (combine_with_apart b c h Hbc)
    as (h1' & -> & Hlen1' & Hframe1' & Hap1' & Hrefs1' & Hs1' & _ & _ & _).
  destruct (combine_with_apart (combined a b) c h1)
    as (h2 & -> & _ & _ & _ & _ & Hs2 & _ & _ & Hsorted2).
  { split_and!; [done | apply (lines_apart_length h); [done | apply Hbc] |].
    intros r [Hr | Hr]%Hrefs1; [by apply Hac | by apply Hbc]. }
  destruct (combine_with_apart a (combined b c) h1')
    as (h2' & -> & _ & _ & _ & _ & Hs2' & _ & _ & Hsorted2').
  { split_and!; [apply (lines_apart_length h); [done | apply Hab] | done |].
    intros r Hr [Hr' | Hr']%Hrefs1'; [by apply Hab in Hr | by apply Hac in Hr]. }
  simpl. split_and!; [| done..]. split.
  - simpl. rewrite !sorted_perm. by rewrite app_assoc.
  - intros ln. rewrite Hs2, Hs2', Hs1, Hs1'.
    rewrite (spans_at_frame h h1 (sr_line_matches c)).
    + rewrite (spans_at_frame h h1' (sr_line_matches a)).
      * by rewrite app_assoc.
      * intros r Hr. apply Hframe1'. by apply Hab.
    + intros r Hr. apply Hframe1. intros Hr'. by apply Hac in Hr'.
Qed.

(** C5, as the code has it.  The match counts of [combine_with] do not
    depend on the order or the grouping of the arguments.  For results
    that each have their line numbers apart and that share no list of
    spans, the title spans and the spans of every line are the same
    multisets either way, when each combination starts from the same
    store, and the line matches come out in order of line number. *)
Theorem combine_with_comm_assoc (a b c : SearchResult) (h : store) :
  both_return (fun _ r1 _ r2 => sr_matches r1 = sr_matches r2)
    (combine_with a b h) (combine_with b a h)
  /\ both_return (fun _ r1 _ r2 => sr_matches r1 = sr_matches r2)
       (combine_left a b c h) (combine_right a b c h)
  /\ (apart h a b -> apart h b c -> apart h a c ->
      both_return
        (fun h1 r1 h2 r2 =>
           same_spans h1 r1 h2 r2 /\ lines_sorted r1 /\ lines_sorted r2)
        (combine_with a b h) (combine_with b a h)
      /\ both_return
           (fun h1 r1 h2 r2 =>
              same_spans h1 r1 h2 r2 /\ lines_sorted r1 /\ lines_sorted r2)
           (combine_left a b c h) (combine_right a b c h)).
Proof.
  split_and!.
  - destruct (combine_with_returns a b h) as (ab & h1 & -> & _ & _ & Hm1 & _).
    destruct (combine_with_returns b a h) as (ba & h2 & -> & _ & _ & Hm2 & _).
    simpl. lia.
  - unfold combine_left, combine_right, bind.
    destruct (combine_with_returns a b h) as (ab & h1 & -> & _ & _ & Hm1 & _).
    destruct (combine_with_returns b c h) as (bc & h2 & -> & _ & _ & Hm2 & _).
    destruct (combine_with_returns ab c h1) as (r1 & h3 & -> & _ & _ & Hm3 & _).
    destruct (combine_with_returns a bc h2) as (r2 & h4 & -> & _ & _ & Hm4 & _).
    simpl. lia.
  - intros Hab Hbc Hac. split.
    + by apply combine_with_comm_spans.
    + by apply combine_with_assoc_spans.
Qed.

Lemma combine_with_comm_assoc_witness :
  let a := result_of [line_x_y 1 0%nat] 1 in
  let b := result_of [line_x_y 1 1%nat; line_x_y 2 2%nat] 2 in
  let c := result_of [line_x_y 2 3%nat] 1 in
  both_return
    (fun h1 r1 h2 r2 =>
       same_spans h1 r1 h2 r2 /\ lines_sorted r1 /\ lines_sorted r2)
    (combine_with a b store_x_y) (combine_with b a store_x_y)
  /\ both_return
       (fun h1 r1 h2 r2 =>
          same_spans h1 r1 h2 r2 /\ lines_sorted r1 /\ lines_sorted r2)
       (combine_left a b c store_x_y) (combine_right a b c store_x_y).
Proof.
  intros a b c.
  apply (proj2 (proj2 (combine_with_comm_assoc a b c store_x_y)));
    unfold apart, lines_apart; simpl;
    (split_and!; [compute_done..|]);
    intros r; rewrite !elem_of_cons, !elem_of_nil; lia.
Defined.

(** C5 as the specification states it fails when one result lists a
    line twice: of the line matches of [a] for line 1,
    [a.combine_with(b)] keeps the last one only, while
    [b.combine_with(a)] keeps the spans of both. *)
Lemma combine_with_not_comm_on_repeated_line :
  let a := result_of [line_x_y 1 0%nat; line_x_y 1 1%nat] 2 in
  let b := result_of [] 0 in
  ~ both_return same_spans
      (combine_with a b store_x_y) (combine_with b a store_x_y).
Proof.
  intros a b. vm_compute. intros [_ Hlines].
  specialize (Hlines 1). vm_compute in Hlines.
  by apply Permutation_length in Hlines.
Qed.

(** ** Summaries of postings *)

Lemma title_spans_of_app (ps1 ps2 : list Posting) :
  title_spans_of (ps1 ++ ps2) = title_spans_of ps1 ++ title_spans_of ps2.
Proof. unfold title_spans_of. by rewrite filter_app, fmap_app. Qed.

Lemma line_spans_of_app (ps1 ps2 : list Posting) (ln : Z) :
  line_spans_of (ps1 ++ ps2) ln = line_spans_of ps1 ln ++ line_spans_of ps2 ln.
Proof. unfold line_spans_of. by rewrite filter_app, fmap_app. Qed.

Lemma summary_frame (h h' : store) (sonnet : Sonnet) (ps : list Posting)
    (r : SearchResult) :
  (forall x, x ∈ refs (sr_line_matches r) -> deref h' x = deref h x) ->
  (length h <= length h')%nat ->
  summary h sonnet ps r -> summary h' sonnet ps r.
Proof.
  intros Hsame Hlen (Ht & Hm & Hts & Hsp & Htx & Htot & Hl & Hr & Hv).
  split_and!; try done.
  - intros ln. by rewrite (spans_at_frame h).
  - by rewrite (span_total_frame h).
  - split_and!; [done..|].
    eapply Forall_impl; [exact Hv|]. simpl. lia.
Qed.

Lemma summary_combine (h : store) (sonnet : Sonnet) (ps1 ps2 : list Posting)
    (a b : SearchResult) :
  summary h sonnet ps1 a -> summary h sonnet ps2 b ->
  (forall x, x ∈ refs (sr_line_matches a) -> x ∉ refs (sr_line_matches b)) ->
  exists h',
    combine_with a b h = Returns (combined a b) h'
    /\ length h' = length h
    /\ (forall x, x ∉ refs (sr_line_matches a) -> deref h' x = deref h x)
    /\ (forall x, x ∈ refs (sr_line_matches (combined a b)) ->
                  x ∈ refs (sr_line_matches a)
                  \/ x ∈ refs (sr_line_matches b))
    /\ summary h' sonnet (ps1 ++ ps2) (combined a b).
Proof.
  intros (Hta & Hma & Htsa & Hspa & Htxa & Htota & Hla)
         (Htb & Hmb & Htsb & Hspb & Htxb & Htotb & Hlb) Hdisj.
  destruct (combine_with_apart a b h)
    as (h' & Hrun & Hlen & Hframe & Hap & Hrefs & Hsp & Htot & Htx & _);
    [done|].
  exists h'. split_and!; [done.. |].
  unfold summary. rewrite title_spans_of_app, !length_app.
  split_and!; [done | simpl; lia | | | | lia | done].
  - simpl. by rewrite sorted_perm, Htsa, Htsb.
  - intros ln. by rewrite Hsp, Hspa, Hspb, line_spans_of_app.
  - intros ln. rewrite Htx, Htxa, Htxb, line_spans_of_app.
    destruct (line_spans_of ps1 ln) as [|x l1];
      destruct (line_spans_of ps2 ln) as [|y l2]; simpl;
      repeat case_decide; try done;
      by destruct (index_list (sonnet_lines sonnet) (ln - 1)).
Qed.

Lemma deref_alloc_old (h : store) (v : list span) (x : ref) :
  (x < length h)%nat -> deref (h ++ [v]) x = deref h x.
Proof. intros Hx. unfold deref. by rewrite lookup_app_l. Qed.

Lemma deref_alloc_new (h : store) (v : list span) :
  deref (h ++ [v]) (length h) = v.
Proof. unfold deref. by rewrite list_lookup_middle. Qed.

Lemma line_spans_of_single (p : Posting) (ln : Z) :
  line_spans_of [p] ln
  = if decide (posting_line_no p = Some ln) then [posting_span p] else [].
Proof.
  unfold line_spans_of. rewrite filter_cons, filter_nil. by case_decide.
Qed.

Lemma title_spans_of_single (p : Posting) :
  title_spans_of [p]
  = if decide (posting_line_no p = None) then [posting_span p] else [].
Proof.
  unfold title_spans_of. rewrite filter_cons, filter_nil. by case_decide.
Qed.

Lemma spans_at_single (h : store) (lm : LineMatch) (ln : Z) :
  spans_at h [lm] ln
  = if decide (lm_line_no lm = ln) then deref h (lm_spans lm) else [].
Proof.
  rewrite spans_at_cons. unfold spans_at. rewrite filter_nil. simpl.
  by rewrite app_nil_r.
Qed.

Lemma text_at_single (lm : LineMatch) (ln : Z) :
  text_at [lm] ln = if decide (lm_line_no lm = ln) then Some (lm_text lm)
                    else None.
Proof.
  unfold text_at. rewrite filter_cons, filter_nil. by case_decide.
Qed.

(** The result built for one posting is the summary of that posting. *)
Lemma posting_result_spec (h : store) (sonnet : Sonnet) (p : Posting) :
  match posting_result sonnet p h with
  | Returns sr h' =>
      summary h' sonnet [p] sr
      /\ (length h <= length h')%nat
      /\ (forall x, (x < length h)%nat -> deref h' x = deref h x)
      /\ (forall x, x ∈ refs (sr_line_matches sr) -> (length h <= x)%nat)
  | Raises e =>
      e = IndexError
      /\ exists ln, posting_line_no p = Some ln
           /\ index_list (sonnet_lines sonnet) (ln - 1) = None
  end.
Proof.
  unfold posting_result.
  destruct (posting_line_no p) as [ln|] eqn:Eln.
  - unfold bind.
    destruct (index_list (sonnet_lines sonnet) (ln - 1)) as [text|] eqn:Etx;
      simpl; [| split; [done | by exists ln]].
    split_and!.
    + unfold summary. rewrite title_spans_of_single, Eln.
      rewrite decide_False by done. simpl.
      split_and!; try done.
      * intros l. rewrite spans_at_single, line_spans_of_single, Eln. simpl.
        rewrite deref_alloc_new. repeat case_decide; congruence.
      * intros l. rewrite text_at_single, line_spans_of_single, Eln. simpl.
        repeat case_decide; congruence.
      * rewrite deref_alloc_new. simpl. lia.
      * unfold lines_apart. simpl. split_and!.
        -- apply NoDup_singleton.
        -- apply NoDup_singleton.
        -- constructor; [| constructor]. rewrite length_app. simpl. lia.
    + rewrite length_app. lia.
    + intros x Hx. by apply deref_alloc_old.
    + simpl. intros x ->%list_elem_of_singleton. done.
  - simpl. split_and!; [| done | done | intros x Hx; by inversion Hx].
    unfold summary. rewrite title_spans_of_single, Eln.
    rewrite decide_True by done. simpl.
    split_and!; try done.
    + intros l. rewrite line_spans_of_single, Eln.
      rewrite decide_False by done. reflexivity.
    + intros l. rewrite line_spans_of_single, Eln.
      destruct (decide (None = Some l)); [done|].
      by rewrite decide_True by done.
    + unfold lines_apart. simpl. split_and!; constructor.
Qed.

(** ** The loops of [Index.search_for] *)

Lemma postings_for_snoc (id doc_id : Z) (seen : list (Z * list Posting))
    (ps : list Posting) :
  postings_for id (seen ++ [(doc_id, ps)])
  = postings_for id seen ++ (if decide (doc_id = id) then ps else []).
Proof.
  unfold postings_for. rewrite filter_app, fmap_app, concat_app.
  rewrite filter_cons, filter_nil. simpl.
  case_decide; simpl; by rewrite ?app_nil_r.
Qed.

Lemma postings_for_snoc_nil (id doc_id : Z) (seen : list (Z * list Posting)) :
  postings_for id (seen ++ [(doc_id, [])]) = postings_for id seen.
Proof. rewrite postings_for_snoc. case_decide; by rewrite app_nil_r. Qed.

Lemma postings_for_snoc_snoc (id doc_id : Z) (seen : list (Z * list Posting))
    (ps : list Posting) (p : Posting) :
  postings_for id (seen ++ [(doc_id, ps ++ [p])])
  = postings_for id (seen ++ [(doc_id, ps)])
      ++ (if decide (doc_id = id) then [p] else []).
Proof.
  rewrite !postings_for_snoc. case_decide; by rewrite ?app_nil_r, ?app_assoc.
Qed.

Lemma results_ok_entry (h : store) (sonnets : dict Z Sonnet)
    (results : dict Z SearchResult) (seen : list (Z * list Posting))
    (id : Z) (r : SearchResult) :
  results_ok h sonnets results seen -> dict_get id results = Some r ->
  postings_for id seen <> []
  /\ exists sonnet, dict_get id sonnets = Some sonnet
       /\ summary h sonnet (postings_for id seen) r.
Proof. intros (_ & Hent & _) Hget. specialize (Hent id). by rewrite Hget in Hent. Qed.

Lemma results_ok_valid (h : store) (sonnets : dict Z Sonnet)
    (results : dict Z SearchResult) (seen : list (Z * list Posting))
    (id : Z) (r : SearchResult) (x : ref) :
  results_ok h sonnets results seen -> dict_get id results = Some r ->
  x ∈ refs (sr_line_matches r) -> (x < length h)%nat.
Proof.
  intros Hok Hget Hx.
  destruct (results_ok_entry _ _ _ _ _ _ Hok Hget)
    as (_ & sonnet & _ & Hsum).
  destruct Hsum as (_ & _ & _ & _ & _ & _ & _ & _ & Hv).
  rewrite Forall_forall in Hv. by apply Hv.
Qed.

(** One round of the loop over the postings of a document. *)
Lemma add_posting_ok (h : store) (sonnets : dict Z Sonnet)
    (results : dict Z SearchResult) (seen : list (Z * list Posting))
    (doc_id : Z) (sonnet : Sonnet) (ps : list Posting) (p : Posting) :
  results_ok h sonnets results (seen ++ [(doc_id, ps)]) ->
  dict_get doc_id sonnets = Some sonnet ->
  match (let* sr := posting_result sonnet p in
         add_result doc_id results sr) h with
  | Returns results' h' =>
      results_ok h' sonnets results' (seen ++ [(doc_id, ps ++ [p])])
      /\ (length h <= length h')%nat
  | Raises e =>
      e = IndexError
      /\ exists ln, posting_line_no p = Some ln
           /\ index_list (sonnet_lines sonnet) (ln - 1) = None
  end.
Proof.
  intros Hok Hsonnet. unfold bind.
  pose proof (posting_result_spec h sonnet p) as Hsr.
  destruct (posting_result sonnet p h) as [sr h1|e]; [| done].
  destruct Hsr as (Hsum1 & Hlen1 & Hold1 & Hfresh).
  assert (Hkeep : forall id r, dict_get id results = Some r ->
            forall x, x ∈ refs (sr_line_matches r) ->
                      (x < length h)%nat /\ deref h1 x = deref h x).
  { intros id r Hget x Hx.
    pose proof (results_ok_valid _ _ _ _ _ _ _ Hok Hget Hx). auto. }
  assert (Hnew : forall id r, dict_get id results = Some r ->
            forall x, x ∈ refs (sr_line_matches r) ->
                      x ∉ refs (sr_line_matches sr)).
  { intros id r Hget x Hx Hx'. apply Hfresh in Hx'.
    destruct (Hkeep id r Hget x Hx). lia. }
  unfold add_result.
  destruct (dict_get doc_id results) as [r|] eqn:Eget.
  - (* the document has a result already *)
    destruct (results_ok_entry _ _ _ _ _ _ Hok Eget)
      as (Hne & sonnet' & Hsonnet' & Hsum).
    assert (sonnet' = sonnet) as -> by congruence.
    assert (Hsum' : summary h1 sonnet
                      (postings_for doc_id (seen ++ [(doc_id, ps)])) r).
    { apply (summary_frame h); [| done | done].
      intros x Hx. by apply (Hkeep doc_id r). }
    destruct (summary_combine h1 sonnet _ [p] r sr Hsum' Hsum1)
      as (h2 & Hrun & Hlen2 & Hframe2 & Hrefs2 & Hsum2).
    { by apply (Hnew doc_id). }
    unfold bind. rewrite Hrun. simpl. split; [| lia].
    destruct Hok as (Hkeys & Hent & Hdisj). split_and!.
    + by apply dict_set_NoDup.
    + intros id. rewrite dict_get_set, postings_for_snoc_snoc.
      destruct (decide (id = doc_id)) as [->|Hid].
      * rewrite decide_True by done. split; [by destruct (postings_for _ _)|].
        by exists sonnet.
      * rewrite decide_False by done. rewrite app_nil_r.
        specialize (Hent id).
        destruct (dict_get id results) as [r'|] eqn:Eget'; [| done].
        destruct Hent as (Hne' & s' & Hs' & Hsum'').
        split; [done|]. exists s'. split; [done|].
        apply (summary_frame h); [| lia | done].
        intros x Hx. rewrite Hframe2.
        -- by apply (Hkeep id r').
        -- intros Hx'. by apply (Hdisj id doc_id r' r Hid Eget' Eget x).
    + intros id1 id2 r1 r2 Hid. rewrite !dict_get_set.
      destruct (decide (id1 = doc_id)) as [->|H1];
        destruct (decide (id2 = doc_id)) as [->|H2]; try done.
      * intros [= <-] Hget2 x [Hx | Hx]%Hrefs2.
        -- by apply (Hdisj doc_id id2 r r2).
        -- intros Hx'. by apply (Hnew id2 r2 Hget2 x).
      * intros Hget1 [= <-] x Hx [Hx' | Hx']%Hrefs2.
        -- by apply (Hdisj id1 doc_id r1 r H1 Hget1 Eget x).
        -- by apply (Hnew id1 r1 Hget1 x).
      * by apply Hdisj.
  - (* the first result of the document *)
    simpl. split; [| done].
    destruct Hok as (Hkeys & Hent & Hdisj). split_and!.
    + by apply dict_set_NoDup.
    + intros id. rewrite dict_get_set, postings_for_snoc_snoc.
      destruct (decide (id = doc_id)) as [->|Hid].
      * rewrite decide_True by done.
        specialize (Hent doc_id). rewrite Eget in Hent. rewrite Hent.
        split; [done|]. by exists sonnet.
      * rewrite decide_False by done. rewrite app_nil_r.
        specialize (Hent id).
        destruct (dict_get id results) as [r'|] eqn:Eget'; [| done].
        destruct Hent as (Hne' & s' & Hs' & Hsum'').
        split; [done|]. exists s'. split; [done|].
        apply (summary_frame h); [| lia | done].
        intros x Hx. by apply (Hkeep id r').
    + intros id1 id2 r1 r2 Hid. rewrite !dict_get_set.
      destruct (decide (id1 = doc_id)) as [->|H1];
        destruct (decide (id2 = doc_id)) as [->|H2]; try done.
      * intros [= <-] Hget2 x Hx Hx'. by apply (Hnew id2 r2 Hget2 x).
      * intros Hget1 [= <-] x Hx. by apply (Hnew id1 r1 Hget1 x).
      * by apply Hdisj.
Qed.

Lemma postings_loop_ok (sonnets : dict Z Sonnet)
    (seen : list (Z * list Posting)) (doc_id : Z) (sonnet : Sonnet)
    (todo : list Posting) :
  forall (ps : list Posting) (results : dict Z SearchResult) (h : store),
    results_ok h sonnets results (seen ++ [(doc_id, ps)]) ->
    dict_get doc_id sonnets = Some sonnet ->
    match for_each todo
            (fun results posting =>
               let* sr := posting_result sonnet posting in
               add_result doc_id results sr)
            results h with
    | Returns results' h' =>
        results_ok h' sonnets results' (seen ++ [(doc_id, ps ++ todo)])
        /\ (length h <= length h')%nat
    | Raises e => e = IndexError
    end.
Proof.
  induction todo as [|p todo IH]; intros ps results h Hok Hsonnet.
  { simpl. by rewrite app_nil_r. }
  rewrite for_each_cons.
  pose proof (add_posting_ok h sonnets results seen doc_id sonnet ps p
                Hok Hsonnet) as Hstep.
  destruct ((let* sr := posting_result sonnet p in
             add_result doc_id results sr) h) as [results1 h1|e];
    [| by destruct Hstep].
  destruct Hstep as [Hok1 Hlen1].
  specialize (IH (ps ++ [p]) results1 h1 Hok1 Hsonnet).
  destruct (for_each todo _ results1 h1) as [results' h'|e]; [| done].
  rewrite <- app_assoc in IH. simpl in IH.
  destruct IH as [Hok' Hlen']. split; [done | lia].
Qed.

Section lookup.
Context `{Stemmer}.

Lemma docs_loop_ok (self : Index) (todo : list (Z * list Posting)) :
  forall (seen : list (Z * list Posting)) (results : dict Z SearchResult)
         (h : store),
    results_ok h (index_sonnets self) results seen ->
    match for_each todo
            (fun results '(doc_id, postings) =>
               let* sonnet :=
                 get_or_raise KeyError
                   (dict_get doc_id (index_sonnets self)) in
               for_each postings
                 (fun results posting =>
                    let* sr := posting_result sonnet posting in
                    add_result doc_id results sr)
                 results)
            results h with
    | Returns results' h' =>
        results_ok h' (index_sonnets self) results' (seen ++ todo)
        /\ (length h <= length h')%nat
    | Raises e => True
    end.
Proof.
  induction todo as [|[doc_id ps] todo IH]; intros seen results h Hok.
  { simpl. by rewrite app_nil_r. }
  rewrite for_each_cons. unfold bind at 1.
  destruct (dict_get doc_id (index_sonnets self)) as [sonnet|] eqn:Es;
    simpl; [| done].
  assert (Hok0 : results_ok h (index_sonnets self) results
                   (seen ++ [(doc_id, [])])).
  { destruct Hok as (Hk & Hent & Hdisj). split_and!; [done | | done].
    intros id. rewrite postings_for_snoc_nil. apply Hent. }
  pose proof (postings_loop_ok (index_sonnets self) seen doc_id sonnet ps []
                results h Hok0 Es) as Hloop.
  destruct (for_each ps _ results h) as [results1 h1|e]; [| done].
  simpl in Hloop. destruct Hloop as [Hok1 Hlen1].
  specialize (IH (seen ++ [(doc_id, ps)]) results1 h1 Hok1).
  destruct (for_each todo _ results1 h1) as [results' h'|e]; [| done].
  rewrite <- app_assoc in IH. simpl in IH.
  destruct IH as [Hok' Hlen']. split; [done | lia].
Qed.

Lemma results_ok_nil (h : store) (sonnets : dict Z Sonnet) :
  results_ok h sonnets [] [].
Proof. split_and!; [constructor | done | done]. Qed.

(** The mapping returned by [Index.search_for] stands for the postings
    list of the token. *)
Lemma Index_search_for_ok (self : Index) (token : string) (h : store) :
  match Index_search_for self token h with
  | Returns results h' =>
      results_ok h' (index_sonnets self) results
        (lookup_postings self token)
      /\ (length h <= length h')%nat
  | Raises e => True
  end.
Proof.
  unfold Index_search_for, lookup_postings.
  case_decide; [split; [apply results_ok_nil | done]|].
  destruct (dict_get (normalized_stem_token token) (index_dictionary self))
    as [pl|]; [| split; [apply results_ok_nil | done]].
  apply (docs_loop_ok self pl [] [] h), results_ok_nil.
Qed.
End lookup.

(** ** [Sonnet.search_for] *)

Lemma line_numbers_as_lines (sonnet : Sonnet) (d : dict Z ref) :
  line_numbers (as_lines sonnet d) = dict_keys d.
Proof.
  unfold line_numbers, as_lines, dict_keys. rewrite <- list_fmap_compose.
  by apply list_fmap_ext.
Qed.

Lemma refs_as_lines (sonnet : Sonnet) (d : dict Z ref) :
  refs (as_lines sonnet d) = dict_values d.
Proof.
  unfold refs, as_lines, dict_values. rewrite <- list_fmap_compose.
  by apply list_fmap_ext.
Qed.

Lemma as_lines_elem (sonnet : Sonnet) (d : dict Z ref) (ln : Z) (r : ref) :
  dict_get ln d = Some r ->
  {| lm_line_no := ln; lm_text := line_text sonnet ln; lm_spans := r |}
    ∈ as_lines sonnet d.
Proof.
  intros Hget%dict_get_Some_elem.
  apply list_elem_of_fmap. by exists (ln, r).
Qed.

Lemma collect_posting_ok (h : store) (sonnet : Sonnet) (ps : list Posting)
    (state : list span * dict Z ref) (p : Posting) :
  collected h sonnet ps state ->
  exists state' h',
    collect_posting state p h = Returns state' h'
    /\ collected h' sonnet (ps ++ [p]) state'.
Proof.
  destruct state as [ts d]. intros (Hts & Hap & Hsp & Htot & Hkeys).
  simpl in *. unfold collect_posting.
  destruct (posting_line_no p) as [ln|] eqn:Eln.
  - destruct (dict_get ln d) as [r|] eqn:Eget.
    + (* the line has a list already *)
      pose proof (as_lines_elem sonnet d ln r Eget) as Hin.
      unfold bind, extend, ret. eexists _, _. split; [done|].
      unfold collected. simpl.
      rewrite title_spans_of_app, title_spans_of_single, Eln, length_app.
      rewrite decide_False by done. rewrite app_nil_r. simpl.
      split_and!; [done | | | | ].
      * apply (lines_apart_length h); [apply length_insert | done].
      * intros l.
        pose proof (spans_at_extend h _ _ [posting_span p] l Hin Hap) as Hx.
        simpl in Hx. rewrite Hx.
        rewrite line_spans_of_app, line_spans_of_single, Eln, Hsp. simpl.
        repeat case_decide; congruence.
      * pose proof (span_total_extend h _ _ [posting_span p] Hin Hap) as Hx.
        simpl in Hx. rewrite Hx. simpl. lia.
      * intros l. rewrite Hkeys, line_spans_of_app.
        split; [intros ?; by destruct (line_spans_of ps l)|].
        intros Hne Hnil. rewrite Hnil in Hne. simpl in Hne.
        rewrite line_spans_of_single, Eln in Hne. case_decide as E; [| done].
        injection E as <-.
        assert (Hk : ln ∈ dict_keys d).
        { apply dict_get_Some_elem in Eget.
          by apply (list_elem_of_fmap_2 fst _ (ln, r)). }
        by apply Hkeys in Hk.
    + (* a new list for the line *)
      unfold bind, new_list, extend, ret. eexists _, _. split; [done|].
      unfold collected. simpl.
      apply dict_get_None in Eget.
      assert (Hlnil : line_spans_of ps ln = []).
      { destruct (decide (line_spans_of ps ln = [])) as [|Hne]; [done|].
        by apply Hkeys in Hne. }
      rewrite deref_alloc_new. simpl.
      set (h2 := <[length h := [posting_span p]]> (h ++ [[]])).
      assert (Hlen2 : length h2 = S (length h)).
      { unfold h2. rewrite length_insert, length_app. simpl. lia. }
      assert (Hold : forall x, (x < length h)%nat -> deref h2 x = deref h x).
      { intros x Hx. unfold h2. rewrite deref_extend_other by lia.
        by apply deref_alloc_old. }
      assert (Hnew : deref h2 (length h) = [posting_span p]).
      { unfold h2. apply deref_extend_same. rewrite length_app. simpl. lia. }
      assert (Hframe : forall x, x ∈ refs (as_lines sonnet d) ->
                                 deref h2 x = deref h x).
      { intros x Hx. apply Hold. destruct Hap as (_ & _ & Hv).
        rewrite Forall_forall in Hv. by apply Hv. }
      rewrite dict_set_absent by by apply dict_get_None.
      unfold as_lines. rewrite fmap_app. simpl. fold (as_lines sonnet d).
      rewrite title_spans_of_app, title_spans_of_single, Eln, length_app.
      rewrite decide_False by done. rewrite app_nil_r. simpl.
      split_and!; [done | | | | ].
      * apply lines_apart_snoc; simpl.
        -- destruct Hap as (Hl & Hr & Hv). split_and!; [done..|].
           eapply Forall_impl; [exact Hv|]. simpl. lia.
        -- by rewrite line_numbers_as_lines.
        -- destruct Hap as (_ & _ & Hv). rewrite Forall_forall in Hv.
           intros Hin. apply Hv in Hin. lia.
        -- lia.
      * intros l. rewrite spans_at_app, spans_at_single. simpl.
        rewrite (spans_at_frame h h2) by done.
        rewrite line_spans_of_app, line_spans_of_single, Eln, Hsp, Hnew.
        repeat case_decide; congruence.
      * rewrite span_total_app, (span_total_frame h h2) by done.
        simpl. rewrite Hnew. simpl. lia.
      * intros l. unfold dict_keys. rewrite fmap_app, elem_of_app. simpl.
        rewrite list_elem_of_singleton, line_spans_of_app.
        rewrite line_spans_of_single, Eln.
        fold (dict_keys d). rewrite Hkeys.
        split.
        -- intros [Hne | ->]; [by destruct (line_spans_of ps l)|].
           rewrite decide_True by done. by destruct (line_spans_of ps ln).
        -- intros Hne. destruct (decide (l = ln)) as [|Hl]; [by right|].
           left. intros Hnil. rewrite Hnil in Hne. simpl in Hne.
           rewrite decide_False in Hne by congruence. done.
  - unfold ret. eexists _, _. split; [done|].
    unfold collected. simpl.
    rewrite title_spans_of_app, title_spans_of_single, Eln, length_app.
    rewrite decide_True by done. simpl.
    split_and!; [by rewrite Hts | done | | rewrite length_app; simpl; lia | ].
    + intros l. rewrite Hsp, line_spans_of_app, line_spans_of_single, Eln.
      rewrite decide_False by done. by rewrite app_nil_r.
    + intros l. rewrite Hkeys, line_spans_of_app, line_spans_of_single, Eln.
      rewrite decide_False by done. by rewrite app_nil_r.
Qed.

Lemma collect_postings_ok (sonnet : Sonnet) (todo : list Posting) :
  forall (ps : list Posting) (state : list span * dict Z ref) (h : store),
    collected h sonnet ps state ->
    exists state' h',
      for_each todo collect_posting state h = Returns state' h'
      /\ collected h' sonnet (ps ++ todo) state'.
Proof.
  induction todo as [|p todo IH]; intros ps state h Hc.
  { exists state, h. by rewrite app_nil_r. }
  rewrite for_each_cons.
  destruct (collect_posting_ok h sonnet ps state p Hc)
    as (state1 & h1 & -> & Hc1).
  destruct (IH (ps ++ [p]) state1 h1 Hc1) as (state' & h' & Hrun & Hc').
  exists state', h'. rewrite <- app_assoc in Hc'. done.
Qed.

(** The loop that builds the line matches, with the text of each line. *)
Lemma line_matches_loop (sonnet : Sonnet) (l : list (Z * ref)) :
  forall (acc : list LineMatch) (h : store),
    match for_each l
            (fun acc '(ln, spans) =>
               let* text :=
                 get_or_raise IndexError
                   (index_list (sonnet_lines sonnet) (ln - 1)) in
               ret (acc ++ [{| lm_line_no := ln; lm_text := text;
                               lm_spans := spans |}]))
            acc h with
    | Returns lms h' =>
        h' = h /\ lms = acc ++ as_lines sonnet l
        /\ Forall (fun e : Z * ref =>
                     is_Some (index_list (sonnet_lines sonnet) (e.1 - 1))) l
    | Raises e =>
        e = IndexError
        /\ Exists (fun e : Z * ref =>
                     index_list (sonnet_lines sonnet) (e.1 - 1) = None) l
    end.
Proof.
  induction l as [|[ln r] l IH]; intros acc h.
  { simpl. by rewrite app_nil_r. }
  rewrite for_each_cons. unfold bind at 1.
  destruct (index_list (sonnet_lines sonnet) (ln - 1)) as [text|] eqn:Etx;
    simpl; [| split; [done | by left]].
  specialize (IH (acc ++ [{| lm_line_no := ln; lm_text := text;
                             lm_spans := r |}]) h).
  destruct (for_each l _ _ h) as [lms h'|e].
  - destruct IH as (-> & -> & Hall). split_and!; [done | |].
    + rewrite <- app_assoc. simpl. unfold line_text. by rewrite Etx.
    + constructor; [simpl; by rewrite Etx | done].
  - destruct IH as [-> Hex]. split; [done | by right].
Qed.

(** The loop that counts the spans of the line matches. *)
Lemma total_loop (lms : list LineMatch) :
  forall (acc : Z) (h : store),
    for_each lms
      (fun acc lm =>
         let* spans := read (lm_spans lm) in
         ret (acc + Z.of_nat (length spans)))
      acc h
    = Returns (acc + span_total h lms) h.
Proof.
  induction lms as [|lm lms IH]; intros acc h; simpl.
  - unfold ret. f_equal. lia.
  - unfold bind, read, ret. rewrite IH. f_equal.
    fold (span_total h lms). lia.
Qed.

Lemma text_at_as_lines (sonnet : Sonnet) (d : dict Z ref) (ln : Z) :
  text_at (as_lines sonnet d) ln
  = if decide (ln ∈ dict_keys d) then Some (line_text sonnet ln) else None.
Proof.
  case_decide as E.
  - unfold text_at.
    destruct (filter (fun lm => lm_line_no lm = ln) (as_lines sonnet d))
      as [|y l] eqn:Ef.
    + exfalso. apply list_elem_of_fmap in E as ([k r] & -> & Hin).
      assert (Hy : {| lm_line_no := k; lm_text := line_text sonnet k;
                      lm_spans := r |}
                   ∈ filter (fun lm => lm_line_no lm = k) (as_lines sonnet d)).
      { apply list_elem_of_filter. split; [done|].
        apply list_elem_of_fmap. by exists (k, r). }
      simpl in Ef. rewrite Ef in Hy. by inversion Hy.
    + assert (Hy : y ∈ filter (fun lm => lm_line_no lm = ln)
                         (as_lines sonnet d)) by (rewrite Ef; by left).
      apply list_elem_of_filter in Hy as [Ey Hy].
      apply list_elem_of_fmap in Hy as ([k r] & -> & _).
      simpl in *. by subst.
  - apply text_at_absent. by rewrite line_numbers_as_lines.
Qed.

Lemma collected_nil (h : store) (sonnet : Sonnet) :
  collected h sonnet [] ([], []).
Proof.
  unfold collected. simpl. split_and!; try done.
  - split_and!; constructor.
  - intros ln. split; [by intros ?%elem_of_nil | done].
Qed.

Lemma summary_nil (h : store) (sonnet : Sonnet) :
  summary h sonnet []
    {| sr_title := sonnet_title sonnet; sr_title_spans := [];
       sr_line_matches := []; sr_matches := 0 |}.
Proof.
  unfold summary. simpl. split_and!; try done.
  split_and!; constructor.
Qed.

Section per_document.
Context `{Stemmer}.

(** [Sonnet.search_for] returns the summary of the postings of the
    document, unless the text of a line with postings is missing. *)
Lemma Sonnet_search_for_spec (self : Sonnet) (query : string)
    (index : Index) (h : store) :
  match Sonnet_search_for self query index h with
  | Returns r h' => summary h' self (own_postings self query index) r
  | Raises e =>
      e = IndexError
      /\ exists ln, line_spans_of (own_postings self query index) ln <> []
           /\ index_list (sonnet_lines self) (ln - 1) = None
  end.
Proof.
  unfold Sonnet_search_for, own_postings.
  destruct (dict_get (normalized_stem_token query) (index_dictionary index))
    as [by_doc|]; [| apply summary_nil].
  set (ps := default [] (dict_get (sonnet_id self) by_doc)).
  destruct (collect_postings_ok self ps [] ([], []) h (collected_nil h self))
    as ([ts d] & h1 & Hrun & Hts & Hap & Hsp & Htot & Hkeys).
  simpl in *. unfold bind at 1. rewrite Hrun.
  set (sd := sorted (fun a b : Z * ref => a.1 <=? b.1) d).
  assert (Hperm : as_lines self sd ≡ₚ as_lines self d).
  { unfold as_lines, sd. by rewrite sorted_perm. }
  assert (Hkperm : dict_keys sd ≡ₚ dict_keys d).
  { unfold dict_keys, sd. by rewrite sorted_perm. }
  unfold bind at 1.
  pose proof (line_matches_loop self sd [] h1) as Hloop.
  destruct (for_each sd _ [] h1) as [lms h2|e].
  - destruct Hloop as (-> & -> & Hall). simpl.
    unfold bind. rewrite total_loop. unfold ret.
    assert (Hap' : lines_apart h1 (as_lines self sd))
      by (by apply (lines_apart_perm h1 (as_lines self d))).
    unfold summary. simpl. split_and!; [done | | by rewrite Hts | | | | done].
    + rewrite (span_total_perm h1 _ _ Hperm), Htot, Hts. lia.
    + intros ln. rewrite <- Hsp. apply spans_at_perm; [done | apply Hap'].
    + intros ln. rewrite text_at_as_lines.
      destruct (decide (ln ∈ dict_keys sd)) as [Hin|Hnot].
      * rewrite decide_False by (apply Hkeys; by rewrite <- Hkperm).
        rewrite Forall_forall in Hall.
        apply list_elem_of_fmap in Hin as ([k r] & -> & Hin).
        destruct (Hall _ Hin) as [t Ht]. simpl in *.
        unfold line_text. by rewrite Ht.
      * rewrite decide_True; [done|].
        destruct (decide (line_spans_of ps ln = [])) as [|Hne]; [done|].
        apply Hkeys in Hne. by rewrite <- Hkperm in Hne.
    + rewrite (span_total_perm h1 _ _ Hperm), Htot. lia.
  - destruct Hloop as [-> Hex]. split; [done|].
    apply Exists_exists in Hex as ([ln r] & Hin & Hnone). simpl in Hnone.
    exists ln. split; [| done]. apply Hkeys. rewrite <- Hkperm.
    by apply (list_elem_of_fmap_2 fst _ (ln, r)).
Qed.
End per_document.

(** ** The invariant of the match count *)

Lemma summary_count (h : store) (sonnet : Sonnet) (ps : list Posting)
    (r : SearchResult) :
  summary h sonnet ps r -> count_invariant h r.
Proof.
  intros (_ & Hm & Hts & _ & _ & Htot & _). unfold count_invariant.
  rewrite Hm, Htot. apply Permutation_length in Hts. lia.
Qed.

Lemma apart_own_lists (h : store) (a b : SearchResult) :
  apart h a b -> own_lists h a b.
Proof.
  intros ((Hla & Hra & Hva) & (_ & Hrb & Hvb) & Hdisj).
  split_and!; [done | | by apply Forall_app].
  apply NoDup_app. by split_and!.
Qed.

(** The loop of [combine_with] when the second result may list a line
    more than once: every span of the second result is added once. *)
Lemma merge_lines_count (bl : list LineMatch) :
  forall (lms : list LineMatch) (h : store),
    NoDup (line_numbers lms) ->
    NoDup (refs lms ++ refs bl) ->
    Forall (fun r => (r < length h)%nat) (refs lms ++ refs bl) ->
    exists lms' h',
      for_each bl merge_line (keyed lms) h = Returns (keyed lms') h'
      /\ span_total h' lms' = span_total h lms + span_total h bl.
Proof.
  induction bl as [|lm bl IH]; intros lms h Hnum Hrefs Hvalid.
  { exists lms, h. split; [done | simpl; lia]. }
  assert (Hrefs' : NoDup (refs lms ++ refs bl)).
  { unfold refs in Hrefs |- *. rewrite fmap_cons in Hrefs.
    apply NoDup_app in Hrefs as (Hl & Hd & [_ Hb]%NoDup_cons).
    apply NoDup_app. split_and!; [done | | done].
    intros r Hr Hr'. apply (Hd r Hr). by right. }
  assert (Hvalid' : Forall (fun r => (r < length h)%nat)
                      (refs lms ++ refs bl)).
  { unfold refs in Hvalid |- *. rewrite fmap_cons in Hvalid.
    apply Forall_app in Hvalid as [Hl [_ Hb]%Forall_cons].
    by apply Forall_app. }
  assert (Hlm : (lm_spans lm ∉ refs lms) /\ (lm_spans lm ∉ refs bl)
                /\ (lm_spans lm < length h)%nat).
  { unfold refs in Hrefs, Hvalid |- *. rewrite fmap_cons in Hrefs, Hvalid.
    apply NoDup_app in Hrefs as (_ & Hd & [Hb _]%NoDup_cons).
    apply Forall_app in Hvalid as [_ [Hv _]%Forall_cons].
    split_and!; [| done | done].
    intros Hin. apply (Hd _ Hin). by left. }
  destruct Hlm as (Hlm_l & Hlm_b & Hlm_v).
  assert (Hap : lines_apart h lms).
  { apply NoDup_app in Hrefs' as (Hl & _ & _).
    apply Forall_app in Hvalid' as [Hv _]. by split_and!. }
  rewrite for_each_cons. unfold merge_line at 1.
  destruct (dict_get (lm_line_no lm) (keyed lms)) as [mine|] eqn:Eget.
  - apply dict_get_keyed_Some in Eget as [Hmine Eln].
    unfold bind, read, extend, ret.
    set (h1 := <[lm_spans mine := deref h (lm_spans mine)
                                  ++ deref h (lm_spans lm)]> h).
    assert (Hlen1 : length h1 = length h) by apply length_insert.
    assert (Hbl1 : forall r, r ∈ refs bl -> deref h1 r = deref h r).
    { intros r Hr. apply deref_extend_other. intros ->.
      apply NoDup_app in Hrefs' as (_ & Hd & _).
      apply (Hd (lm_spans mine)); [by apply list_elem_of_fmap_2 | done]. }
    destruct (IH lms h1) as (lms' & h' & Hrun & Htotal);
      [done | done | by rewrite Hlen1 |].
    exists lms', h'. split; [done|].
    rewrite Htotal. unfold h1. rewrite span_total_extend by done. fold h1.
    rewrite (span_total_frame h h1 bl) by done. simpl.
    fold (span_total h bl). lia.
  - apply dict_get_keyed_None in Eget.
    unfold ret. rewrite LineMatch_copy_id, keyed_snoc by done.
    destruct (IH (lms ++ [lm]) h) as (lms' & h' & Hrun & Htotal).
    { unfold line_numbers. rewrite fmap_app. simpl.
      apply NoDup_app. split_and!; [done | | apply NoDup_singleton].
      by intros x Hx ->%list_elem_of_singleton. }
    { unfold refs in *. rewrite fmap_app, <- app_assoc. simpl.
      rewrite fmap_cons in Hrefs. done. }
    { unfold refs in *. rewrite fmap_app, <- app_assoc. simpl.
      rewrite fmap_cons in Hvalid. done. }
    exists lms', h'. split; [done|].
    rewrite Htotal, span_total_app. simpl. fold (span_total h bl). lia.
Qed.

Lemma combine_with_count (a b : SearchResult) (h : store) :
  own_lists h a b -> count_invariant h a -> count_invariant h b ->
  exists c h', combine_with a b h = Returns c h' /\ count_invariant h' c.
Proof.
  intros (Hnum & Hrefs & Hvalid) Ha Hb.
  destruct (merge_lines_count (sr_line_matches b) (sr_line_matches a) h)
    as (lms' & h' & Hrun & Htot); [done..|].
  unfold combine_with, bind. rewrite fold_keyed_nil by done.
  rewrite Hrun. unfold ret. eexists _, h'. split; [done|].
  unfold count_invariant in *. simpl.
  rewrite dict_values_keyed.
  rewrite (span_total_perm h' _ _ (sorted_perm line_no_leb lms')), Htot.
  rewrite Ha, Hb.
  pose proof (Permutation_length
                (sorted_perm span_leb
                   (sr_title_spans a ++ sr_title_spans b))) as Hlen.
  rewrite length_app in Hlen. lia.
Qed.

(** C3, as the code has it: the results of the index lookup and of the
    per-document search satisfy
    [matches = |title_spans| + sum of |spans|], and so does, in the store
    after the call, the combination [a.combine_with(b)] of two results
    that satisfy it, when [a] has at most one line match for a line
    number and no two line matches, of one result or of both, have the
    same list of spans.  The second result may list a line more than
    once. *)
Theorem count_invariant_holds `{Stemmer} :
  (forall index token h results h' id r,
     Index_search_for index token h = Returns results h' ->
     (id, r) ∈ results -> count_invariant h' r)
  /\ (forall sonnet query index h r h',
        Sonnet_search_for sonnet query index h = Returns r h' ->
        count_invariant h' r)
  /\ (forall a b h,
        own_lists h a b -> count_invariant h a -> count_invariant h b ->
        exists c h',
          combine_with a b h = Returns c h' /\ count_invariant h' c).
Proof.
  split_and!.
  - intros index token h results h' id r Hrun Hin.
    pose proof (Index_search_for_ok index token h) as Hok.
    rewrite Hrun in Hok. destruct Hok as [Hok _].
    assert (Hget : dict_get id results = Some r)
      by (apply dict_get_elem; [apply Hok | done]).
    destruct (results_ok_entry _ _ _ _ _ _ Hok Hget)
      as (_ & sonnet & _ & Hsum).
    by apply (summary_count _ _ _ _ Hsum).
  - intros sonnet query index h r h' Hrun.
    pose proof (Sonnet_search_for_spec sonnet query index h) as Hspec.
    rewrite Hrun in Hspec. by apply (summary_count _ _ _ _ Hspec).
  - apply combine_with_count.
Qed.

Lemma count_invariant_holds_witness :
  let index := @Index_init identity_stemmer corpus in
  (exists results h' r,
     @Index_search_for identity_stemmer index "thee" [] = Returns results h'
     /\ (1, r) ∈ results /\ count_invariant h' r)
  /\ (exists c h',
        combine_with (result_of [line_x_y 1 0%nat] 1)
          (result_of [line_x_y 1 1%nat; line_x_y 2 2%nat] 2) store_x_y
        = Returns c h'
        /\ count_invariant h' c).
Proof.
  intros index. split.
  - eexists _, _, _. split; [vm_compute; reflexivity|].
    split; [by left|].
    apply (proj1 (@count_invariant_holds identity_stemmer)
             index "thee" [] _ _ 1 _ eq_refl). by left.
  - apply (proj2 (proj2 (@count_invariant_holds identity_stemmer))).
    + unfold own_lists; simpl. split_and!; compute_done.
    + reflexivity.
    + reflexivity.
Defined.

(** C3 as the specification states it fails when a result lists a line
    twice: [a.combine_with(b)] keeps the spans of the last line match of
    the line only, and the count of both. *)
Lemma combine_with_miscounts_repeated_line :
  let a := result_of [line_x_y 1 0%nat; line_x_y 1 1%nat] 2 in
  let b := result_of [] 0 in
  count_invariant store_x_y a /\ count_invariant store_x_y b
  /\ exists c h',
       combine_with a b store_x_y = Returns c h' /\ ~ count_invariant h' c.
Proof.
  intros a b. split_and!; [reflexivity | reflexivity |].
  eexists _, _. split; [vm_compute; reflexivity|].
  unfold count_invariant. simpl. unfold deref. simpl. lia.
Qed.

(** Two line matches of one result with the same list of spans: the
    spans added to the list count twice in the combination. *)
Example combine_with_miscounts_shared_list :
  let a := result_of [line_x_y 1 0%nat; line_x_y 2 0%nat] 2 in
  let b := result_of [line_x_y 1 1%nat] 1 in
  count_invariant store_x_y a /\ count_invariant store_x_y b
  /\ NoDup (line_numbers (sr_line_matches a))
  /\ NoDup (line_numbers (sr_line_matches b))
  /\ (forall r, r ∈ refs (sr_line_matches a) -> r ∉ refs (sr_line_matches b))
  /\ exists c h',
       combine_with a b store_x_y = Returns c h'
       /\ sr_matches c = 3 /\ span_total h' (sr_line_matches c) = 4.
Proof.
  intros a b. split_and!; [reflexivity | reflexivity | compute_done..| |].
  - intros r. simpl. rewrite !elem_of_cons, !elem_of_nil. lia.
  - eexists _, _. split; [vm_compute; reflexivity|]. by split.
Qed.

(** A second result that lists a line twice, with two lists: the count
    of the combination is right. *)
Example combine_with_counts_repeated_other :
  let a := result_of [] 0 in
  let b := result_of [line_x_y 1 0%nat; line_x_y 1 1%nat] 2 in
  exists c h',
    combine_with a b store_x_y = Returns c h'
    /\ sr_line_matches c = [line_x_y 1 0%nat]
    /\ deref h' 0%nat = [(0, 1); (2, 3)]
    /\ count_invariant h' c.
Proof.
  intros a b. eexists _, _. split; [vm_compute; reflexivity|].
  by split_and!.
Qed.

(** The list of spans of a line is shared between a result and the
    combinations made from it: combining the same two results a second
    time adds the spans of the second one once more, and the count and the
    spans differ from then on. *)
Example combine_with_twice :
  let a := result_of [line_x_y 1 0%nat] 1 in
  let b := result_of [line_x_y 1 1%nat] 1 in
  exists c1 h1 c2 h2,
    combine_with a b store_x_y = Returns c1 h1 /\ count_invariant h1 c1
    /\ combine_with a b h1 = Returns c2 h2
    /\ ~ count_invariant h2 c2 /\ ~ count_invariant h2 c1
    /\ ~ count_invariant h2 a.
Proof.
  intros a b. eexists _, _, _, _.
  split; [vm_compute; reflexivity|]. split; [reflexivity|].
  split; [vm_compute; reflexivity|].
  unfold count_invariant. simpl. unfold deref. simpl. lia.
Qed.

(** ** The dictionary of the index *)

Lemma _add_token_ok (dictionary : dict string (dict Z (list Posting)))
    (doc_id : Z) (stem : string) (line_no : option Z) (position : Z)
    (token : string) :
  stem <> "" -> dictionary_ok dictionary ->
  dictionary_ok (_add_token dictionary doc_id stem line_no position token).
Proof.
  intros Hstem [Hempty Hnd]. unfold _add_token. split.
  - rewrite dict_get_set. by rewrite decide_False.
  - intros s by_doc. rewrite dict_get_set. case_decide as E.
    + intros [= <-]. apply dict_set_NoDup.
      destruct (dict_get stem dictionary) as [postings|] eqn:Eg; simpl.
      * by apply (Hnd stem).
      * constructor.
    + apply Hnd.
Qed.

Section index_facts.
Context `{Stemmer}.

Lemma add_tokens_ok (doc_id : Z) (line_no : option Z) (text : string)
    (dictionary : dict string (dict Z (list Posting))) :
  dictionary_ok dictionary ->
  dictionary_ok (add_tokens doc_id line_no text dictionary).
Proof.
  unfold add_tokens. generalize (tokenize text). intros l. revert dictionary.
  induction l as [|[token pos] l IH]; intros dictionary Hok; simpl; [done|].
  apply IH. case_decide; [done|]. by apply _add_token_ok.
Qed.

Lemma add_sonnet_ok (dictionary : dict string (dict Z (list Posting)))
    (sonnet : Sonnet) :
  dictionary_ok dictionary -> dictionary_ok (add_sonnet dictionary sonnet).
Proof.
  intros Hok. unfold add_sonnet.
  generalize (enumerate 1 (sonnet_lines sonnet)). intros l.
  assert (Hok' : dictionary_ok
                   (add_tokens (sonnet_id sonnet) None
                      (sonnet_title sonnet) dictionary))
    by by apply add_tokens_ok.
  revert Hok'. generalize (add_tokens (sonnet_id sonnet) None
                             (sonnet_title sonnet) dictionary).
  induction l as [|[line_no line] l IH]; intros d Hd; simpl; [done|].
  apply IH. by apply add_tokens_ok.
Qed.

Lemma Index_init_ok (sonnets : list Sonnet) :
  dictionary_ok (index_dictionary (Index_init sonnets)).
Proof.
  simpl. assert (Hnil : dictionary_ok []) by (split; [done | done]).
  revert Hnil. generalize ([] : dict string (dict Z (list Posting))).
  induction sonnets as [|sonnet sonnets IH]; intros d Hd; simpl; [done|].
  apply IH. by apply add_sonnet_ok.
Qed.

Lemma postings_for_get (id : Z) (by_doc : dict Z (list Posting)) :
  NoDup (dict_keys by_doc) ->
  postings_for id by_doc = default [] (dict_get id by_doc).
Proof.
  unfold postings_for.
  induction by_doc as [|[k ps] by_doc IH]; simpl; [done|].
  intros [Hk Hnd]%NoDup_cons. rewrite filter_cons. simpl.
  destruct (decide (k = id)) as [->|Hne].
  - rewrite decide_True by done. simpl.
    assert (Hnone : filter (fun e : Z * list Posting => e.1 = id) by_doc
                    = []).
    { apply dict_get_None in Hk.
      destruct (filter _ by_doc) as [|[k' v'] l] eqn:Ef; [done|].
      assert (Hin : (k', v') ∈ filter
                      (fun e : Z * list Posting => e.1 = id) by_doc)
        by (rewrite Ef; by left).
      apply list_elem_of_filter in Hin as [Ek Hin]. simpl in Ek. subst.
      apply dict_get_None in Hk. exfalso. apply Hk.
      by apply (list_elem_of_fmap_2 fst _ (id, v')). }
    rewrite Hnone. simpl. by rewrite app_nil_r.
  - rewrite decide_False by done. by apply IH.
Qed.

(** The index lookup and the per-document search go through the same
    postings of a document. *)
Lemma lookup_postings_own (sonnets : list Sonnet) (sonnet : Sonnet)
    (token : string) :
  postings_for (sonnet_id sonnet)
    (lookup_postings (Index_init sonnets) token)
  = own_postings sonnet token (Index_init sonnets).
Proof.
  destruct (Index_init_ok sonnets) as [Hempty Hnd].
  unfold lookup_postings, own_postings.
  case_decide as E.
  - rewrite E, Hempty. done.
  - destruct (dict_get (normalized_stem_token token)
                (index_dictionary (Index_init sonnets)))
      as [by_doc|] eqn:Eg; [| done].
    simpl. apply postings_for_get. by apply (Hnd _ _ Eg).
Qed.
End index_facts.

(** ** The index lookup and the per-document search *)

Lemma summary_line_text (h : store) (sonnet : Sonnet) (ps : list Posting)
    (r : SearchResult) (ln : Z) :
  summary h sonnet ps r -> line_spans_of ps ln <> [] ->
  is_Some (index_list (sonnet_lines sonnet) (ln - 1)).
Proof.
  intros (_ & _ & _ & Hsp & Htx & _) Hne.
  assert (Hin : ln ∈ line_numbers (sr_line_matches r)).
  { destruct (decide (ln ∈ line_numbers (sr_line_matches r))) as [|Hnot];
      [done|].
    apply (spans_at_absent h) in Hnot. rewrite Hsp in Hnot. done. }
  apply text_at_present in Hin. rewrite Htx in Hin.
  by rewrite decide_False in Hin by done.
Qed.

Lemma summary_no_postings (h : store) (sonnet : Sonnet) (r : SearchResult) :
  summary h sonnet [] r ->
  sr_matches r = 0 /\ sr_title_spans r = [] /\ sr_line_matches r = [].
Proof.
  intros (_ & Hm & Hts & _ & Htx & _). split_and!.
  - done.
  - by apply Permutation_nil_r in Hts.
  - destruct (sr_line_matches r) as [|lm lms] eqn:E; [done|].
    exfalso.
    assert (Hin : lm_line_no lm ∈ line_numbers (lm :: lms)) by by left.
    apply text_at_present in Hin. rewrite Htx in Hin.
    by destruct Hin.
Qed.

(** C10: when the index lookup for a token returns, the per-document
    search of a document of the index for the same token returns too.  If
    the mapping has the id of the document, the two results have the same
    title and match count, the same title spans as multisets and, for
    every line number, the same line spans as multisets and the same text;
    if not, the per-document result has no matches and no spans. *)
Theorem search_for_agree `{Stemmer} (sonnets : list Sonnet) (sonnet : Sonnet)
    (token : string) (h1 h2 h1' : store) (results : dict Z SearchResult) :
  dict_get (sonnet_id sonnet) (index_sonnets (Index_init sonnets))
    = Some sonnet ->
  Index_search_for (Index_init sonnets) token h1 = Returns results h1' ->
  exists r' h2',
    Sonnet_search_for sonnet token (Index_init sonnets) h2 = Returns r' h2'
    /\ match dict_get (sonnet_id sonnet) results with
       | Some r =>
           sr_title r' = sr_title r
           /\ sr_matches r' = sr_matches r
           /\ sr_title_spans r' ≡ₚ sr_title_spans r
           /\ forall ln,
                spans_at h2' (sr_line_matches r') ln
                  ≡ₚ spans_at h1' (sr_line_matches r) ln
                /\ text_at (sr_line_matches r') ln
                   = text_at (sr_line_matches r) ln
       | None =>
           sr_matches r' = 0 /\ sr_title_spans r' = []
           /\ sr_line_matches r' = []
       end.
Proof.
  intros Hreg Hrun.
  pose proof (Index_search_for_ok (Index_init sonnets) token h1) as Hok.
  rewrite Hrun in Hok. destruct Hok as [Hok _].
  pose proof (Sonnet_search_for_spec sonnet token (Index_init sonnets) h2)
    as Hdoc.
  rewrite <- (lookup_postings_own sonnets sonnet token) in Hdoc.
  set (ps := postings_for (sonnet_id sonnet)
               (lookup_postings (Index_init sonnets) token)) in *.
  destruct (dict_get (sonnet_id sonnet) results) as [r|] eqn:Eget.
  - destruct (results_ok_entry _ _ _ _ _ _ Hok Eget)
      as (Hne & sonnet' & Hreg' & Hsum).
    assert (sonnet' = sonnet) as -> by congruence. fold ps in Hsum.
    destruct (Sonnet_search_for sonnet token (Index_init sonnets) h2)
      as [r' h2'|e].
    + exists r', h2'. split; [done|].
      destruct Hsum as (Ht & Hm & Hts & Hsp & Htx & _).
      destruct Hdoc as (Ht' & Hm' & Hts' & Hsp' & Htx' & _).
      split_and!; [congruence | congruence | by rewrite Hts, Hts' |].
      intros ln. split; [by rewrite Hsp, Hsp' | by rewrite Htx, Htx'].
    + exfalso. destruct Hdoc as (_ & ln & Hln & Hnone).
      destruct (summary_line_text _ _ _ _ ln Hsum Hln) as [t Ht]. congruence.
  - destruct Hok as (_ & Hent & _). specialize (Hent (sonnet_id sonnet)).
    rewrite Eget in Hent. fold ps in Hent. rewrite Hent in Hdoc.
    destruct (Sonnet_search_for sonnet token (Index_init sonnets) h2)
      as [r' h2'|e].
    + exists r', h2'. split; [done|]. by apply (summary_no_postings h2' sonnet).
    + exfalso. by destruct Hdoc as (_ & ln & Hln & _).
Qed.

Lemma search_for_agree_witness :
  exists r' h2',
    @Sonnet_search_for identity_stemmer sonnet1 "thee"
      (@Index_init identity_stemmer corpus) [] = Returns r' h2'
    /\ sr_matches r' = 1.
Proof.
  destruct (@search_for_agree identity_stemmer corpus sonnet1 "thee" [] []
              _ _ eq_refl eq_refl) as (r' & h2' & Hrun & Hsame).
  exists r', h2'. split; [exact Hrun|].
  vm_compute in Hsame. by destruct Hsame as (_ & Hm & _).
Defined.

(** ** When the index lookup raises *)

Lemma add_result_returns (doc_id : Z) (results : dict Z SearchResult)
    (sr : SearchResult) (h : store) :
  exists results' h', add_result doc_id results sr h = Returns results' h'.
Proof.
  unfold add_result. destruct (dict_get doc_id results) as [r|].
  - unfold bind.
    destruct (combine_with_returns r sr h) as (c & h' & -> & _).
    by eexists _, _.
  - by eexists _, _.
Qed.

Lemma posting_loop_error (doc_id : Z) (sonnet : Sonnet) (ps : list Posting) :
  forall (results : dict Z SearchResult) (h : store),
    match for_each ps
            (fun results posting =>
               let* sr := posting_result sonnet posting in
               add_result doc_id results sr)
            results h with
    | Returns _ _ => postings_error sonnet ps = None
    | Raises e => postings_error sonnet ps = Some e
    end.
Proof.
  induction ps as [|p ps IH]; intros results h; [done|].
  rewrite for_each_cons. unfold bind at 1. simpl.
  unfold posting_result, posting_error.
  destruct (posting_line_no p) as [ln|].
  - unfold bind at 1.
    destruct (index_list (sonnet_lines sonnet) (ln - 1)) as [text|]; simpl;
      [| done].
    unfold bind.
    destruct (add_result_returns doc_id results
                {| sr_title := sonnet_title sonnet; sr_title_spans := [];
                   sr_line_matches :=
                     [{| lm_line_no := ln; lm_text := text;
                         lm_spans := length h |}];
                   sr_matches := 1 |} (h ++ [[posting_span p]]))
      as (results' & h' & ->).
    apply IH.
  - unfold ret.
    destruct (add_result_returns doc_id results
                {| sr_title := sonnet_title sonnet;
                   sr_title_spans := [posting_span p];
                   sr_line_matches := []; sr_matches := 1 |} h)
      as (results' & h' & ->).
    apply IH.
Qed.

Section lookup_error.
Context `{Stemmer}.

Lemma docs_loop_error (self : Index) (pl : list (Z * list Posting)) :
  forall (results : dict Z SearchResult) (h : store),
    match for_each pl
            (fun results '(doc_id, postings) =>
               let* sonnet :=
                 get_or_raise KeyError
                   (dict_get doc_id (index_sonnets self)) in
               for_each postings
                 (fun results posting =>
                    let* sr := posting_result sonnet posting in
                    add_result doc_id results sr)
                 results)
            results h with
    | Returns _ _ => docs_error (index_sonnets self) pl = None
    | Raises e => docs_error (index_sonnets self) pl = Some e
    end.
Proof.
  induction pl as [|[doc_id ps] pl IH]; intros results h; [done|].
  rewrite for_each_cons. unfold bind at 1. simpl.
  destruct (dict_get doc_id (index_sonnets self)) as [sonnet|]; simpl;
    [| done].
  pose proof (posting_loop_error doc_id sonnet ps results h) as Hps.
  destruct (for_each ps _ results h) as [results1 h1|e].
  - rewrite Hps. apply IH.
  - by rewrite Hps.
Qed.

(** [Index.search_for] raises what [lookup_error] says, whatever the
    store. *)
Lemma Index_search_for_error (self : Index) (token : string) (h : store) :
  match Index_search_for self token h with
  | Returns _ _ => lookup_error self token = None
  | Raises e => lookup_error self token = Some e
  end.
Proof.
  unfold Index_search_for, lookup_error, lookup_postings.
  case_decide; [done|].
  destruct (dict_get (normalized_stem_token token) (index_dictionary self))
    as [pl|]; [| done].
  apply docs_loop_error.
Qed.
End lookup_error.

(** ** Match counts under AND and under OR *)

Section dict_del_facts.
Context {K V : Type} `{EqDecision K}.
Implicit Types (d : dict K V) (k : K).

Lemma dict_get_del d k k' :
  NoDup (dict_keys d) ->
  dict_get k (dict_del k' d) = if decide (k = k') then None
                               else dict_get k d.
Proof.
  induction d as [|[k0 v0] d IH]; simpl.
  - by case_decide.
  - intros [Hk Hnd]%NoDup_cons.
    destruct (decide (k' = k0)) as [->|Hne].
    + case_decide as E; [subst; by apply dict_get_None | done].
    + simpl. rewrite IH by done.
      repeat case_decide; congruence.
Qed.

Lemma dict_del_NoDup d k :
  NoDup (dict_keys d) -> NoDup (dict_keys (dict_del k d)).
Proof.
  induction d as [|[k0 v0] d IH]; simpl; [done|].
  intros [Hk Hnd]%NoDup_cons. case_decide; [done|].
  simpl. apply NoDup_cons. split; [| by apply IH].
  intros Hin. apply Hk. clear -Hin.
  induction d as [|[k1 v1] d IH]; simpl in *; [done|].
  case_decide; [by right|].
  apply elem_of_cons in Hin as [->|Hin]; [by left | right; by apply IH].
Qed.
End dict_del_facts.

Lemma add_result_count (doc_id : Z) (results : dict Z SearchResult)
    (sr : SearchResult) (h : store) :
  exists results' h',
    add_result doc_id results sr h = Returns results' h'
    /\ (NoDup (dict_keys results) -> NoDup (dict_keys results'))
    /\ forall id,
         count_of results' id
         = if decide (id = doc_id)
           then or_count (count_of results doc_id) (Some (sr_matches sr))
           else count_of results id.
Proof.
  unfold add_result, count_of.
  destruct (dict_get doc_id results) as [r|] eqn:Eget.
  - unfold bind.
    destruct (combine_with_returns r sr h) as (c & h' & -> & _ & _ & Hm & _).
    eexists _, _. split; [done|]. split; [apply dict_set_NoDup|].
    intros id. rewrite dict_get_set. case_decide; [| done].
    simpl. by rewrite Hm.
  - eexists _, _. split; [done|]. split; [apply dict_set_NoDup|].
    intros id. rewrite dict_get_set. by case_decide.
Qed.

Lemma search_or_count (results : dict Z SearchResult) :
  forall (combined_results : dict Z SearchResult) (h : store),
    NoDup (dict_keys results) ->
    exists combined_results' h',
      for_each results
        (fun combined_results '(doc_id, r) =>
           add_result doc_id combined_results r)
        combined_results h
      = Returns combined_results' h'
      /\ (NoDup (dict_keys combined_results) ->
          NoDup (dict_keys combined_results'))
      /\ forall id,
           count_of combined_results' id
           = or_count (count_of combined_results id) (count_of results id).
Proof.
  induction results as [|[doc_id r] results IH]; intros acc h Hnd.
  { exists acc, h. split_and!; [done | done |].
    intros id. unfold count_of. simpl.
    by destruct (dict_get id acc). }
  simpl in Hnd. apply NoDup_cons in Hnd as [Hk Hnd].
  rewrite for_each_cons.
  destruct (add_result_count doc_id acc r h) as (acc1 & h1 & -> & Hnd1 & Hc1).
  destruct (IH acc1 h1 Hnd) as (acc' & h' & -> & Hnd' & Hc').
  exists acc', h'. split_and!; [done | auto |].
  intros id. rewrite Hc', Hc1. unfold count_of. simpl.
  destruct (decide (id = doc_id)) as [->|Hne].
  - assert (Hg : dict_get doc_id results = None) by (by apply dict_get_None).
    rewrite Hg. simpl. by destruct (dict_get doc_id acc).
  - done.
Qed.
Lemma fold_dict_del {V} (ks : list Z) :
  forall d : dict Z V,
    NoDup (dict_keys d) ->
    NoDup (dict_keys (fold_left (fun d k => dict_del k d) ks d))
    /\ forall id,
         dict_get id (fold_left (fun d k => dict_del k d) ks d)
         = if decide (id ∈ ks) then None else dict_get id d.
Proof.
  induction ks as [|k ks IH]; intros d Hnd; simpl.
  - split; [done|]. intros id.
    destruct (decide (id ∈ [])) as [E|]; [by inversion E | done].
  - destruct (IH (dict_del k d) (dict_del_NoDup d k Hnd)) as [Hnd' Hget].
    split; [done|]. intros id. rewrite Hget, dict_get_del by done.
    destruct (decide (id = k)) as [->|Hne].
    + rewrite (decide_True (P := k ∈ k :: ks)) by by left. by case_decide.
    + destruct (decide (id ∈ ks)) as [Hin|Hnot].
      * by rewrite decide_True by by right.
      * rewrite decide_False; [done|]. by intros [?|?]%elem_of_cons.
Qed.

(** The loop of the AND branch over the keys of the running mapping. *)
Lemma search_and_loop (results : dict Z SearchResult) (todo : list Z) :
  forall (cur : dict Z SearchResult) (deleted : list Z) (h : store),
    NoDup todo ->
    (forall k, k ∈ todo -> is_Some (dict_get k cur)) ->
    exists cur' h',
      for_each todo
        (fun '(combined_results, deleted) doc_id =>
           match dict_get doc_id results, dict_get doc_id combined_results
           with
           | Some r, Some mine =>
               let* c := combine_with mine r in
               ret (dict_set doc_id c combined_results, deleted)
           | Some r, None => raise KeyError
           | None, _ => ret (combined_results, deleted ++ [doc_id])
           end)
        (cur, deleted) h
      = Returns (cur', deleted
                       ++ filter (fun k => dict_get k results = None) todo) h'
      /\ dict_keys cur' = dict_keys cur
      /\ forall id,
           count_of cur' id
           = if decide (id ∈ todo)
             then match count_of results id with
                  | Some w => (fun a => a + w) <$> count_of cur id
                  | None => count_of cur id
                  end
             else count_of cur id.
Proof.
  induction todo as [|k todo IH]; intros cur deleted h Hnd Hsome.
  { exists cur, h. simpl. rewrite filter_nil, app_nil_r.
    split_and!; [done | done |]. intros id.
    destruct (decide (id ∈ [])) as [E|]; [by inversion E | done]. }
  apply NoDup_cons in Hnd as [Hk Hnd].
  rewrite for_each_cons, filter_cons.
  destruct (Hsome k) as [mine Hmine]; [by left|]. rewrite Hmine.
  destruct (dict_get k results) as [r|] eqn:Er.
  - unfold bind at 1.
    destruct (combine_with_returns mine r h) as (c & h1 & -> & _ & _ & Hm & _).
    unfold ret at 1.
    destruct (IH (dict_set k c cur) deleted h1 Hnd)
      as (cur' & h' & -> & Hkeys & Hcount).
    { intros k' Hk'. rewrite dict_get_set. case_decide; [done|].
      apply Hsome. by right. }
    exists cur', h'. rewrite decide_False by done.
    split_and!; [done | |].
    + rewrite Hkeys. by apply (dict_keys_set_present _ _ _ mine).
    + intros id. rewrite Hcount. unfold count_of. rewrite !dict_get_set.
      destruct (decide (id = k)) as [->|Hne].
      * rewrite decide_False by done. rewrite decide_True by by left.
        rewrite Er, Hmine. simpl. by rewrite Hm.
      * destruct (decide (id ∈ todo)) as [Hin|Hnot].
        -- by rewrite decide_True by by right.
        -- rewrite decide_False; [done|]. by intros [?|?]%elem_of_cons.
  - unfold ret at 1.
    destruct (IH cur (deleted ++ [k]) h Hnd) as (cur' & h' & -> & Hkeys & Hcount).
    { intros k' Hk'. apply Hsome. by right. }
    exists cur', h'. rewrite decide_True by done.
    split_and!; [by rewrite <- app_assoc | done |].
    intros id. rewrite Hcount. unfold count_of.
    destruct (decide (id = k)) as [->|Hne].
    + rewrite decide_False by done. rewrite decide_True by by left.
      by rewrite Er.
    + destruct (decide (id ∈ todo)) as [Hin|Hnot].
      * by rewrite decide_True by by right.
      * rewrite decide_False; [done|]. by intros [?|?]%elem_of_cons.
Qed.

Section search_counts.
Context `{Stemmer}.

Lemma search_or_spec (combined_results results : dict Z SearchResult)
    (h : store) :
  NoDup (dict_keys combined_results) -> NoDup (dict_keys results) ->
  exists combined_results' h',
    search_or combined_results results h = Returns combined_results' h'
    /\ NoDup (dict_keys combined_results')
    /\ forall id,
         count_of combined_results' id
         = or_count (count_of combined_results id) (count_of results id).
Proof.
  intros Hc Hr. unfold search_or.
  destruct (search_or_count results combined_results h Hr)
    as (c' & h' & Hrun & Hnd & Hcount).
  exists c', h'. auto.
Qed.

Lemma search_and_spec (combined_results results : dict Z SearchResult)
    (h : store) :
  NoDup (dict_keys combined_results) ->
  exists combined_results' h',
    search_and combined_results results h = Returns combined_results' h'
    /\ NoDup (dict_keys combined_results')
    /\ forall id,
         count_of combined_results' id
         = and_count (count_of combined_results id) (count_of results id).
Proof.
  intros Hc. unfold search_and. unfold bind at 1.
  destruct (search_and_loop results (dict_keys combined_results)
              combined_results [] h Hc)
    as (cur' & h' & -> & Hkeys & Hcount).
  { intros k Hk. destruct (dict_get k combined_results) eqn:E; [done|].
    by apply dict_get_None in E. }
  simpl. unfold ret.
  assert (Hnd' : NoDup (dict_keys cur')) by (by rewrite Hkeys).
  destruct (fold_dict_del
              (filter (fun k => dict_get k results = None)
                 (dict_keys combined_results)) cur' Hnd') as [Hnd Hget].
  eexists _, _. split_and!; [done | done |].
  intros id. unfold count_of at 1. rewrite Hget.
  specialize (Hcount id). unfold count_of in *.
  destruct (decide (id ∈ dict_keys combined_results)) as [Hin|Hnot].
  - destruct (dict_get id results) as [r|] eqn:Er; simpl in *.
    + rewrite decide_False; last first.
      { intros [Hf _]%list_elem_of_filter. congruence. }
      rewrite Hcount. by destruct (dict_get id combined_results).
    + rewrite decide_True by (by apply list_elem_of_filter).
      by destruct (dict_get id combined_results).
  - apply dict_get_None in Hnot. rewrite Hnot in *. simpl in *.
    case_decide; [done|]. by rewrite Hcount.
Qed.
End search_counts.

Lemma lookup_counts (h : store) (sonnets : dict Z Sonnet)
    (results : dict Z SearchResult) (pl : list (Z * list Posting)) :
  results_ok h sonnets results pl ->
  NoDup (dict_keys results)
  /\ forall id,
       count_of results id
       = if decide (postings_for id pl = []) then None
         else Some (Z.of_nat (length (postings_for id pl))).
Proof.
  intros (Hnd & Hent & _). split; [done|]. intros id.
  specialize (Hent id). unfold count_of.
  destruct (dict_get id results) as [r|]; simpl.
  - destruct Hent as (Hne & sonnet & _ & _ & Hm & _).
    rewrite decide_False by done. by rewrite Hm.
  - by rewrite decide_True.
Qed.

Lemma count_of_nonempty (d : dict Z SearchResult) :
  d <> [] -> exists id a, count_of d id = Some a.
Proof.
  destruct d as [|[k r] d]; [done|]. intros _.
  exists k, (sr_matches r). unfold count_of. simpl.
  by rewrite decide_True.
Qed.

Section and_within_or.
Context `{Stemmer}.

(** One word of the query, in the AND search and in the OR search. *)
Lemma search_word_within (self : Searcher) (A U : dict Z SearchResult)
    (word : string) (hA hU : store) :
  within_or A U ->
  match search_word self "AND" A word hA, search_word self "OR" U word hU
  with
  | Returns A' _, Returns U' _ => within_or A' U'
  | Raises e1, Raises e2 => e1 = e2
  | _, _ => False
  end.
Proof.
  intros (Hsub & Hpos & HndA & HndU). unfold search_word, bind.
  set (token := normalized_stem_token word).
  pose proof (Index_search_for_error (searcher_index self) token hA) as HeA.
  pose proof (Index_search_for_error (searcher_index self) token hU) as HeU.
  pose proof (Index_search_for_ok (searcher_index self) token hA) as HkA.
  pose proof (Index_search_for_ok (searcher_index self) token hU) as HkU.
  destruct (Index_search_for (searcher_index self) token hA) as [WA hA'|e1];
    destruct (Index_search_for (searcher_index self) token hU)
      as [WU hU'|e2]; try congruence.
  destruct HkA as [HkA _]. destruct HkU as [HkU _].
  apply lookup_counts in HkA as [HndWA HcA].
  apply lookup_counts in HkU as [HndWU HcU].
  assert (Hsame : forall id, count_of WA id = count_of WU id)
    by (intros id; by rewrite HcA, HcU).
  assert (HposW : forall id w, count_of WU id = Some w -> 0 <= w).
  { intros id w. rewrite HcU. case_decide; [done|]. intros [= <-]. lia. }
  destruct A as [|eA A].
  - (* the AND search is seeded with the results of the word *)
    destruct U as [|eU U].
    + simpl. split_and!; [| done..].
      intros id a. rewrite Hsame. intros ->. exists a. split; [done | lia].
    + set (U0 := eU :: U) in *.
      rewrite decide_True by done.
      destruct (search_or_spec U0 WU hU' HndU HndWU)
        as (U' & h' & -> & HndU' & HcU').
      simpl. split_and!; [| | done..].
      * intros id a. rewrite Hsame, HcU'. intros Hw. rewrite Hw.
        destruct (count_of U0 id) as [o|] eqn:Eo; simpl.
        -- exists (o + a). split; [done|]. apply Hpos in Eo. lia.
        -- exists a. split; [done | lia].
      * intros id o. rewrite HcU'.
        destruct (count_of U0 id) as [o0|] eqn:Eo;
          destruct (count_of WU id) as [w|] eqn:Ew; simpl;
          intros [= <-]; try (apply Hpos in Eo); try (apply HposW in Ew);
          lia.
  - set (A0 := eA :: A) in *.
    rewrite decide_False by done.
    destruct (search_and_spec A0 WA hA' HndA) as (A' & h' & -> & HndA' & HcA').
    destruct U as [|eU U].
    + exfalso. destruct (count_of_nonempty A0) as (id & a & Ha); [done|].
      by destruct (Hsub id a Ha) as (o & Ho & _).
    + set (U0 := eU :: U) in *.
      rewrite decide_True by done.
      destruct (search_or_spec U0 WU hU' HndU HndWU)
        as (U' & h'' & -> & HndU' & HcU').
      simpl. split_and!; [| | done..].
      * intros id a'. rewrite HcA', HcU', Hsame.
        destruct (count_of A0 id) as [a|] eqn:Ea; [| done].
        destruct (Hsub id a Ea) as (o & -> & Hle).
        destruct (count_of WU id) as [w|]; simpl; [| done].
        intros [= <-]. exists (o + w). split; [done | lia].
      * intros id o. rewrite HcU'.
        destruct (count_of U0 id) as [o0|] eqn:Eo;
          destruct (count_of WU id) as [w|] eqn:Ew; simpl;
          intros [= <-]; try (apply Hpos in Eo); try (apply HposW in Ew);
          lia.
Qed.

Lemma search_words_within (self : Searcher) (words : list string) :
  forall (A U : dict Z SearchResult) (hA hU : store),
    within_or A U ->
    match for_each words (search_word self "AND") A hA,
          for_each words (search_word self "OR") U hU with
    | Returns A' _, Returns U' _ => within_or A' U'
    | Raises e1, Raises e2 => e1 = e2
    | _, _ => False
    end.
Proof.
  induction words as [|word words IH]; intros A U hA hU Hw; [done|].
  rewrite !for_each_cons.
  pose proof (search_word_within self A U word hA hU Hw) as Hstep.
  destruct (search_word self "AND" A word hA) as [A1 hA1|e1];
    destruct (search_word self "OR" U word hU) as [U1 hU1|e2]; try done.
  by apply IH.
Qed.

(** C4: for every searcher, query and store, the AND search and the OR
    search either both return or both raise the same exception; when
    they return, every document id of the AND mapping is in the OR
    mapping, with a match count at least as large. *)
Theorem and_results_within_or_results (self : Searcher) (query : string)
    (h : store) :
  match search_combined self query "AND" h,
        search_combined self query "OR" h with
  | Returns A _, Returns U _ =>
      forall id a, dict_get id A = Some a ->
        exists o, dict_get id U = Some o /\ sr_matches a <= sr_matches o
  | Raises e1, Raises e2 => e1 = e2
  | _, _ => False
  end.
Proof.
  unfold search_combined.
  pose proof (search_words_within self (split query) [] [] h h) as Hw.
  destruct (for_each (split query) (search_word self "AND") [] h)
    as [A hA|e1];
    destruct (for_each (split query) (search_word self "OR") [] h)
      as [U hU|e2]; try (apply Hw; split_and!; try done; constructor).
  assert (Hin : within_or A U)
    by (apply Hw; split_and!; try done; constructor).
  destruct Hin as (Hsub & _). intros id a Ha.
  destruct (Hsub id (sr_matches a)) as (o & Ho & Hle).
  { unfold count_of. by rewrite Ha. }
  unfold count_of in Ho. destruct (dict_get id U) as [ro|]; [| done].
  injection Ho as <-. by exists ro.
Qed.
End and_within_or.

Example and_within_or_example :
  exists A hA U hU,
    @search_combined identity_stemmer (@Searcher_init identity_stemmer corpus)
      "thee winters" "AND" [] = Returns A hA
    /\ @search_combined identity_stemmer
         (@Searcher_init identity_stemmer corpus) "thee winters" "OR" []
       = Returns U hU
    /\ dict_keys A = [] /\ dict_keys U = [1; 2].
Proof. eexists _, _, _, _. split_and!; vm_compute; reflexivity. Qed.

(** ** The index lookup on a corpus with different ids *)

Lemma Forall_dict_set {K V} `{EqDecision K} (P : K * V -> Prop)
    (d : dict K V) (k : K) (v : V) :
  Forall P d -> P (k, v) -> Forall P (dict_set k v d).
Proof.
  intros Hd Hkv. induction Hd as [|[k' v'] d Hx Hd IH]; simpl.
  - by constructor.
  - case_decide; constructor; done.
Qed.

Lemma _add_token_known (sonnets : dict Z Sonnet)
    (dictionary : dict string (dict Z (list Posting)))
    (sonnet : Sonnet) (stem : string) (line_no : option Z) (position : Z)
    (token : string) :
  dict_get (sonnet_id sonnet) sonnets = Some sonnet ->
  posting_error sonnet
    {| posting_line_no := line_no; posting_position := position;
       posting_original_token := token |} = None ->
  postings_known sonnets dictionary ->
  postings_known sonnets
    (_add_token dictionary (sonnet_id sonnet) stem line_no position token).
Proof.
  intros Hreg Hp Hknown s by_doc. unfold _add_token.
  rewrite dict_get_set. case_decide as E; [| apply Hknown].
  intros [= <-].
  assert (Hold : Forall (fun e : Z * list Posting =>
                   exists sonnet0, dict_get e.1 sonnets = Some sonnet0
                     /\ Forall (fun p => posting_error sonnet0 p = None) e.2)
                   (default [] (dict_get stem dictionary))).
  { destruct (dict_get stem dictionary) as [postings|] eqn:Eg; simpl;
      [by apply (Hknown stem) | constructor]. }
  apply Forall_dict_set; [done|]. simpl. exists sonnet. split; [done|].
  apply Forall_app. split; [| by repeat constructor].
  destruct (dict_get (sonnet_id sonnet) (default [] (dict_get stem dictionary)))
    as [occ|] eqn:Eo; simpl; [| constructor].
  apply dict_get_Some_elem in Eo. rewrite Forall_forall in Hold.
  destruct (Hold _ Eo) as (sonnet' & Hreg' & Hocc). simpl in *.
  by assert (sonnet' = sonnet) as -> by congruence.
Qed.

Lemma enumerate_index {A} (l : list A) :
  forall (start ln : Z) (x : A),
    (ln, x) ∈ enumerate start l ->
    start <= ln /\ l !! Z.to_nat (ln - start) = Some x.
Proof.
  induction l as [|y l IH]; intros start ln x Hin; simpl in Hin.
  - by inversion Hin.
  - apply elem_of_cons in Hin as [[= -> ->] | Hin].
    + split; [lia|]. by rewrite Z.sub_diag.
    + apply IH in Hin as [Hle Hl]. split; [lia|].
      replace (Z.to_nat (ln - start)) with (S (Z.to_nat (ln - (start + 1))))
        by lia.
      done.
Qed.

Section total.
Context `{Stemmer}.

Lemma add_tokens_known (sonnets : dict Z Sonnet) (sonnet : Sonnet)
    (line_no : option Z) (text : string)
    (dictionary : dict string (dict Z (list Posting))) :
  dict_get (sonnet_id sonnet) sonnets = Some sonnet ->
  (forall ln, line_no = Some ln ->
              is_Some (index_list (sonnet_lines sonnet) (ln - 1))) ->
  postings_known sonnets dictionary ->
  postings_known sonnets
    (add_tokens (sonnet_id sonnet) line_no text dictionary).
Proof.
  intros Hreg Hline. unfold add_tokens. generalize (tokenize text).
  intros l. revert dictionary.
  induction l as [|[token pos] l IH]; intros dictionary Hknown; simpl;
    [done|].
  apply IH. case_decide; [done|].
  apply _add_token_known; [done | | done].
  unfold posting_error. simpl. destruct line_no as [ln|]; [| done].
  by destruct (Hline ln eq_refl) as [t ->].
Qed.

Lemma add_sonnet_known (sonnets : dict Z Sonnet) (sonnet : Sonnet)
    (dictionary : dict string (dict Z (list Posting))) :
  dict_get (sonnet_id sonnet) sonnets = Some sonnet ->
  postings_known sonnets dictionary ->
  postings_known sonnets (add_sonnet dictionary sonnet).
Proof.
  intros Hreg Hknown. unfold add_sonnet.
  assert (Hall : forall e, e ∈ enumerate 1 (sonnet_lines sonnet) ->
            is_Some (index_list (sonnet_lines sonnet) (e.1 - 1))).
  { intros [ln line] [Hle Hl]%enumerate_index. simpl. unfold index_list.
    destruct (ln - 1 <? 0) eqn:E; [lia|]. by rewrite Hl. }
  revert Hall. generalize (enumerate 1 (sonnet_lines sonnet)). intros l Hall.
  assert (Hk : postings_known sonnets
                 (add_tokens (sonnet_id sonnet) None (sonnet_title sonnet)
                    dictionary))
    by (by apply add_tokens_known).
  revert Hk. generalize (add_tokens (sonnet_id sonnet) None
                           (sonnet_title sonnet) dictionary).
  induction l as [|[line_no line] l IH]; intros d Hd; simpl; [done|].
  apply IH.
  - intros e He. apply Hall. by right.
  - apply add_tokens_known; [done | | done].
    intros ln [= <-]. apply (Hall (line_no, line)). by left.
Qed.

Lemma fold_dict_set_get (sonnets : list Sonnet) :
  forall (d : dict Z Sonnet) (sonnet : Sonnet),
    NoDup (sonnet_id <$> sonnets) -> sonnet ∈ sonnets ->
    dict_get (sonnet_id sonnet)
      (fold_left (fun d s => dict_set (sonnet_id s) s d) sonnets d)
    = Some sonnet.
Proof.
  induction sonnets as [|s sonnets IH]; intros d sonnet Hnd Hin.
  - by inversion Hin.
  - rewrite fmap_cons in Hnd. apply NoDup_cons in Hnd as [Hs Hnd].
    simpl. apply elem_of_cons in Hin as [-> | Hin]; [| by apply IH].
    clear IH. revert d. induction sonnets as [|s' sonnets IH]; intros d; simpl.
    + rewrite dict_get_set. by rewrite decide_True.
    + rewrite fmap_cons in Hs, Hnd.
      apply not_elem_of_cons in Hs as [Hne Hs].
      apply NoDup_cons in Hnd as [_ Hnd].
      assert (Hswap : dict_get (sonnet_id s)
                (fold_left (fun d s0 => dict_set (sonnet_id s0) s0 d) sonnets
                   (dict_set (sonnet_id s') s' (dict_set (sonnet_id s) s d)))
                = dict_get (sonnet_id s)
                    (fold_left (fun d s0 => dict_set (sonnet_id s0) s0 d)
                       sonnets (dict_set (sonnet_id s) s d))).
      { clear IH Hnd.
        generalize (dict_set (sonnet_id s) s d) as d0.
        assert (Hgen : forall d1 d2 : dict Z Sonnet,
                  dict_get (sonnet_id s) d1 = dict_get (sonnet_id s) d2 ->
                  dict_get (sonnet_id s)
                    (fold_left (fun d s0 => dict_set (sonnet_id s0) s0 d)
                       sonnets d1)
                  = dict_get (sonnet_id s)
                      (fold_left (fun d s0 => dict_set (sonnet_id s0) s0 d)
                         sonnets d2)).
        { clear Hs. induction sonnets as [|s0 sonnets IH']; intros d1 d2 E;
            simpl; [done|].
          apply IH'. rewrite !dict_get_set. by case_decide. }
        intros d0. apply Hgen. rewrite dict_get_set.
        by rewrite decide_False. }
      rewrite Hswap. by apply IH.
Qed.

Lemma Index_init_known (sonnets : list Sonnet) :
  NoDup (sonnet_id <$> sonnets) ->
  postings_known (index_sonnets (Index_init sonnets))
    (index_dictionary (Index_init sonnets)).
Proof.
  intros Hnd. simpl.
  set (sd := fold_left (fun d s => dict_set (sonnet_id s) s d) sonnets []).
  assert (Hreg : forall s, s ∈ sonnets -> dict_get (sonnet_id s) sd = Some s)
    by (intros s Hs; by apply fold_dict_set_get).
  clearbody sd. clear Hnd.
  assert (Hnil : postings_known sd []) by (by intros s by_doc).
  revert Hnil. generalize ([] : dict string (dict Z (list Posting))).
  induction sonnets as [|s sonnets IH]; intros d Hd; simpl; [done|].
  apply IH.
  - intros s' Hs'. apply Hreg. by right.
  - apply add_sonnet_known; [| done]. apply Hreg. by left.
Qed.

Lemma docs_error_known (sonnets : dict Z Sonnet)
    (pl : list (Z * list Posting)) :
  Forall (fun e : Z * list Posting =>
            exists sonnet, dict_get e.1 sonnets = Some sonnet
              /\ Forall (fun p => posting_error sonnet p = None) e.2) pl ->
  docs_error sonnets pl = None.
Proof.
  induction 1 as [|[id ps] pl (sonnet & Hreg & Hps) _ IH]; simpl; [done|].
  simpl in Hreg, Hps. rewrite Hreg.
  assert (Hnone : postings_error sonnet ps = None).
  { clear -Hps. induction Hps as [|p ps' Hp _ IH']; simpl; [done|].
    by rewrite Hp. }
  by rewrite Hnone.
Qed.

(** On a corpus whose documents have different ids, the index lookup
    returns, for every token and from every store. *)
Lemma Index_search_for_returns (sonnets : list Sonnet) (token : string)
    (h : store) :
  NoDup (sonnet_id <$> sonnets) ->
  exists results h',
    Index_search_for (Index_init sonnets) token h = Returns results h'.
Proof.
  intros Hnd.
  pose proof (Index_search_for_error (Index_init sonnets) token h) as Herr.
  destruct (Index_search_for (Index_init sonnets) token h) as [results h'|e];
    [by eexists _, _|].
  exfalso. unfold lookup_error, lookup_postings in Herr.
  case_decide; [done|].
  destruct (dict_get (normalized_stem_token token)
              (index_dictionary (Index_init sonnets))) as [pl|] eqn:Eg;
    [| done].
  simpl in Herr. rewrite docs_error_known in Herr; [done|].
  by apply (Index_init_known sonnets Hnd _ _ Eg).
Qed.
End total.

Section search_total.
Context `{Stemmer}.

Lemma search_word_returns (sonnets : list Sonnet) (search_mode : string)
    (combined_results : dict Z SearchResult) (word : string) (h : store) :
  NoDup (sonnet_id <$> sonnets) -> NoDup (dict_keys combined_results) ->
  exists combined_results' h',
    search_word (Searcher_init sonnets) search_mode combined_results word h
    = Returns combined_results' h'
    /\ NoDup (dict_keys combined_results').
Proof.
  intros Hids Hnd. unfold search_word, bind. simpl.
  set (token := normalized_stem_token word).
  pose proof (Index_search_for_ok (Index_init sonnets) token h) as Hok.
  destruct (Index_search_for_returns sonnets token h Hids)
    as (results & h1 & Hrun).
  rewrite Hrun in Hok |- *. destruct Hok as [Hok _].
  apply lookup_counts in Hok as [Hndr _].
  destruct combined_results as [|e c]; [by eexists _, _|].
  case_decide.
  - destruct (search_or_spec (e :: c) results h1 Hnd Hndr)
      as (c' & h' & -> & Hnd' & _).
    by eexists _, _.
  - destruct (search_and_spec (e :: c) results h1 Hnd)
      as (c' & h' & -> & Hnd' & _).
    by eexists _, _.
Qed.

(** On a corpus whose documents have different ids, the search returns,
    for every query and mode. *)
Lemma Searcher_search_returns (sonnets : list Sonnet)
    (query search_mode : string) (h : store) :
  NoDup (sonnet_id <$> sonnets) ->
  exists results h',
    Searcher_search (Searcher_init sonnets) query search_mode h
    = Returns results h'.
Proof.
  intros Hids. unfold Searcher_search, search_combined, bind.
  assert (Hloop : forall words combined_results h0,
            NoDup (dict_keys combined_results) ->
            exists combined_results' h',
              for_each words (search_word (Searcher_init sonnets) search_mode)
                combined_results h0
              = Returns combined_results' h').
  { induction words as [|word words IH]; intros c h0 Hnd;
      [by eexists _, _|].
    rewrite for_each_cons.
    destruct (search_word_returns sonnets search_mode c word h0 Hids Hnd)
      as (c1 & h1 & -> & Hnd1).
    by apply IH. }
  destruct (Hloop (split query) [] h) as (c & h' & ->); [constructor|].
  by eexists _, _.
Qed.
End search_total.

(** ** [Sonnet.find_spans] *)

Lemma find_spans_loop (text pattern : string) (l : list Z) :
  forall acc : list span,
    fold_left
      (fun spans i =>
         if decide (slice text i (i + len pattern) = pattern)
         then spans ++ [(i, i + len pattern)]
         else spans)
      l acc
    = acc ++ ((fun i => (i, i + len pattern))
                <$> filter (fun i => slice text i (i + len pattern) = pattern)
                      l).
Proof.
  induction l as [|i l IH]; intros acc; simpl.
  - by rewrite app_nil_r.
  - rewrite IH, filter_cons. case_decide; [| done].
    by rewrite fmap_cons, <- app_assoc.
Qed.

Lemma find_spans_filter (text pattern : string) :
  pattern <> "" ->
  find_spans text pattern
  = (fun i => (i, i + len pattern))
      <$> filter (fun i => slice text i (i + len pattern) = pattern)
            (range (len text - len pattern + 1)).
Proof.
  intros Hne. unfold find_spans. rewrite decide_False by done.
  by rewrite find_spans_loop.
Qed.

Lemma StronglySorted_sublist {A} (R : relation A) (l1 l2 : list A) :
  l1 `sublist_of` l2 -> StronglySorted R l2 -> StronglySorted R l1.
Proof.
  intros Hsub Hs. revert l1 Hsub.
  induction Hs as [|x l2 Hs IH Hx]; intros l1 Hsub.
  - apply sublist_nil_r in Hsub as ->. constructor.
  - apply sublist_cons_r in Hsub as [Hsub | (l' & -> & Hsub)]; [by apply IH|].
    constructor; [by apply IH|].
    rewrite Forall_forall in Hx |- *. intros y Hy. apply Hx.
    by apply (sublist_subseteq _ _ Hsub).
Qed.

Lemma seqZ_sorted (n : nat) (m : Z) :
  StronglySorted Z.lt (seqZ m (Z.of_nat n)).
Proof.
  revert m. induction n as [|n IH]; intros m.
  - rewrite seqZ_nil by lia. constructor.
  - rewrite seqZ_cons by lia.
    replace (Z.pred (Z.of_nat (S n))) with (Z.of_nat n) by lia.
    constructor; [apply IH|].
    apply Forall_forall. intros k Hk%elem_of_seqZ. lia.
Qed.

(** X1: [find_spans] returns, in increasing order of start, the span of
    every position at which the pattern occurs in the text, overlapping
    occurrences included, and nothing else; the empty pattern has no
    spans. *)
Theorem find_spans_all_occurrences (text pattern : string) :
  find_spans text "" = []
  /\ (pattern <> "" ->
      (forall s e,
         (s, e) ∈ find_spans text pattern
         <-> 0 <= s /\ e = s + len pattern /\ e <= len text
             /\ slice text s e = pattern)
      /\ StronglySorted (fun a b : span => a.1 < b.1)
           (find_spans text pattern)).
Proof.
  split; [done|]. intros Hne. rewrite find_spans_filter by done. split.
  - intros s e. rewrite list_elem_of_fmap. split.
    + intros (i & [= -> ->] & Hi). apply list_elem_of_filter in Hi as [Hs Hi].
      unfold range in Hi. apply elem_of_seqZ in Hi.
      split_and!; [lia | done | lia | done].
    + intros (Hs & -> & He & Hslice). exists s. split; [done|].
      apply list_elem_of_filter. split; [done|].
      unfold range. apply elem_of_seqZ. lia.
  - unfold range.
    destruct (decide (0 <= len text - len pattern + 1)) as [Hn|Hn];
      [| rewrite seqZ_nil by lia; constructor].
    rewrite <- (Z2Nat.id (len text - len pattern + 1)) by done.
    pose proof (seqZ_sorted (Z.to_nat (len text - len pattern + 1)) 0) as Hs.
    apply (StronglySorted_sublist _ _ _
             (sublist_filter
                (fun i => slice text i (i + len pattern) = pattern) _)) in Hs.
    revert Hs.
    generalize (filter (fun i => slice text i (i + len pattern) = pattern)
                  (seqZ 0 (Z.of_nat (Z.to_nat (len text - len pattern + 1))))).
    intros l Hs. induction Hs as [|x l Hs IH Hx]; simpl; constructor; [done|].
    apply Forall_fmap. eapply Forall_impl; [exact Hx|]. by intros y Hy.
Qed.

Lemma find_spans_all_occurrences_witness :
  (3, 6) ∈ find_spans "banana" "ana".
Proof.
  apply (proj2 (find_spans_all_occurrences "banana" "ana"));
    [discriminate|].
  by split_and!.
Defined.

Example find_spans_overlap : find_spans "banana" "ana" = [(1, 4); (3, 6)].
Proof. reflexivity. Qed.

(** ** [normalize_token] *)

Lemma lower_char_idemp (c : ascii) : lower_char (lower_char c) = lower_char c.
Proof. by destruct c as [[] [] [] [] [] [] [] []]. Qed.

Lemma chars_remove_char (x : ascii) (s : string) :
  chars (remove_char x s) = filter (fun c => c <> x) (chars s).
Proof. unfold remove_char. by rewrite chars_str. Qed.

Lemma chars_lower (s : string) : chars (lower s) = lower_char <$> chars s.
Proof. unfold lower. by rewrite chars_str. Qed.

Lemma chars_normalize_token (token : string) :
  chars (normalize_token token)
  = filter (fun c => c ∉ ["'"%char; ","%char; "."%char])
      (lower_char <$> chars token).
Proof.
  unfold normalize_token. rewrite !chars_remove_char, chars_lower.
  rewrite !list_filter_filter. apply filter_ext_in. intros c _.
  rewrite !not_elem_of_cons. pose proof (not_elem_of_nil c). tauto.
Qed.

(** X2: [normalize_token] leaves no apostrophe, comma or period and no
    character that [lower] would change, and normalizing a second time
    changes nothing. *)
Theorem normalize_token_idempotent (token : string) :
  normalize_token (normalize_token token) = normalize_token token
  /\ Forall (fun c => (c ∉ ["'"%char; ","%char; "."%char])
                      /\ lower_char c = c)
       (chars (normalize_token token)).
Proof.
  assert (Hall : Forall (fun c => (c ∉ ["'"%char; ","%char; "."%char])
                                  /\ lower_char c = c)
                   (chars (normalize_token token))).
  { rewrite chars_normalize_token. apply Forall_forall.
    intros c [Hc Hin]%list_elem_of_filter. split; [done|].
    apply list_elem_of_fmap in Hin as (c0 & -> & _). apply lower_char_idemp. }
  split; [| done].
  rewrite <- (str_chars (normalize_token (normalize_token token))).
  rewrite <- (str_chars (normalize_token token)) at 2. f_equal.
  rewrite chars_normalize_token.
  induction Hall as [|c l [Hc Hl] Hall IH]; [done|].
  rewrite fmap_cons, filter_cons, Hl, decide_True by done. by rewrite IH.
Qed.

Example normalize_token_example : normalize_token "Summer's," = "summers".
Proof. reflexivity. Qed.

(** ** The tokens and the text *)

Lemma finditer_nonspace_concat (n : nat) :
  forall (pos : Z) (cs : list ascii),
    (length cs <= n)%nat ->
    concat (chars <$> (finditer_nonspace n pos cs).*1)
    = filter (fun c => isspace c = false) cs.
Proof.
  induction n as [|n IH]; intros pos cs Hn.
  { by destruct cs; [| simpl in Hn; lia]. }
  destruct (skip_space_split cs) as (ws & Ecs & Hws & Hhd).
  assert (Hfws : filter (fun c => isspace c = false) ws = []).
  { clear -Hws. induction Hws as [|c ws Hc _ IH]; [done|].
    rewrite filter_cons, decide_False by congruence. done. }
  assert (Hf : filter (fun c => isspace c = false) cs
               = filter (fun c => isspace c = false) (skip_space cs)).
  { rewrite Ecs at 1. by rewrite filter_app, Hfws. }
  assert (Hlen : (length (skip_space cs) <= length cs)%nat).
  { rewrite Ecs at 2. rewrite length_app. lia. }
  rewrite Hf. simpl.
  destruct (skip_space cs) as [|c r] eqn:Erest; simpl; [done|].
  rewrite Hhd.
  destruct (nonspace_run_split (c :: r)) as (Esplit & Hrun & Hnext).
  rewrite (nonspace_run_nonempty c r Hhd) in Esplit, Hrun. simpl in Esplit.
  change (String c (str (nonspace_run r))) with (str (c :: nonspace_run r)).
  rewrite !fmap_cons. cbn [concat fst]. rewrite chars_str.
  rewrite filter_cons, decide_True by done.
  rewrite <- app_comm_cons. f_equal.
  rewrite IH.
  - injection Esplit as Er.
    transitivity (filter (fun c0 => isspace c0 = false)
                    (nonspace_run r ++ drop (length (nonspace_run r)) r));
      [| by rewrite <- Er].
    rewrite filter_app. f_equal.
    apply Forall_cons in Hrun as [_ Hrun]. clear -Hrun.
    induction Hrun as [|x l Hx _ IH]; [done|].
    by rewrite filter_cons, decide_True, <- IH by done.
  - rewrite length_drop. simpl in Hlen. lia.
Qed.

(** X3: the tokens of a text, one after the other, are the characters of
    the text that are not whitespace, in order: the tokenizer drops
    whitespace and nothing else. *)
Theorem tokenize_keeps_nonspace (text : string) :
  concat (chars <$> (tokenize text).*1)
  = filter (fun c => isspace c = false) (chars text).
Proof.
  unfold tokenize. apply finditer_nonspace_concat. by rewrite length_chars.
Qed.

(** ** The endpoints of the merged spans *)

(** X4: the merge of spans gives at most as many spans as it is given,
    and none only for none; the start of every merged span is the start
    of a given span and its end the end of a given span; and every given
    span lies inside one merged span. *)
Theorem merge_spans_endpoints (spans : list span) :
  (length (merge_spans spans) <= length spans)%nat
  /\ (merge_spans spans = [] <-> spans = [])
  /\ Forall (fun x : span => x.1 ∈ spans.*1 /\ x.2 ∈ spans.*2)
       (merge_spans spans)
  /\ Forall (fun y : span =>
               exists x, x ∈ merge_spans spans /\ x.1 <= y.1 /\ y.2 <= x.2)
       spans.
Proof.
  rewrite merge_spans_run.
  pose proof (sorted_Sorted span_leb span_leb_total spans) as Hs.
  pose proof (sorted_perm span_leb spans) as Hperm.
  destruct (sorted span_leb spans) as [|[s0 e0] rest] eqn:E.
  - apply Permutation_nil_l in Hperm as <-. by split_and!.
  - destruct (merge_run_endpoints rest s0 e0) as [Hall Hlen].
    pose proof (merge_run_contains rest s0 e0 Hs) as Hin.
    split_and!.
    + rewrite <- Hperm. simpl. lia.
    + split.
      * destruct (merge_run_head s0 e0 rest) as (e' & tl & Eh & _).
        by rewrite Eh.
      * intros ->. by apply Permutation_nil_r in Hperm.
    + eapply Forall_impl; [exact Hall|]. intros x [H1 H2].
      rewrite <- Hperm. by rewrite !fmap_cons.
    + by rewrite <- Hperm.
Qed.

Example merge_spans_inside :
  merge_spans [(4, 6); (0, 9); (2, 3); (12, 12)] = [(0, 9); (12, 12)].
Proof. reflexivity. Qed.

(** ** Tokens and occurrences *)

Lemma token_at_bound (text tok : list ascii) (k : nat) :
  token_at text tok k -> (k + length tok <= length text)%nat.
Proof.
  intros (Hne & _ & Htake & _ & _).
  apply (f_equal length) in Htake.
  rewrite length_take, length_drop in Htake.
  assert (length tok <> 0%nat) by (by destruct tok).
  lia.
Qed.

Lemma tokenize_tokens (text token : string) (offset : Z) :
  (token, offset) ∈ tokenize text ->
  exists k : nat, offset = Z.of_nat k /\ token_at (chars text) (chars token) k.
Proof.
  intros Hin.
  destruct (finditer_nonspace_tokens (String.length text) [] (chars text))
    as [Htok _]; [by rewrite length_chars | by left |].
  rewrite Forall_forall in Htok. apply Htok in Hin as (k & -> & _ & Hat).
  by exists k.
Qed.

(** X5: every token of a text is found by [find_spans]: the span from
    the offset of the token to its end is among the occurrences of the
    token in the text. *)
Theorem tokenize_find_spans (text token : string) (offset : Z) :
  (token, offset) ∈ tokenize text ->
  (offset, offset + len token) ∈ find_spans text token.
Proof.
  intros (k & -> & Hat)%tokenize_tokens.
  pose proof (token_at_bound _ _ _ Hat) as Hb.
  pose proof (token_at_slice _ _ _ Hat) as Hs.
  destruct Hat as (Hne & _).
  assert (Htok : token <> "") by (by intros ->).
  rewrite find_spans_filter by done.
  apply list_elem_of_fmap. exists (Z.of_nat k). split; [done|].
  apply list_elem_of_filter. split; [done|].
  unfold range. apply elem_of_seqZ. unfold len.
  rewrite <- !length_chars. lia.
Qed.

Lemma tokenize_find_spans_witness :
  (11, 11 + len "compare") ∈ find_spans "  Shall I  compare thee " "compare".
Proof.
  apply (tokenize_find_spans "  Shall I  compare thee " "compare" 11).
  vm_compute. do 2 right. by left.
Defined.

(** ** A query without words *)

Lemma tokenize_blank (text : string) :
  Forall (fun c => isspace c = true) (chars text) -> tokenize text = [].
Proof.
  intros Hall.
  pose proof (finditer_nonspace_concat (String.length text) 0 (chars text))
    as Hcat.
  rewrite length_chars in Hcat. specialize (Hcat (le_n _)).
  fold (tokenize text) in Hcat.
  assert (Hnil : filter (fun c => isspace c = false) (chars text) = []).
  { clear Hcat. induction Hall as [|c cs Hc _ IH]; [done|].
    rewrite filter_cons, decide_False by congruence. done. }
  rewrite Hnil in Hcat.
  destruct (tokenize text) as [|[token offset] l] eqn:E; [done|].
  assert (Hin : (token, offset) ∈ tokenize text) by (rewrite E; by left).
  apply tokenize_tokens in Hin as (k & _ & Hne & _).
  rewrite fmap_cons in Hcat. simpl in Hcat.
  by destruct (chars token).
Qed.

(** X6: a query that holds whitespace only, or nothing at all, has no
    words: the search returns the empty list in every mode and from
    every index, and the store of the span lists of line matches is
    afterwards as it was before: none is created, none is changed. *)
Theorem search_blank_query `{Stemmer} (self : Searcher)
    (query search_mode : string) (h : store) :
  Forall (fun c => isspace c = true) (chars query) ->
  Searcher_search self query search_mode h = Returns [] h.
Proof.
  intros Hall. unfold Searcher_search, search_combined, split, bind.
  by rewrite tokenize_blank.
Qed.

Lemma search_blank_query_witness :
  Searcher_search (H := identity_stemmer)
    (Searcher_init (H := identity_stemmer) corpus)
    "   " "AND" []
  = Returns [] [].
Proof.
  apply (search_blank_query (H := identity_stemmer)).
  repeat constructor.
Defined.

(** ** What the index holds *)

Lemma postings_at_add_token
    (dictionary : dict string (dict Z (list Posting)))
    (doc_id : Z) (stem : string) (line_no : option Z) (position : Z)
    (token : string) (stem' : string) (doc_id' : Z) :
  postings_at (_add_token dictionary doc_id stem line_no position token)
    stem' doc_id'
  = postings_at dictionary stem' doc_id'
      ++ (if decide (stem' = stem /\ doc_id' = doc_id)
          then [{| posting_line_no := line_no;
                   posting_position := position;
                   posting_original_token := token |}]
          else []).
Proof.
  unfold postings_at, _add_token. rewrite dict_get_set.
  destruct (decide (stem' = stem)) as [->|Hs].
  - simpl. rewrite dict_get_set.
    destruct (decide (doc_id' = doc_id)) as [->|Hd].
    + rewrite decide_True by done. simpl.
      by destruct (dict_get stem dictionary).
    + rewrite decide_False by tauto. rewrite app_nil_r.
      by destruct (dict_get stem dictionary).
  - rewrite decide_False by tauto. by rewrite app_nil_r.
Qed.

Lemma dict_set_not_nil {K V} `{EqDecision K} (k : K) (v : V) (d : dict K V) :
  dict_set k v d <> [].
Proof. destruct d as [|[k' v'] d]; simpl; [done|]. by case_decide. Qed.

Lemma _add_token_full (dictionary : dict string (dict Z (list Posting)))
    (doc_id : Z) (stem : string) (line_no : option Z) (position : Z)
    (token : string) :
  dictionary_full dictionary ->
  dictionary_full (_add_token dictionary doc_id stem line_no position token).
Proof.
  intros Hfull s by_doc. unfold _add_token. rewrite dict_get_set.
  case_decide as E; [| apply Hfull]. intros [= <-].
  split; [apply dict_set_not_nil|].
  apply Forall_dict_set; [| by destruct (default [] _)].
  destruct (dict_get stem dictionary) as [postings|] eqn:Eg; simpl;
    [| constructor].
  by apply (Hfull stem).
Qed.

Section index_content.
Context `{Stemmer}.

Lemma postings_at_add_tokens (doc_id : Z) (line_no : option Z)
    (text : string) (dictionary : dict string (dict Z (list Posting)))
    (stem : string) (doc_id' : Z) :
  stem <> "" ->
  postings_at (add_tokens doc_id line_no text dictionary) stem doc_id'
  = postings_at dictionary stem doc_id'
      ++ (if decide (doc_id' = doc_id)
          then text_postings stem line_no text else []).
Proof.
  intros Hstem. unfold add_tokens, text_postings.
  generalize (tokenize text). intros l. revert dictionary.
  induction l as [|[token pos] l IH]; intros dictionary; simpl.
  - case_decide; by rewrite app_nil_r.
  - rewrite IH. rewrite filter_cons. simpl.
    destruct (decide (normalized_stem_token token = "")) as [E|E].
    + destruct (decide (normalized_stem_token token = stem)); [congruence|].
      done.
    + rewrite postings_at_add_token, <- app_assoc. f_equal.
      destruct (decide (normalized_stem_token token = stem)) as [E'|E'].
      * destruct (decide (doc_id' = doc_id)) as [->|Hd].
        -- rewrite decide_True by done. done.
        -- rewrite decide_False by tauto. done.
      * destruct (decide (stem = normalized_stem_token token /\ _))
          as [[? _]|_]; [congruence|].
        by destruct (decide (doc_id' = doc_id)).
Qed.

Lemma postings_at_add_tokens_empty (doc_id : Z) (line_no : option Z)
    (text : string) (dictionary : dict string (dict Z (list Posting)))
    (doc_id' : Z) :
  postings_at (add_tokens doc_id line_no text dictionary) "" doc_id'
  = postings_at dictionary "" doc_id'.
Proof.
  unfold add_tokens. generalize (tokenize text). intros l. revert dictionary.
  induction l as [|[token pos] l IH]; intros dictionary; simpl; [done|].
  rewrite IH. case_decide as E; [done|].
  rewrite postings_at_add_token, decide_False by (intros [? _]; congruence).
  by rewrite app_nil_r.
Qed.

Lemma add_tokens_full (doc_id : Z) (line_no : option Z) (text : string)
    (dictionary : dict string (dict Z (list Posting))) :
  dictionary_full dictionary ->
  dictionary_full (add_tokens doc_id line_no text dictionary).
Proof.
  unfold add_tokens. generalize (tokenize text). intros l. revert dictionary.
  induction l as [|[token pos] l IH]; intros dictionary Hok; simpl; [done|].
  apply IH. case_decide; [done|]. by apply _add_token_full.
Qed.

Lemma postings_at_add_lines (doc_id : Z) (stem : string) (doc_id' : Z)
    (l : list (Z * string)) :
  forall dictionary : dict string (dict Z (list Posting)),
    postings_at
      (fold_left
         (fun dictionary '(line_no, line) =>
            add_tokens doc_id (Some line_no) line dictionary)
         l dictionary) stem doc_id'
    = postings_at dictionary stem doc_id'
        ++ (if decide (stem <> "" /\ doc_id' = doc_id)
            then concat ((fun e : Z * string =>
                            text_postings stem (Some e.1) e.2) <$> l)
            else []).
Proof.
  induction l as [|[line_no line] l IH]; intros dictionary.
  - simpl. case_decide; by rewrite app_nil_r.
  - cbn [fold_left]. rewrite IH. destruct (decide (stem = "")) as [->|Hstem].
    + rewrite postings_at_add_tokens_empty.
      by repeat case_decide; try tauto.
    + rewrite postings_at_add_tokens, <- app_assoc by done. f_equal.
      rewrite fmap_cons. cbn [concat fst snd].
      repeat case_decide; try tauto; done.
Qed.

Lemma postings_at_add_sonnet
    (dictionary : dict string (dict Z (list Posting))) (sonnet : Sonnet)
    (stem : string) (doc_id : Z) :
  postings_at (add_sonnet dictionary sonnet) stem doc_id
  = postings_at dictionary stem doc_id
      ++ (if decide (stem <> "" /\ doc_id = sonnet_id sonnet)
          then sonnet_postings stem sonnet else []).
Proof.
  unfold add_sonnet, sonnet_postings. rewrite postings_at_add_lines.
  destruct (decide (stem = "")) as [->|Hstem].
  - rewrite postings_at_add_tokens_empty.
    by repeat case_decide; try tauto.
  - rewrite postings_at_add_tokens, <- app_assoc by done. f_equal.
    repeat case_decide; try tauto; done.
Qed.

Lemma add_sonnet_full (dictionary : dict string (dict Z (list Posting)))
    (sonnet : Sonnet) :
  dictionary_full dictionary -> dictionary_full (add_sonnet dictionary sonnet).
Proof.
  intros Hok. unfold add_sonnet.
  generalize (enumerate 1 (sonnet_lines sonnet)). intros l.
  assert (Hok' : dictionary_full
                   (add_tokens (sonnet_id sonnet) None
                      (sonnet_title sonnet) dictionary))
    by by apply add_tokens_full.
  revert Hok'. generalize (add_tokens (sonnet_id sonnet) None
                             (sonnet_title sonnet) dictionary).
  induction l as [|[line_no line] l IH]; intros d Hd; simpl; [done|].
  apply IH. by apply add_tokens_full.
Qed.

Lemma Index_init_full (sonnets : list Sonnet) :
  dictionary_full (index_dictionary (Index_init sonnets)).
Proof.
  simpl. assert (Hnil : dictionary_full []) by (by intros s by_doc).
  revert Hnil. generalize ([] : dict string (dict Z (list Posting))).
  induction sonnets as [|sonnet sonnets IH]; intros d Hd; simpl; [done|].
  apply IH. by apply add_sonnet_full.
Qed.

Lemma Index_init_postings (sonnets : list Sonnet) (stem : string)
    (doc_id : Z) :
  postings_at (index_dictionary (Index_init sonnets)) stem doc_id
  = if decide (stem = "") then []
    else concat (sonnet_postings stem
                   <$> filter (fun s => sonnet_id s = doc_id) sonnets).
Proof.
  simpl.
  assert (Hgen : forall d,
            postings_at (fold_left add_sonnet sonnets d) stem doc_id
            = postings_at d stem doc_id
                ++ (if decide (stem = "") then []
                    else concat (sonnet_postings stem
                           <$> filter (fun s => sonnet_id s = doc_id)
                                 sonnets))).
  { induction sonnets as [|sonnet sonnets IH]; intros d; simpl.
    - case_decide; by rewrite app_nil_r.
    - rewrite IH, postings_at_add_sonnet, <- app_assoc. f_equal.
      rewrite filter_cons.
      repeat case_decide; try tauto; try (intuition congruence); done. }
  by rewrite Hgen.
Qed.

End index_content.

(** X7: the postings that the index holds for a stem and a document id
    are the occurrences of the stem in the documents of that id, one
    document after the other in the order of the corpus: no token with
    that stem is left out, none is added, and the empty stem has no
    postings.  A key of the dictionary stands for at least one document,
    and a document of a stem for at least one posting. *)
Theorem index_holds_occurrences `{Stemmer} (sonnets : list Sonnet)
    (stem : string) (doc_id : Z) :
  postings_at (index_dictionary (Index_init sonnets)) stem doc_id
  = (if decide (stem = "") then []
     else concat (sonnet_postings stem
                    <$> filter (fun s => sonnet_id s = doc_id) sonnets))
  /\ dictionary_full (index_dictionary (Index_init sonnets))
  /\ (dict_get stem (index_dictionary (Index_init sonnets)) = None
      <-> forall id,
            postings_at (index_dictionary (Index_init sonnets)) stem id
            = []).
Proof.
  split_and!; [apply Index_init_postings | apply Index_init_full |].
  pose proof (Index_init_full sonnets) as Hfull.
  unfold postings_at. split; [by intros ->|]. intros Hall.
  destruct (dict_get stem (index_dictionary (Index_init sonnets)))
    as [by_doc|] eqn:Eg; [| done].
  destruct (Hfull _ _ Eg) as [Hne Hps].
  destruct by_doc as [|[id ps] by_doc]; [done|].
  specialize (Hall id). simpl in Hall. rewrite decide_True in Hall by done.
  apply Forall_cons in Hps as [Hps _]. by simpl in *.
Qed.

Example index_holds_occurrences_example :
  postings_at (index_dictionary (Index_init (H := plural_stemmer) corpus))
    "summer" 1
  = sonnet_postings (H := plural_stemmer) "summer" sonnet1.
Proof. reflexivity. Qed.

(** ** The documents of the index *)

Lemma fold_dict_set_last (sonnets : list Sonnet) (id : Z) :
  forall d : dict Z Sonnet,
    dict_get id
      (fold_left (fun d sonnet => dict_set (sonnet_id sonnet) sonnet d)
         sonnets d)
    = match last (filter (fun s => sonnet_id s = id) sonnets) with
      | Some s => Some s
      | None => dict_get id d
      end.
Proof.
  induction sonnets as [|s sonnets IH]; intros d; simpl; [done|].
  rewrite IH, filter_cons, dict_get_set.
  destruct (decide (sonnet_id s = id)) as [E|E].
  - rewrite last_cons.
    destruct (last (filter _ sonnets)); [done|].
    by rewrite decide_True.
  - destruct (last (filter _ sonnets)); [done|].
    by rewrite decide_False.
Qed.

Lemma fold_dict_set_NoDup (sonnets : list Sonnet) :
  forall d : dict Z Sonnet,
    NoDup (dict_keys d) ->
    NoDup (dict_keys
             (fold_left (fun d sonnet => dict_set (sonnet_id sonnet) sonnet d)
                sonnets d)).
Proof.
  induction sonnets as [|s sonnets IH]; intros d Hd; simpl; [done|].
  by apply IH, dict_set_NoDup.
Qed.

Lemma last_filter_Some {A} (P : A -> Prop) `{!forall x, Decision (P x)}
    (l : list A) :
  is_Some (last (filter P l)) <-> exists x, x ∈ l /\ P x.
Proof.
  split.
  - intros [x Hx]. exists x. apply last_Some_elem_of in Hx.
    by apply list_elem_of_filter in Hx as [? ?].
  - intros (x & Hin & HP).
    assert (Hf : x ∈ filter P l) by (by apply list_elem_of_filter).
    destruct (filter P l) as [|y k] using rev_ind; [by inversion Hf|].
    rewrite last_snoc. by eexists.
Qed.

(** X8: the documents of the index are kept by id: under an id the
    index has the last document of the corpus with that id, so it knows
    the ids of the corpus and no others, each once; the searcher counts
    every document of the corpus, and that is the number of documents of
    the index exactly when no two documents share an id. *)
Theorem index_keeps_last_document `{Stemmer} (sonnets : list Sonnet) :
  (forall id,
     dict_get id (index_sonnets (Index_init sonnets))
     = last (filter (fun s => sonnet_id s = id) sonnets))
  /\ NoDup (dict_keys (index_sonnets (Index_init sonnets)))
  /\ (forall id, id ∈ dict_keys (index_sonnets (Index_init sonnets))
                 <-> id ∈ sonnet_id <$> sonnets)
  /\ searcher_total_sonnets (Searcher_init sonnets)
     = Z.of_nat (length sonnets)
  /\ (length (index_sonnets (searcher_index (Searcher_init sonnets)))
      <= length sonnets)%nat
  /\ (length (index_sonnets (searcher_index (Searcher_init sonnets)))
      = length sonnets
      <-> NoDup (sonnet_id <$> sonnets)).
Proof.
  assert (Hget : forall id,
            dict_get id (index_sonnets (Index_init sonnets))
            = last (filter (fun s => sonnet_id s = id) sonnets)).
  { intros id. simpl. rewrite fold_dict_set_last.
    by destruct (last (filter _ sonnets)). }
  assert (Hnd : NoDup (dict_keys (index_sonnets (Index_init sonnets))))
    by (apply fold_dict_set_NoDup; constructor).
  assert (Hkeys : forall id,
            id ∈ dict_keys (index_sonnets (Index_init sonnets))
            <-> id ∈ sonnet_id <$> sonnets).
  { intros id. rewrite list_elem_of_fmap.
    destruct (dict_get id (index_sonnets (Index_init sonnets))) eqn:E.
    - split.
      + intros _. rewrite Hget in E.
        destruct (proj1 (last_filter_Some (fun s => sonnet_id s = id)
                           sonnets)) as (x & Hx & Hid); [by eexists|].
        by exists x.
      + intros _.
        destruct (decide (id ∈ dict_keys
                            (index_sonnets (Index_init sonnets))))
          as [Hin|Hnot]; [done|].
        assert (Hnone : dict_get id (index_sonnets (Index_init sonnets))
                        = None) by (by apply dict_get_None).
        congruence.
    - split.
      + intros Hin. exfalso. revert Hin. by apply dict_get_None.
      + intros (x & Hid & Hx). rewrite Hget in E.
        destruct (proj2 (last_filter_Some (fun s => sonnet_id s = id)
                           sonnets)) as [y Hy]; [by exists x|].
        congruence. }
  assert (Hsub : dict_keys (index_sonnets (Index_init sonnets))
                   ⊆+ sonnet_id <$> sonnets).
  { apply NoDup_submseteq; [done|]. intros id. apply Hkeys. }
  split_and!; [done.. | |].
  - apply submseteq_length in Hsub.
    unfold dict_keys in Hsub. rewrite !length_fmap in Hsub. done.
  - simpl searcher_index. split.
    + intros Hlen. rewrite <- (submseteq_length_Permutation _ _ Hsub); [done|].
      unfold dict_keys. rewrite !length_fmap. lia.
    + intros Hids.
      assert (Hperm : dict_keys (index_sonnets (Index_init sonnets))
                        ≡ₚ sonnet_id <$> sonnets)
        by (by apply NoDup_Permutation).
      apply Permutation_length in Hperm.
      unfold dict_keys in Hperm. by rewrite !length_fmap in Hperm.
Qed.

Example index_keeps_last_document_example :
  let twin := {| sonnet_title := "Sonnet 1: Twin"; sonnet_lines := [];
                 sonnet_id := 1 |} in
  dict_get 1
    (index_sonnets (Index_init (H := identity_stemmer) [sonnet1; twin]))
  = Some twin.
Proof. reflexivity. Qed.

(** ** The occurrences behind the postings *)

Lemma enumerate_elem {A} (l : list A) :
  forall (start ln : Z) (x : A),
    (ln, x) ∈ enumerate start l
    <-> start <= ln /\ l !! Z.to_nat (ln - start) = Some x.
Proof.
  intros start ln x. split; [apply enumerate_index|].
  revert start. induction l as [|y l IH]; intros start [Hle Hl]; simpl.
  - by rewrite lookup_nil in Hl.
  - destruct (decide (ln = start)) as [->|Hne].
    + rewrite Z.sub_diag in Hl. injection Hl as ->. by left.
    + right. apply IH. split; [lia|].
      replace (Z.to_nat (ln - start)) with (S (Z.to_nat (ln - (start + 1))))
        in Hl by lia.
      done.
Qed.

Lemma line_at_Some (sonnet : Sonnet) (ln : Z) (line : string) :
  line_at sonnet ln = Some line
  <-> (ln, line) ∈ enumerate 1 (sonnet_lines sonnet).
Proof.
  rewrite enumerate_elem. unfold line_at.
  destruct (1 <=? ln) eqn:E; [| split; [done | lia]].
  split; [intros ?; split; [lia | done] | by intros [_ ?]].
Qed.

Lemma line_at_index (sonnet : Sonnet) (ln : Z) (line : string) :
  line_at sonnet ln = Some line ->
  index_list (sonnet_lines sonnet) (ln - 1) = Some line.
Proof.
  unfold line_at, index_list. destruct (1 <=? ln) eqn:E; [| done].
  by destruct (ln - 1 <? 0) eqn:E'; [lia|].
Qed.

Lemma elem_of_concat {A} (x : A) (ls : list (list A)) :
  x ∈ concat ls <-> exists l, x ∈ l /\ l ∈ ls.
Proof.
  induction ls as [|l ls IH]; simpl.
  - split; [by intros ?%elem_of_nil | by intros (l & _ & ?%elem_of_nil)].
  - rewrite elem_of_app, IH. split.
    + intros [Hx | (l' & Hx & Hl)].
      * exists l. split; [done | by left].
      * exists l'. split; [done | by right].
    + intros (l' & Hx & [-> | Hl]%elem_of_cons); [by left|].
      right. by exists l'.
Qed.

Section occurrences.
Context `{Stemmer}.

Lemma elem_of_text_postings (p : Posting) (key : string)
    (line_no : option Z) (text : string) :
  p ∈ text_postings key line_no text
  <-> posting_line_no p = line_no
      /\ (posting_original_token p, posting_position p) ∈ tokenize text
      /\ normalized_stem_token (posting_original_token p) = key.
Proof.
  unfold text_postings. rewrite list_elem_of_fmap. split.
  - intros ([token pos] & -> & Hin). apply list_elem_of_filter in Hin.
    simpl in *.
    tauto.
  - intros (Hln & Hin & Hkey).
    exists (posting_original_token p, posting_position p). split.
    + destruct p. simpl in *. by subst.
    + by apply list_elem_of_filter.
Qed.

Lemma elem_of_sonnet_postings (p : Posting) (key : string)
    (sonnet : Sonnet) :
  p ∈ sonnet_postings key sonnet
  <-> normalized_stem_token (posting_original_token p) = key
      /\ match posting_line_no p with
         | None =>
             (posting_original_token p, posting_position p)
               ∈ tokenize (sonnet_title sonnet)
         | Some ln =>
             exists line,
               line_at sonnet ln = Some line
               /\ (posting_original_token p, posting_position p)
                    ∈ tokenize line
         end.
Proof.
  unfold sonnet_postings. rewrite elem_of_app, elem_of_text_postings.
  rewrite elem_of_concat. split.
  - intros [(Hln & Hin & Hkey) | (l & Hp & Hl)].
    + rewrite Hln. done.
    + apply list_elem_of_fmap in Hl as ([ln line] & -> & Hl). simpl in Hp.
      apply elem_of_text_postings in Hp as (Hln & Hin & Hkey).
      rewrite Hln. split; [done|]. exists line.
      by rewrite line_at_Some.
  - intros [Hkey Hp]. destruct (posting_line_no p) as [ln|] eqn:Eln.
    + destruct Hp as (line & Hline & Hin). right.
      exists (text_postings key (Some ln) line). split.
      * by apply elem_of_text_postings.
      * apply list_elem_of_fmap. exists (ln, line).
        split; [done|]. by apply line_at_Some.
    + by left.
Qed.

Lemma title_spans_of_occurrences (key : string) (sonnet : Sonnet)
    (x : span) :
  x ∈ title_spans_of (sonnet_postings key sonnet)
  <-> stem_span key (sonnet_title sonnet) x.
Proof.
  unfold title_spans_of, stem_span. rewrite list_elem_of_fmap. split.
  - intros (p & -> & Hp). apply list_elem_of_filter in Hp as [Hln Hp].
    apply elem_of_sonnet_postings in Hp as [Hkey Hp]. rewrite Hln in Hp.
    by exists (posting_original_token p).
  - intros (token & Hin & He & Hkey).
    exists {| posting_line_no := None; posting_position := x.1;
              posting_original_token := token |}.
    split; [destruct x; unfold posting_span; simpl in *; by subst|].
    apply list_elem_of_filter. split; [done|].
    by apply elem_of_sonnet_postings.
Qed.

Lemma line_spans_of_occurrences (key : string) (sonnet : Sonnet) (ln : Z)
    (x : span) :
  x ∈ line_spans_of (sonnet_postings key sonnet) ln
  <-> exists line, line_at sonnet ln = Some line /\ stem_span key line x.
Proof.
  unfold line_spans_of, stem_span. rewrite list_elem_of_fmap. split.
  - intros (p & -> & Hp). apply list_elem_of_filter in Hp as [Hln Hp].
    apply elem_of_sonnet_postings in Hp as [Hkey Hp]. rewrite Hln in Hp.
    destruct Hp as (line & Hline & Hin). exists line. split; [done|].
    by exists (posting_original_token p).
  - intros (line & Hline & token & Hin & He & Hkey).
    exists {| posting_line_no := Some ln; posting_position := x.1;
              posting_original_token := token |}.
    split; [destruct x; unfold posting_span; simpl in *; by subst|].
    apply list_elem_of_filter. split; [done|].
    apply elem_of_sonnet_postings. split; [done|]. by exists line.
Qed.

Lemma filter_id_single (sonnets : list Sonnet) (sonnet : Sonnet) :
  NoDup (sonnet_id <$> sonnets) -> sonnet ∈ sonnets ->
  filter (fun s => sonnet_id s = sonnet_id sonnet) sonnets = [sonnet].
Proof.
  induction sonnets as [|s sonnets IH]; intros Hnd Hin; [by inversion Hin|].
  rewrite fmap_cons in Hnd. apply NoDup_cons in Hnd as [Hs Hnd].
  rewrite filter_cons. apply elem_of_cons in Hin as [<- | Hin].
  - rewrite decide_True by done. f_equal.
    destruct (filter _ sonnets) as [|y l] eqn:Ef; [done|].
    assert (Hy : y ∈ filter (fun s => sonnet_id s = sonnet_id sonnet) sonnets)
      by (rewrite Ef; by left).
    apply list_elem_of_filter in Hy as [Hid Hy]. exfalso. apply Hs.
    rewrite <- Hid. by apply list_elem_of_fmap_2.
  - rewrite decide_False; [by apply IH|].
    intros E. apply Hs. rewrite E. by apply list_elem_of_fmap_2.
Qed.

Lemma lookup_postings_indexed (sonnets : list Sonnet) (sonnet : Sonnet)
    (token : string) :
  NoDup (sonnet_id <$> sonnets) -> sonnet ∈ sonnets ->
  postings_for (sonnet_id sonnet)
    (lookup_postings (Index_init sonnets) token)
  = indexed_postings (normalized_stem_token token) sonnet.
Proof.
  intros Hnd Hin. rewrite lookup_postings_own.
  change (own_postings sonnet token (Index_init sonnets))
    with (postings_at (index_dictionary (Index_init sonnets))
            (normalized_stem_token token) (sonnet_id sonnet)).
  rewrite Index_init_postings. unfold indexed_postings.
  case_decide; [done|]. rewrite filter_id_single by done.
  simpl. by rewrite app_nil_r.
Qed.

Lemma lookup_keys_known (sonnets : list Sonnet) (token : string)
    (h h' : store) (results : dict Z SearchResult) (id : Z) :
  Index_search_for (Index_init sonnets) token h = Returns results h' ->
  id ∈ dict_keys results ->
  exists sonnet, sonnet ∈ sonnets /\ sonnet_id sonnet = id.
Proof.
  intros Hrun Hin.
  pose proof (Index_search_for_ok (Index_init sonnets) token h) as Hok.
  rewrite Hrun in Hok. destruct Hok as [Hok _].
  destruct (dict_get id results) as [r|] eqn:Er;
    [| by apply dict_get_None in Er].
  destruct (results_ok_entry _ _ _ _ _ _ Hok Er)
    as (_ & sonnet & Hreg & _).
  simpl in Hreg. rewrite fold_dict_set_last in Hreg.
  destruct (last (filter (fun s => sonnet_id s = id) sonnets)) as [s|] eqn:El;
    [| done].
  injection Hreg as ->. apply last_Some_elem_of in El.
  apply list_elem_of_filter in El as [Hid El]. by exists sonnet.
Qed.

End occurrences.

(** X9: on a corpus whose documents have different ids the index lookup
    returns, with a result for exactly the documents in which the stem of
    the token occurs: the result of a document has its title, counts its
    occurrences, and holds their spans, those of the title as title spans
    and those of a line under the number and the text of that line. *)
Theorem lookup_finds_occurrences `{Stemmer} (sonnets : list Sonnet)
    (token : string) (h : store) :
  NoDup (sonnet_id <$> sonnets) ->
  exists results h',
    Index_search_for (Index_init sonnets) token h = Returns results h'
    /\ (forall id, id ∈ dict_keys results -> id ∈ sonnet_id <$> sonnets)
    /\ forall sonnet, sonnet ∈ sonnets ->
         let ps := indexed_postings (normalized_stem_token token) sonnet in
         match dict_get (sonnet_id sonnet) results with
         | Some r => ps <> [] /\ summary h' sonnet ps r
         | None => ps = []
         end.
Proof.
  intros Hnd.
  destruct (Index_search_for_returns sonnets token h Hnd)
    as (results & h' & Hrun).
  exists results, h'. split_and!; [done | |].
  - intros id Hin.
    destruct (lookup_keys_known sonnets token h h' results id Hrun Hin)
      as (sonnet & Hs & <-).
    by apply list_elem_of_fmap_2.
  - intros sonnet Hin. simpl.
    pose proof (Index_search_for_ok (Index_init sonnets) token h) as Hok.
    rewrite Hrun in Hok. destruct Hok as [(_ & Hent & _) _].
    specialize (Hent (sonnet_id sonnet)).
    rewrite lookup_postings_indexed in Hent by done.
    destruct (dict_get (sonnet_id sonnet) results) as [r|]; [| done].
    destruct Hent as (Hne & sonnet' & Hreg & Hsum). split; [done|].
    simpl in Hreg. rewrite fold_dict_set_get in Hreg by done.
    by injection Hreg as <-.
Qed.

Lemma lookup_finds_occurrences_witness :
  exists results h',
    Index_search_for (H := plural_stemmer)
      (Index_init (H := plural_stemmer) corpus) "Winter" []
    = Returns results h'
    /\ dict_keys results = [2].
Proof.
  destruct (lookup_finds_occurrences (H := plural_stemmer) corpus "Winter" [])
    as (results & h' & Hrun & _).
  { repeat constructor; compute; intros Hin; inversion Hin; subst;
      try discriminate; match goal with H : _ ∈ [] |- _ => inversion H end. }
  exists results, h'. split; [exact Hrun|].
  vm_compute in Hrun. by injection Hrun as <- <-.
Defined.

(** ** The spans of a lookup *)

Lemma filter_line_single (lms : list LineMatch) (lm : LineMatch) :
  NoDup (line_numbers lms) -> lm ∈ lms ->
  filter (fun x => lm_line_no x = lm_line_no lm) lms = [lm].
Proof.
  intros Hnd Hin.
  assert (Hf : lm ∈ filter (fun x => lm_line_no x = lm_line_no lm) lms)
    by (by apply list_elem_of_filter).
  destruct (filter_line_unique lms (lm_line_no lm) Hnd) as [E | [x E]];
    rewrite E in Hf |- *; [by inversion Hf|].
  by apply list_elem_of_singleton in Hf as ->.
Qed.

Lemma summary_line_match (h : store) (sonnet : Sonnet) (ps : list Posting)
    (r : SearchResult) (lm : LineMatch) :
  summary h sonnet ps r -> lm ∈ sr_line_matches r ->
  deref h (lm_spans lm) = line_spans_of ps (lm_line_no lm)
  /\ Some (lm_text lm)
     = (if decide (line_spans_of ps (lm_line_no lm) = []) then None
        else index_list (sonnet_lines sonnet) (lm_line_no lm - 1)).
Proof.
  intros (_ & _ & _ & Hsp & Htx & _ & Hnd & _) Hin.
  specialize (Hsp (lm_line_no lm)). specialize (Htx (lm_line_no lm)).
  unfold spans_at, text_at in *.
  rewrite filter_line_single in Hsp, Htx by done. simpl in *.
  by rewrite app_nil_r in Hsp.
Qed.

(** X10: what a lookup marks, on a corpus whose documents have different
    ids: the title spans of the result of a document are the spans of
    the tokens of its title whose normalized stem is the stem looked up,
    all of them and no others; the spans of a line are those of such
    tokens of that line of the document; and every line match has the
    number and the text of a line of the document, and at least one
    span. *)
Theorem lookup_spans_are_tokens `{Stemmer} (sonnets : list Sonnet)
    (sonnet : Sonnet) (token : string) (h h' : store)
    (results : dict Z SearchResult) (r : SearchResult) :
  NoDup (sonnet_id <$> sonnets) -> sonnet ∈ sonnets ->
  Index_search_for (Index_init sonnets) token h = Returns results h' ->
  dict_get (sonnet_id sonnet) results = Some r ->
  let key := normalized_stem_token token in
  (forall x, x ∈ sr_title_spans r
             <-> stem_span key (sonnet_title sonnet) x)
  /\ (forall ln x,
        x ∈ spans_at h' (sr_line_matches r) ln
        <-> exists line, line_at sonnet ln = Some line
              /\ stem_span key line x)
  /\ Forall (fun lm =>
               line_at sonnet (lm_line_no lm) = Some (lm_text lm)
               /\ deref h' (lm_spans lm) <> []
               /\ forall x, x ∈ deref h' (lm_spans lm)
                            <-> stem_span key (lm_text lm) x)
       (sr_line_matches r).
Proof.
  intros Hnd Hin Hrun Hget key.
  pose proof (Index_search_for_ok (Index_init sonnets) token h) as Hok.
  rewrite Hrun in Hok. destruct Hok as [(_ & Hent & _) _].
  specialize (Hent (sonnet_id sonnet)).
  rewrite lookup_postings_indexed, Hget in Hent by done.
  destruct Hent as (Hne & sonnet' & Hreg & Hsum).
  simpl in Hreg. rewrite fold_dict_set_get in Hreg by done.
  injection Hreg as <-.
  unfold indexed_postings in Hne, Hsum. fold key in Hne, Hsum.
  destruct (decide (key = "")) as [|Hkey]; [done|].
  assert (Hlines : forall ln x,
            x ∈ spans_at h' (sr_line_matches r) ln
            <-> exists line, line_at sonnet ln = Some line
                  /\ stem_span key line x).
  { intros ln x. destruct Hsum as (_ & _ & _ & Hsp & _).
    by rewrite Hsp, line_spans_of_occurrences. }
  split_and!; [| done |].
  - intros x. destruct Hsum as (_ & _ & Hts & _).
    by rewrite Hts, title_spans_of_occurrences.
  - apply Forall_forall. intros lm Hlm.
    destruct (summary_line_match _ _ _ _ _ Hsum Hlm) as [Hsp Htx].
    destruct (deref h' (lm_spans lm)) as [|x l] eqn:Ed.
    { rewrite <- Hsp in Htx. by rewrite decide_True in Htx. }
    assert (Hx : x ∈ line_spans_of (sonnet_postings key sonnet)
                       (lm_line_no lm)) by (rewrite <- Hsp; by left).
    apply line_spans_of_occurrences in Hx as (line & Hline & _).
    rewrite <- Hsp in Htx. rewrite decide_False in Htx by done.
    rewrite (line_at_index _ _ _ Hline) in Htx. injection Htx as Htx.
    rewrite Htx. split_and!; [done | done |].
    intros y. rewrite Hsp, line_spans_of_occurrences. split.
    + intros (line' & Hline' & Hy). congruence.
    + intros Hy. by exists line.
Qed.

Lemma lookup_spans_are_tokens_witness :
  stem_span (H := plural_stemmer) "winter" (sonnet_title sonnet2) (10, 17).
Proof.
  assert (Hnd : NoDup (sonnet_id <$> corpus)).
  { repeat constructor; compute; intros Hin; inversion Hin; subst;
      try discriminate; match goal with H : _ ∈ [] |- _ => inversion H end. }
  assert (Hin : sonnet2 ∈ corpus) by (by right; left).
  apply (proj1 (lookup_spans_are_tokens (H := plural_stemmer) corpus sonnet2
                  "Winter" [] _ _ _ Hnd Hin eq_refl eq_refl)).
  by left.
Defined.

(** ** The counts of a search *)

Section search_word_counts.
Context `{Stemmer}.

Lemma search_word_counts (sonnets : list Sonnet) (search_mode : string)
    (combined_results : dict Z SearchResult) (word : string) (h : store) :
  NoDup (sonnet_id <$> sonnets) -> NoDup (dict_keys combined_results) ->
  exists combined_results' h',
    search_word (Searcher_init sonnets) search_mode combined_results word h
    = Returns combined_results' h'
    /\ NoDup (dict_keys combined_results')
    /\ (forall id, id ∈ dict_keys combined_results' ->
                   id ∈ dict_keys combined_results
                   \/ id ∈ sonnet_id <$> sonnets)
    /\ forall sonnet, sonnet ∈ sonnets ->
         let id := sonnet_id sonnet in
         let w := occurrence_count (search_key word) sonnet in
         count_of combined_results' id
         = match combined_results with
           | [] => w
           | _ =>
               if decide (search_mode = "OR")
               then or_count (count_of combined_results id) w
               else and_count (count_of combined_results id) w
           end.
Proof.
  intros Hids Hnd. unfold search_word, bind. simpl.
  set (token := normalized_stem_token word).
  pose proof (Index_search_for_ok (Index_init sonnets) token h) as Hok.
  destruct (Index_search_for_returns sonnets token h Hids)
    as (results & h1 & Hrun).
  rewrite Hrun in Hok |- *. destruct Hok as [Hok _].
  apply lookup_counts in Hok as [Hndr Hcount].
  assert (Hw : forall sonnet, sonnet ∈ sonnets ->
            count_of results (sonnet_id sonnet)
            = occurrence_count (search_key word) sonnet).
  { intros sonnet Hin. rewrite Hcount.
    rewrite lookup_postings_indexed by done.
    unfold occurrence_count, search_key. fold token.
    by destruct (indexed_postings (normalized_stem_token token) sonnet). }
  assert (Hkeys : forall id, id ∈ dict_keys results ->
            id ∈ sonnet_id <$> sonnets).
  { intros id Hin.
    destruct (lookup_keys_known sonnets token h h1 results id Hrun Hin)
      as (sonnet & Hs & <-).
    by apply list_elem_of_fmap_2. }
  assert (Hsome : forall (d : dict Z SearchResult) id,
            id ∈ dict_keys d <-> is_Some (count_of d id)).
  { intros d id. unfold count_of.
    destruct (dict_get id d) as [r|] eqn:E; simpl.
    - split; [by eexists|]. intros _.
      destruct (decide (id ∈ dict_keys d)) as [|Hnot]; [done|].
      assert (dict_get id d = None) by (by apply dict_get_None).
      congruence.
    - split; [| by intros [? ?]]. intros Hin. exfalso. revert Hin.
      by apply dict_get_None. }
  destruct combined_results as [|e c].
  { eexists _, _. split_and!; [done | done | | ].
    - intros id Hin. right. by apply Hkeys.
    - intros sonnet Hin. by apply Hw. }
  case_decide.
  - destruct (search_or_spec (e :: c) results h1 Hnd Hndr)
      as (c' & h' & -> & Hnd' & Hc).
    eexists _, _. split_and!; [done | done | |].
    + intros id Hin. apply Hsome in Hin. rewrite Hc in Hin.
      destruct (count_of (e :: c) id) eqn:E1.
      * left. apply Hsome. by rewrite E1.
      * right. apply Hkeys, Hsome. by destruct (count_of results id).
    + intros sonnet Hin. simpl. by rewrite Hc, Hw.
  - destruct (search_and_spec (e :: c) results h1 Hnd)
      as (c' & h' & -> & Hnd' & Hc).
    eexists _, _. split_and!; [done | done | |].
    + intros id Hin. apply Hsome in Hin. rewrite Hc in Hin.
      destruct (count_of (e :: c) id) eqn:E1.
      * left. apply Hsome. by rewrite E1.
      * by destruct Hin.
    + intros sonnet Hin. simpl. by rewrite Hc, Hw.
Qed.

End search_word_counts.

Lemma for_each_app {A B} (l1 l2 : list B) (body : A -> B -> M A) (acc : A)
    (h : store) :
  for_each (l1 ++ l2) body acc h
  = (let* acc' := for_each l1 body acc in for_each l2 body acc') h.
Proof.
  revert acc h. induction l1 as [|x l1 IH]; intros acc h; [reflexivity|].
  unfold bind. rewrite <- app_comm_cons, !for_each_cons.
  destruct (body acc x h) as [acc1 h1|e]; [| done].
  apply IH.
Qed.

Section search_counts_total.
Context `{Stemmer}.

Lemma search_or_loop_counts (sonnets : list Sonnet) (words : list string) :
  forall (combined_results : dict Z SearchResult) (h : store),
    NoDup (sonnet_id <$> sonnets) -> NoDup (dict_keys combined_results) ->
    (forall id, id ∈ dict_keys combined_results ->
                id ∈ sonnet_id <$> sonnets) ->
    exists combined_results' h',
      for_each words (search_word (Searcher_init sonnets) "OR")
        combined_results h
      = Returns combined_results' h'
      /\ NoDup (dict_keys combined_results')
      /\ (forall id, id ∈ dict_keys combined_results' ->
                     id ∈ sonnet_id <$> sonnets)
      /\ forall sonnet, sonnet ∈ sonnets ->
           count_of combined_results' (sonnet_id sonnet)
           = fold_left or_count
               ((fun word => occurrence_count (search_key word) sonnet)
                  <$> words)
               (count_of combined_results (sonnet_id sonnet)).
Proof.
  induction words as [|word words IH]; intros c h Hids Hnd Hkeys.
  { by eexists _, _. }
  rewrite for_each_cons.
  destruct (search_word_counts sonnets "OR" c word h Hids Hnd)
    as (c1 & h1 & -> & Hnd1 & Hkeys1 & Hc1).
  destruct (IH c1 h1 Hids Hnd1) as (c' & h' & -> & Hnd' & Hkeys' & Hc').
  { intros id Hin. destruct (Hkeys1 id Hin); auto. }
  eexists _, _. split_and!; [done.. |].
  intros sonnet Hin. rewrite (Hc' sonnet Hin). simpl. f_equal.
  rewrite (Hc1 sonnet Hin). simpl.
  by destruct c.
Qed.

Lemma search_and_loop_counts (sonnets : list Sonnet) (search_mode : string)
    (words : list string) :
  search_mode <> "OR" ->
  forall (combined_results : dict Z SearchResult) (h : store),
    NoDup (sonnet_id <$> sonnets) -> NoDup (dict_keys combined_results) ->
    exists combined_results' h',
      for_each words (search_word (Searcher_init sonnets) search_mode)
        combined_results h
      = Returns combined_results' h'
      /\ NoDup (dict_keys combined_results')
      /\ forall sonnet n, sonnet ∈ sonnets ->
           all_counts
             ((fun word => occurrence_count (search_key word) sonnet)
                <$> words) = Some n ->
           forall a,
             count_of combined_results (sonnet_id sonnet) = Some a
             \/ (combined_results = [] /\ a = 0 /\ words <> []) ->
             count_of combined_results' (sonnet_id sonnet) = Some (a + n).
Proof.
  intros Hmode.
  induction words as [|word words IH]; intros c h Hids Hnd.
  { eexists _, _. split_and!; [done | done |].
    intros sonnet n Hin [= <-] a [Ha | (_ & _ & ?)]; [| done].
    simpl. rewrite Ha. f_equal. lia. }
  rewrite for_each_cons.
  destruct (search_word_counts sonnets search_mode c word h Hids Hnd)
    as (c1 & h1 & -> & Hnd1 & _ & Hc1).
  destruct (IH c1 h1 Hids Hnd1) as (c' & h' & -> & Hnd' & Hc').
  eexists _, _. split_and!; [done | done |].
  intros sonnet n Hin Hall a Ha. rewrite fmap_cons in Hall. simpl in Hall.
  destruct (occurrence_count (search_key word) sonnet) as [x|] eqn:Ew;
    [| done].
  destruct (all_counts _) as [m|] eqn:Em; [| done].
  simpl in Hall. injection Hall as <-.
  specialize (Hc1 sonnet Hin). simpl in Hc1. rewrite Ew in Hc1.
  replace (a + (x + m)) with ((a + x) + m) by lia.
  apply (Hc' sonnet m Hin Em). left.
  destruct Ha as [Ha | (-> & -> & _)].
  - rewrite Hc1. destruct c as [|e c]; [done|].
    rewrite decide_False by done. by rewrite Ha.
  - by rewrite Hc1.
Qed.

End search_counts_total.

(** X11: the counts of an OR search, on a corpus whose documents have
    different ids: the search returns, with the documents of the corpus
    only and each at most once, and the match count of a document is the
    sum over the words of the query of the occurrences of the key of the
    word in the document. *)
Theorem or_search_adds_counts `{Stemmer} (sonnets : list Sonnet)
    (query : string) (h : store) :
  NoDup (sonnet_id <$> sonnets) ->
  exists combined_results h',
    search_combined (Searcher_init sonnets) query "OR" h
    = Returns combined_results h'
    /\ Searcher_search (Searcher_init sonnets) query "OR" h
       = Returns (sorted title_leb (dict_values combined_results)) h'
    /\ NoDup (dict_keys combined_results)
    /\ (forall id, id ∈ dict_keys combined_results ->
                   id ∈ sonnet_id <$> sonnets)
    /\ forall sonnet, sonnet ∈ sonnets ->
         count_of combined_results (sonnet_id sonnet)
         = fold_left or_count
             ((fun word => occurrence_count (search_key word) sonnet)
                <$> split query)
             None.
Proof.
  intros Hids.
  destruct (search_or_loop_counts sonnets (split query) [] h Hids)
    as (c & h' & Hrun & Hnd & Hkeys & Hc);
    [constructor | by intros id ?%elem_of_nil |].
  exists c, h'. unfold Searcher_search, search_combined, bind.
  rewrite Hrun. by split_and!.
Qed.

Lemma or_search_adds_counts_witness :
  exists combined_results h',
    search_combined (H := plural_stemmer)
      (Searcher_init (H := plural_stemmer) corpus) "thee shall" "OR" []
    = Returns combined_results h'
    /\ count_of combined_results 1 = Some 2
    /\ count_of combined_results 2 = Some 1.
Proof.
  destruct (or_search_adds_counts (H := plural_stemmer) corpus
              "thee shall" [])
    as (c & h' & Hrun & _ & _ & _ & Hc).
  { repeat constructor; compute; intros Hin; inversion Hin; subst;
      try discriminate; match goal with H : _ ∈ [] |- _ => inversion H end. }
  exists c, h'. split; [exact Hrun|]. split.
  - apply (Hc sonnet1). by left.
  - apply (Hc sonnet2). by right; left.
Defined.

(** X12: the counts of a search in any other mode than OR, on a corpus
    whose documents have different ids.  The key of a word is what the
    search looks up for it: its normalized stem, normalized and stemmed
    once more.  The search returns; when the query has a word and the
    index holds, for the key of every word of the query, postings of a
    document, the document has a result, whose match count is the sum
    over the words of the number of those postings; and for a document
    with a result the index holds postings under the key of the last
    word of the query. *)
Theorem and_search_counts `{Stemmer} (sonnets : list Sonnet)
    (query search_mode : string) (h : store) :
  NoDup (sonnet_id <$> sonnets) -> search_mode <> "OR" ->
  exists combined_results h',
    search_combined (Searcher_init sonnets) query search_mode h
    = Returns combined_results h'
    /\ Searcher_search (Searcher_init sonnets) query search_mode h
       = Returns (sorted title_leb (dict_values combined_results)) h'
    /\ forall sonnet, sonnet ∈ sonnets ->
         (forall n,
            split query <> [] ->
            all_counts
              ((fun word => occurrence_count (search_key word) sonnet)
                 <$> split query) = Some n ->
            count_of combined_results (sonnet_id sonnet) = Some n)
         /\ (forall word,
               last (split query) = Some word ->
               is_Some (count_of combined_results (sonnet_id sonnet)) ->
               is_Some (occurrence_count (search_key word) sonnet)).
Proof.
  intros Hids Hmode.
  destruct (search_and_loop_counts sonnets search_mode (split query) Hmode
              [] h Hids) as (c & h' & Hrun & Hnd & Hc); [constructor|].
  exists c, h'. unfold Searcher_search, search_combined, bind.
  rewrite Hrun. split_and!; [done | done |].
  intros sonnet Hin. split.
  - intros n Hne Hall. apply (Hc sonnet n Hin Hall 0). by right.
  - intros word Hlast Hsome.
    destruct (split query) as [|w ws] using rev_ind; [done|]. clear IHws.
    rewrite last_snoc in Hlast. injection Hlast as ->.
    unfold search_combined in Hrun.
    rewrite for_each_app in Hrun. unfold bind in Hrun.
    destruct (search_and_loop_counts sonnets search_mode ws Hmode [] h Hids)
      as (c1 & h1 & Hrun1 & Hnd1 & _); [constructor|].
    rewrite Hrun1 in Hrun. rewrite for_each_cons in Hrun.
    destruct (search_word_counts sonnets search_mode c1 word h1 Hids Hnd1)
      as (c2 & h2 & Hrun2 & _ & _ & Hc2).
    unfold bind in Hrun. rewrite Hrun2 in Hrun. simpl in Hrun.
    injection Hrun as <- <-.
    rewrite (Hc2 sonnet Hin) in Hsome. simpl in Hsome.
    destruct c1 as [|e c1]; [done|].
    rewrite decide_False in Hsome by done.
    destruct (occurrence_count (search_key word) sonnet); [by eexists|].
    destruct (count_of (e :: c1) (sonnet_id sonnet)); by destruct Hsome.
Qed.

Lemma and_search_counts_witness :
  exists combined_results h',
    search_combined (H := plural_stemmer)
      (Searcher_init (H := plural_stemmer) corpus) "thee shall" "AND" []
    = Returns combined_results h'
    /\ count_of combined_results 1 = Some 2.
Proof.
  destruct (and_search_counts (H := plural_stemmer) corpus
              "thee shall" "AND" [])
    as (c & h' & Hrun & _ & Hc).
  { repeat constructor; compute; intros Hin; inversion Hin; subst;
      try discriminate; match goal with H : _ ∈ [] |- _ => inversion H end. }
  { discriminate. }
  exists c, h'. split; [exact Hrun|].
  apply (Hc sonnet1); [by left | discriminate | reflexivity].
Defined.

(** ** What a combination does to its arguments *)

Lemma span_total_grown (h h' : store) (f : LineMatch -> list span)
    (lms : list LineMatch) :
  Forall (fun lm => deref h' (lm_spans lm) = deref h (lm_spans lm) ++ f lm)
    lms ->
  span_total h lms <= span_total h' lms
  /\ (span_total h' lms = span_total h lms
      <-> Forall (fun lm => f lm = []) lms).
Proof.
  induction 1 as [|lm lms Hlm _ [IHle IHeq]]; simpl; [done|].
  fold (span_total h lms). fold (span_total h' lms).
  rewrite Hlm, length_app. split; [lia|].
  rewrite Forall_cons, <- IHeq. split.
  - intros E. split; [| lia]. destruct (f lm); [done | simpl in E; lia].
  - intros [-> ->]. simpl. lia.
Qed.

(** X13: a combination works on the span lists of the line matches of
    its first argument.  Given two results that each list a line once at
    most, with a span list of the store for every line match, no list
    used twice in a result and none used by both: the combination
    returns; the store holds as many span lists as before; every list
    that is not one of the first argument is as it was; the list of
    every line of the first argument is its old content followed by the
    spans the second argument has for that line; the line matches of the
    result are line matches of the arguments, those of the first
    argument among them, so the result shares those lists.  A first
    argument whose count was right is therefore right afterwards only if
    the second argument has no spans on its lines. *)
Theorem combine_with_extends_self (a b : SearchResult) (h : store) :
  apart h a b ->
  exists c h',
    combine_with a b h = Returns c h'
    /\ length h' = length h
    /\ (forall r, r ∉ refs (sr_line_matches a) -> deref h' r = deref h r)
    /\ Forall (fun lm =>
                 deref h' (lm_spans lm)
                 = deref h (lm_spans lm)
                     ++ spans_at h (sr_line_matches b) (lm_line_no lm))
         (sr_line_matches a)
    /\ (forall lm, lm ∈ sr_line_matches c ->
                   lm ∈ sr_line_matches a \/ lm ∈ sr_line_matches b)
    /\ (forall lm, lm ∈ sr_line_matches a -> lm ∈ sr_line_matches c)
    /\ (count_invariant h a ->
        (count_invariant h' a
         <-> Forall (fun lm =>
                       spans_at h (sr_line_matches b) (lm_line_no lm) = [])
               (sr_line_matches a))).
Proof.
  intros Hap.
  destruct (combine_with_apart a b h Hap)
    as (h' & Hrun & Hlen & Hframe & Hap' & _ & Hsp & _).
  assert (Hperm : sr_line_matches (combined a b)
                    ≡ₚ sr_line_matches a
                        ++ new_lines (sr_line_matches a) (sr_line_matches b))
    by apply sorted_perm.
  assert (Hgrow : Forall (fun lm =>
                    deref h' (lm_spans lm)
                    = deref h (lm_spans lm)
                        ++ spans_at h (sr_line_matches b) (lm_line_no lm))
                    (sr_line_matches a)).
  { apply Forall_forall. intros lm Hlm.
    assert (Hin : lm ∈ sr_line_matches (combined a b))
      by (rewrite Hperm, elem_of_app; by left).
    specialize (Hsp (lm_line_no lm)). unfold spans_at at 1 2 in Hsp.
    rewrite filter_line_single in Hsp by (done || apply Hap').
    rewrite filter_line_single in Hsp by (done || apply Hap).
    simpl in Hsp. by rewrite !app_nil_r in Hsp. }
  exists (combined a b), h'. split_and!; [done.. | | |].
  - intros lm. rewrite Hperm, elem_of_app. intros [Hlm | Hlm]; [by left|].
    right. unfold new_lines in Hlm.
    by apply list_elem_of_filter in Hlm as [_ ?].
  - intros lm Hlm. rewrite Hperm, elem_of_app. by left.
  - unfold count_invariant. intros Ha.
    destruct (span_total_grown h h' _ _ Hgrow) as [_ <-]. lia.
Qed.

Lemma combine_with_extends_self_witness :
  let a := result_of [line_x_y 1 0%nat] 1 in
  let b := result_of [line_x_y 1 1%nat; line_x_y 2 2%nat] 2 in
  exists c h',
    combine_with a b store_x_y = Returns c h'
    /\ deref h' 0%nat = [(0, 1); (2, 3)].
Proof.
  intros a b.
  destruct (combine_with_extends_self a b store_x_y)
    as (c & h' & Hrun & _ & _ & Hgrow & _).
  { unfold apart, lines_apart; simpl.
    split_and!; [compute_done..|].
    intros r; rewrite !elem_of_cons, !elem_of_nil; lia. }
  exists c, h'. split; [exact Hrun|].
  by apply Forall_inv in Hgrow.
Defined.

(** ** The result of the per-document search *)

Section own_search.
Context `{Stemmer}.

Lemma Sonnet_search_for_sorted (self : Sonnet) (query : string)
    (index : Index) (h : store) :
  match Sonnet_search_for self query index h with
  | Returns r h' =>
      Sorted (fun x y => line_no_leb x y = true) (sr_line_matches r)
  | Raises e => True
  end.
Proof.
  unfold Sonnet_search_for.
  destruct (dict_get (normalized_stem_token query) (index_dictionary index))
    as [by_doc|]; [| constructor].
  unfold bind at 1.
  destruct (for_each (default [] (dict_get (sonnet_id self) by_doc))
              collect_posting ([], []) h) as [[ts d] h1|e]; [| done].
  set (sd := sorted (fun a b : Z * ref => a.1 <=? b.1) d).
  unfold bind at 1.
  pose proof (line_matches_loop self sd [] h1) as Hloop.
  destruct (for_each sd _ [] h1) as [lms h2|e]; [| done].
  destruct Hloop as (-> & -> & _). simpl.
  unfold bind. rewrite total_loop. unfold ret. simpl.
  assert (Hs : Sorted (fun a b : Z * ref => (a.1 <=? b.1) = true) sd).
  { apply sorted_Sorted. intros a b. lia. }
  clearbody sd. induction Hs as [|x l Hl IH Hhd]; simpl; [constructor|].
  constructor; [done|]. by destruct Hhd; constructor.
Qed.

Lemma Sonnet_search_for_title_spans (self : Sonnet) (query : string)
    (index : Index) (h : store) :
  match Sonnet_search_for self query index h with
  | Returns r h' =>
      sr_title_spans r = title_spans_of (own_postings self query index)
  | Raises e => True
  end.
Proof.
  unfold Sonnet_search_for, own_postings.
  destruct (dict_get (normalized_stem_token query) (index_dictionary index))
    as [by_doc|]; [| done].
  set (ps := default [] (dict_get (sonnet_id self) by_doc)).
  destruct (collect_postings_ok self ps [] ([], []) h (collected_nil h self))
    as ([ts d] & h1 & Hrun & Hts & _).
  simpl in *. unfold bind at 1. rewrite Hrun.
  unfold bind at 1.
  destruct (for_each (sorted _ d) _ [] h1) as [lms h2|e]; [| done].
  unfold bind. by rewrite total_loop.
Qed.

Lemma own_postings_indexed (sonnets : list Sonnet) (sonnet : Sonnet)
    (query : string) :
  NoDup (sonnet_id <$> sonnets) -> sonnet ∈ sonnets ->
  own_postings sonnet query (Index_init sonnets)
  = indexed_postings (normalized_stem_token query) sonnet.
Proof.
  intros Hnd Hin. rewrite <- lookup_postings_own.
  by apply lookup_postings_indexed.
Qed.

End own_search.

Lemma Sorted_lt_line_numbers (lms : list LineMatch) :
  Sorted (fun x y => line_no_leb x y = true) lms ->
  NoDup (line_numbers lms) ->
  StronglySorted Z.lt (line_numbers lms).
Proof.
  intros Hs Hnd.
  assert (Htrans : Transitive (fun x y => line_no_leb x y = true))
    by (intros x y z; unfold line_no_leb; lia).
  apply (Sorted_StronglySorted _) in Hs.
  induction Hs as [|lm lms Hs IH Hall]; simpl; [constructor|].
  unfold line_numbers in Hnd. rewrite fmap_cons in Hnd.
  apply NoDup_cons in Hnd as [Hnot Hnd].
  constructor; [by apply IH|].
  apply Forall_fmap, Forall_forall. intros y Hy. simpl.
  rewrite Forall_forall in Hall. specialize (Hall y Hy).
  unfold line_no_leb in Hall.
  assert (lm_line_no lm <> lm_line_no y).
  { intros E. apply Hnot. rewrite E. by apply list_elem_of_fmap_2. }
  lia.
Qed.

(** X14: the per-document search, for a document of a corpus whose
    documents have different ids and the index of that corpus: it
    returns, the result has the title of the document and counts the
    occurrences of the stem of the query in it, the title spans are the
    spans of the occurrences in the title in their order, and the line
    matches come in strictly increasing order of line number, each with
    the text of its line and the spans of the occurrences in that line
    in their order, at least one. *)
Theorem Sonnet_search_for_own_occurrences `{Stemmer}
    (sonnets : list Sonnet) (sonnet : Sonnet) (query : string) (h : store) :
  NoDup (sonnet_id <$> sonnets) -> sonnet ∈ sonnets ->
  let ps := indexed_postings (normalized_stem_token query) sonnet in
  exists r h',
    Sonnet_search_for sonnet query (Index_init sonnets) h = Returns r h'
    /\ sr_title r = sonnet_title sonnet
    /\ sr_matches r = Z.of_nat (length ps)
    /\ sr_title_spans r = title_spans_of ps
    /\ StronglySorted Z.lt (line_numbers (sr_line_matches r))
    /\ Forall (fun lm =>
                 line_at sonnet (lm_line_no lm) = Some (lm_text lm)
                 /\ deref h' (lm_spans lm)
                    = line_spans_of ps (lm_line_no lm)
                 /\ deref h' (lm_spans lm) <> [])
         (sr_line_matches r)
    /\ (forall ln, line_spans_of ps ln <> [] ->
                   ln ∈ line_numbers (sr_line_matches r)).
Proof.
  intros Hnd Hin ps.
  pose proof (Sonnet_search_for_spec sonnet query (Index_init sonnets) h)
    as Hspec.
  pose proof (Sonnet_search_for_sorted sonnet query (Index_init sonnets) h)
    as Hsorted.
  pose proof (Sonnet_search_for_title_spans sonnet query
                (Index_init sonnets) h) as Htitle.
  rewrite own_postings_indexed in Hspec by done. fold ps in Hspec.
  assert (Hline : forall ln, line_spans_of ps ln <> [] ->
            exists line, line_at sonnet ln = Some line).
  { intros ln Hne. unfold ps, indexed_postings in Hne.
    case_decide; [done|].
    destruct (line_spans_of _ ln) as [|x l] eqn:E; [done|].
    assert (Hx : x ∈ line_spans_of
                       (sonnet_postings (normalized_stem_token query) sonnet)
                       ln) by (rewrite E; by left).
    apply line_spans_of_occurrences in Hx as (line & Hl & _).
    by exists line. }
  destruct (Sonnet_search_for sonnet query (Index_init sonnets) h)
    as [r h'|e].
  - exists r, h'. split; [done|].
    pose proof Hspec as (Ht & Hm & Hts & Hsp & Htx & _ & Hap & _).
    split_and!; [done | done | | | |].
    + by rewrite Htitle, own_postings_indexed.
    + apply Sorted_lt_line_numbers; [done | apply Hap].
    + apply Forall_forall. intros lm Hlm.
      destruct (summary_line_match _ _ _ _ _ Hspec Hlm) as [Hd Htxt].
      rewrite Hd.
      destruct (decide (line_spans_of ps (lm_line_no lm) = [])) as [|Hne];
        [done|].
      destruct (Hline _ Hne) as (line & Hl).
      rewrite (line_at_index _ _ _ Hl) in Htxt. injection Htxt as ->.
      done.
    + intros ln Hne.
      destruct (decide (ln ∈ line_numbers (sr_line_matches r)))
        as [|Hnot]; [done|].
      specialize (Hsp ln). rewrite spans_at_absent in Hsp by done.
      congruence.
  - exfalso. destruct Hspec as (_ & ln & Hne & Hnone).
    destruct (Hline ln Hne) as (line & Hl).
    apply line_at_index in Hl. congruence.
Qed.

Lemma Sonnet_search_for_own_occurrences_witness :
  exists r h',
    Sonnet_search_for (H := plural_stemmer) sonnet1 "Fairest"
      (Index_init (H := plural_stemmer) corpus) []
    = Returns r h'
    /\ sr_matches r = 2 /\ sr_title_spans r = [(10, 17)]
    /\ line_numbers (sr_line_matches r) = [1].
Proof.
  destruct (Sonnet_search_for_own_occurrences (H := plural_stemmer) corpus
              sonnet1 "Fairest" [])
    as (r & h' & Hrun & _ & Hm & Hts & _).
  { repeat constructor; compute; intros Hin; inversion Hin; subst;
      try discriminate; match goal with H : _ ∈ [] |- _ => inversion H end. }
  { by left. }
  exists r, h'. split; [exact Hrun|]. split; [exact Hm|].
  split; [exact Hts|].
  vm_compute in Hrun. by injection Hrun as <- <-.
Defined.

(** ** The length of the highlighted text *)

Lemma len_app (s1 s2 : string) : len (s1 ++ s2)%string = len s1 + len s2.
Proof.
  unfold len. rewrite <- !length_chars, chars_app, length_app. lia.
Qed.

Lemma join_cons (x : string) (out : list string) :
  join (x :: out) = (x ++ join out)%string.
Proof. done. Qed.

Lemma pieces_from_len (text mode : string) (m : list span) :
  forall i, 0 <= i -> within text m -> Sorted gap m ->
    Forall (fun x : span => i <= x.1) m ->
    len (join (pieces_from text mode i m))
    = len (slice_from text i)
      + Z.of_nat (length m) * (len (ansi_sequence mode) + len ansi_reset).
Proof.
  induction m as [|[s e] m IH]; intros i Hi Hin Hs Hlow.
  - simpl. rewrite append_empty_r. lia.
  - apply Forall_cons in Hin as [[Hse He] Hin].
    apply Forall_cons in Hlow as [Hlow _]. simpl in Hse, He, Hlow.
    assert (Hnext : Forall (fun x : span => e <= x.1) m).
    { apply (Sorted_StronglySorted _), StronglySorted_inv in Hs as [_ Hall].
      eapply Forall_impl; [exact Hall|].
      intros [a b] [_ Hgap]. simpl in *. lia. }
    apply Sorted_inv in Hs as [Hs _].
    cbn [pieces_from app]. rewrite !join_cons, !len_app.
    rewrite IH by (done || lia).
    rewrite <- (slice_from_split text i s e) by lia.
    rewrite !len_app. cbn [length]. lia.
Qed.

Lemma merge_spans_idemp (spans : list span) :
  merge_spans (merge_spans spans) = merge_spans spans.
Proof.
  pose proof (merge_spans_gap spans) as Hgap.
  rewrite (merge_spans_run (merge_spans spans)).
  rewrite (sorted_of_Sorted span_leb); [| by apply gap_span_leb].
  destruct (merge_spans spans) as [|[s0 e0] rest]; [done|].
  by apply merge_run_no_merge.
Qed.

Lemma merge_spans_nil (spans : list span) :
  merge_spans spans = [] -> spans = [].
Proof.
  rewrite merge_spans_run.
  pose proof (sorted_perm span_leb spans) as Hperm.
  destruct (sorted span_leb spans) as [|[s0 e0] rest].
  - intros _. by apply Permutation_nil_l in Hperm.
  - destruct (merge_run_head s0 e0 rest) as (e' & tl & -> & _). done.
Qed.

(** X15: highlighting adds the markers and nothing else: for spans
    inside the text the output is longer than the text by one opening
    and one closing marker for each merged span.  The output does not
    depend on the order of the spans, and spans that are merged already
    give the same output as the spans they come from. *)
Theorem ansi_highlight_length (text : string) (spans : list span)
    (highlight_mode : string) :
  (within text spans ->
   len (ansi_highlight text spans highlight_mode)
   = len text
     + Z.of_nat (length (merge_spans spans))
       * (len (ansi_sequence highlight_mode) + len ansi_reset))
  /\ (forall spans', spans' ≡ₚ spans ->
        ansi_highlight text spans' highlight_mode
        = ansi_highlight text spans highlight_mode)
  /\ ansi_highlight text (merge_spans spans) highlight_mode
     = ansi_highlight text spans highlight_mode.
Proof.
  split_and!.
  - intros Hin. destruct spans as [|x spans]; [simpl; lia|].
    unfold ansi_highlight. rewrite highlight_pieces_from.
    pose proof (merge_spans_within text _ Hin) as Hm.
    rewrite pieces_from_len; [by rewrite slice_from_0 | lia | done | |].
    + apply merge_spans_gap.
    + eapply Forall_impl; [exact Hm|]. intros y Hy. simpl in Hy. lia.
  - intros spans' Hperm. unfold ansi_highlight.
    rewrite !highlight_pieces_from, !merge_spans_run.
    rewrite (sorted_perm_eq span_leb span_leb_total _ _ Hperm).
    destruct spans' as [|x' l']; destruct spans as [|x l]; try done.
    + by apply Permutation_nil_l in Hperm.
    + by apply Permutation_nil_r in Hperm.
  - unfold ansi_highlight.
    rewrite !highlight_pieces_from, merge_spans_idemp.
    destruct (merge_spans spans) as [|y m] eqn:Em.
    + by rewrite (merge_spans_nil _ Em).
    + destruct spans as [|x l]; [done|]. done.
Qed.

Lemma ansi_highlight_length_witness :
  len (ansi_highlight "Shall I compare" [(9, 15); (7, 11)] "DEFAULT")
  = len "Shall I compare"
    + Z.of_nat (length (merge_spans [(9, 15); (7, 11)]))
      * (len (ansi_sequence "DEFAULT") + len ansi_reset).
Proof.
  apply (proj1 (ansi_highlight_length "Shall I compare" [(9, 15); (7, 11)]
                  "DEFAULT")).
  repeat constructor; simpl; unfold len; simpl; lia.
Defined.

(** ** The number in the title *)

Lemma digit_value_char (d : Z) :
  0 <= d < 10 -> digit_value (digit_char d) = Some d.
Proof.
  intros Hd. unfold digit_value, digit_char.
  assert (Hc : d = 0 \/ d = 1 \/ d = 2 \/ d = 3 \/ d = 4 \/ d = 5 \/ d = 6
               \/ d = 7 \/ d = 8 \/ d = 9) by lia.
  by repeat (destruct Hc as [-> | Hc]; [done|]); subst.
Qed.

Lemma digit_char_plain (d : Z) :
  0 <= d < 10 ->
  isspace (digit_char d) = false /\ digit_char d <> ":"%char
  /\ digit_char d <> "-"%char /\ digit_char d <> "+"%char.
Proof.
  intros Hd.
  assert (Hc : d = 0 \/ d = 1 \/ d = 2 \/ d = 3 \/ d = 4 \/ d = 5 \/ d = 6
               \/ d = 7 \/ d = 8 \/ d = 9) by lia.
  by repeat (destruct Hc as [-> | Hc]; [done|]); subst.
Qed.

Lemma decimal_from_digits (fuel : nat) :
  forall (n : Z) (acc : list ascii),
    0 <= n -> (Z.to_nat n < fuel)%nat ->
    exists ds,
      decimal_from fuel n acc = ds ++ acc /\ ds <> []
      /\ Forall (fun c => exists d, 0 <= d < 10 /\ c = digit_char d) ds
      /\ forall a b rest,
           int_digits (ds ++ rest) a b
           = int_digits rest (a * 10 ^ Z.of_nat (length ds) + n) true.
Proof.
  induction fuel as [|fuel IH]; intros n acc Hn Hfuel; [lia|].
  simpl. destruct (n <? 10) eqn:E.
  - exists [digit_char (n mod 10)]. rewrite Z.mod_small by lia.
    split_and!; [done | done | |].
    + constructor; [| constructor]. exists n. split; [lia | done].
    + intros a b rest. simpl. rewrite digit_value_char by lia.
      f_equal. lia.
  - assert (Hdiv : 0 <= n / 10 < n)
      by (split; [apply Z.div_pos; lia | apply Z.div_lt; lia]).
    destruct (IH (n / 10) (digit_char (n mod 10) :: acc))
      as (ds & Hds & Hne & Hall & Hint); [lia | lia |].
    exists (ds ++ [digit_char (n mod 10)]).
    split_and!.
    + rewrite Hds, <- app_assoc. done.
    + by destruct ds.
    + apply Forall_app. split; [done|]. constructor; [| constructor].
      exists (n mod 10). split; [apply Z.mod_pos_bound; lia | done].
    + intros a b rest. rewrite <- app_assoc. simpl. rewrite Hint. simpl.
      rewrite digit_value_char by (apply Z.mod_pos_bound; lia).
      f_equal. rewrite length_app. simpl.
      rewrite Nat2Z.inj_add, Z.pow_add_r by lia.
      change (10 ^ Z.of_nat 1) with 10.
      pose proof (Z.div_mod n 10). lia.
Qed.

Lemma skip_space_plain (cs : list ascii) :
  match cs with [] => True | c :: _ => isspace c = false end ->
  skip_space cs = cs.
Proof. destruct cs as [|c cs]; [done|]. simpl. by intros ->. Qed.

Lemma nonspace_run_app (tok rest : list ascii) :
  Forall (fun c => isspace c = false) tok ->
  match rest with [] => True | c :: _ => isspace c = true end ->
  nonspace_run (tok ++ rest) = tok.
Proof.
  intros Htok Hrest. induction Htok as [|c tok Hc _ IH]; simpl.
  - destruct rest as [|c rest]; [done|]. simpl. by rewrite Hrest.
  - by rewrite Hc, IH.
Qed.

Lemma skip_space_app (ws l : list ascii) :
  Forall (fun c => isspace c = true) ws ->
  match l with [] => True | c :: _ => isspace c = false end ->
  skip_space (ws ++ l) = l.
Proof.
  intros Hws Hl. induction Hws as [|c ws Hc _ IH]; simpl.
  - by apply skip_space_plain.
  - by rewrite Hc.
Qed.

Lemma finditer_nonspace_token (n : nat) (pos : Z) (ws tok rest : list ascii) :
  Forall (fun c => isspace c = true) ws -> tok <> [] ->
  Forall (fun c => isspace c = false) tok ->
  match rest with [] => True | c :: _ => isspace c = true end ->
  finditer_nonspace (S n) pos (ws ++ tok ++ rest)
  = (str tok, pos + Z.of_nat (length ws))
      :: finditer_nonspace n
           (pos + Z.of_nat (length ws) + Z.of_nat (length tok)) rest.
Proof.
  intros Hws Hne Htok Hrest. cbn [finditer_nonspace].
  rewrite skip_space_app; [| done |]; last first.
  { destruct tok as [|c tok]; [done|]. by apply Forall_inv in Htok. }
  rewrite nonspace_run_app by done.
  replace (length (ws ++ tok ++ rest) - length (tok ++ rest))%nat
    with (length ws) by (rewrite !length_app; lia).
  destruct tok as [|c tok'] eqn:E; [done|]. cbv beta iota zeta.
  rewrite <- E. by rewrite drop_app_length.
Qed.

Lemma rstrip_chars_app (c : ascii) (ds : list ascii) (k : nat) :
  Forall (fun x => x <> c) ds ->
  rstrip_chars c (ds ++ replicate k c) = ds.
Proof.
  intros Hds. induction Hds as [|x ds Hx _ IH]; simpl.
  - induction k as [|k IHk]; simpl; [done|].
    rewrite IHk. by rewrite decide_True.
  - rewrite IH. destruct ds; [by rewrite decide_False | done].
Qed.

Lemma int_digits_numeral (ds : list ascii) (n : Z) :
  ds <> [] ->
  Forall (fun c => exists d, 0 <= d < 10 /\ c = digit_char d) ds ->
  (forall a b rest,
     int_digits (ds ++ rest) a b
     = int_digits rest (a * 10 ^ Z.of_nat (length ds) + n) true) ->
  int_value (str ds) = Some n.
Proof.
  intros Hne Hall Hint. unfold int_value, strip_space. rewrite chars_str.
  assert (Hplain : Forall (fun c => isspace c = false /\ c <> "-"%char
                                    /\ c <> "+"%char) ds).
  { eapply Forall_impl; [exact Hall|]. intros c (d & Hd & ->).
    destruct (digit_char_plain d Hd) as (? & _ & ? & ?). done. }
  assert (Hskip : forall l, l <> [] ->
            Forall (fun c => isspace c = false /\ c <> "-"%char
                             /\ c <> "+"%char) l -> skip_space l = l).
  { intros l Hl Hf. apply skip_space_plain.
    destruct l as [|c l]; [done|]. by apply Forall_inv in Hf as [? _]. }
  rewrite (Hskip ds) by done.
  rewrite Hskip; [| by intros E%(f_equal reverse); rewrite reverse_involutive in E
                  | by apply Forall_reverse].
  rewrite reverse_involutive.
  destruct ds as [|c cs]; [done|].
  apply Forall_inv in Hplain as (_ & Hm & Hp).
  rewrite decide_False, decide_False by done.
  specialize (Hint 0 false []). rewrite app_nil_r in Hint.
  rewrite Hint. simpl. f_equal; lia.
Qed.

Lemma decimal_from_length (fuel : nat) :
  forall (n : Z) (acc : list ascii) (m : nat),
    0 <= n < 10 ^ Z.of_nat m -> (0 < m)%nat ->
    (length (decimal_from fuel n acc) <= m + length acc)%nat.
Proof.
  induction fuel as [|fuel IH]; intros n acc m Hn Hm; simpl; [lia|].
  destruct (n <? 10) eqn:E; simpl; [lia|].
  apply Z.ltb_ge in E.
  destruct m as [|[|m]]; [lia | simpl in Hn; lia |].
  etrans; [apply (IH _ _ (S m)); [| lia] | simpl; lia].
  split; [apply Z.div_pos; lia|].
  apply Z.div_lt_upper_bound; [lia|].
  replace (Z.of_nat (S (S m))) with (Z.succ (Z.of_nat (S m))) in Hn by lia.
  rewrite Z.pow_succ_r in Hn by lia. lia.
Qed.

Lemma digit_count_numeral (ds : list ascii) :
  Forall (fun c => exists d, 0 <= d < 10 /\ c = digit_char d) ds ->
  digit_count ds = Z.of_nat (length ds).
Proof.
  intros Hall. unfold digit_count. do 2 f_equal.
  induction Hall as [|c ds (d & Hd & ->) _ IH]; [done|].
  rewrite filter_cons_True; [by rewrite IH|].
  rewrite digit_value_char by done. by eexists.
Qed.

(** X16: the constructor reads the number of a title of the usual form:
    a first word, a blank, the decimal numeral of a number that is not
    negative and has at most 4300 digits, any number of colons, and,
    after a blank, the rest of the title.  The document built has that
    number as its id, and the title and the lines of the record. *)
Theorem Sonnet_init_reads_number (first rest : string) (n : Z) (k : nat)
    (lines : list string) :
  0 <= n < 10 ^ 4300 -> first <> "" ->
  Forall (fun c => isspace c = false) (chars first) ->
  let title :=
    (first ++ " " ++ decimal n ++ str (replicate k ":"%char) ++ " " ++ rest)
      %string in
  Sonnet_init {| data_title := title; data_lines := lines |}
  = inr {| sonnet_title := title; sonnet_lines := lines; sonnet_id := n |}.
Proof.
  intros [Hn Hmax] Hfirst Hplain title.
  destruct (decimal_from_digits (S (Z.to_nat n)) n [] Hn)
    as (ds & Hds & Hne & Hall & Hint); [lia|].
  rewrite app_nil_r in Hds.
  assert (Hdigits : (length ds <= 4300)%nat).
  { rewrite <- Hds.
    etrans; [apply (decimal_from_length _ n [] 4300%nat); [| lia] |].
    - split; [done|]. by replace (Z.of_nat 4300) with 4300 by lia.
    - simpl. lia. }
  assert (Hdec : decimal n = str ds) by (unfold decimal; by rewrite Hds).
  set (word := ds ++ replicate k ":"%char).
  assert (Hword : Forall (fun c => isspace c = false) word).
  { apply Forall_app. split.
    - eapply Forall_impl; [exact Hall|]. intros c (d & Hd & ->).
      by destruct (digit_char_plain d Hd).
    - by apply Forall_replicate. }
  assert (Hchars : chars title
                   = chars first ++ " "%char :: word ++ " "%char :: chars rest).
  { unfold title. rewrite !chars_app, Hdec, !chars_str. simpl.
    unfold word. by rewrite <- app_assoc. }
  assert (Hsplit : index_list (split title) 1 = Some (str word)).
  { unfold split, tokenize. rewrite <- length_chars, Hchars.
    assert (Hlen : exists m,
              length (chars first ++ " "%char :: word ++ " "%char :: chars rest)
              = S (S m)).
    { rewrite length_app. simpl. exists (length (chars first)
          + length (word ++ " "%char :: chars rest) - 1)%nat.
      destruct (chars first) as [|c cs] eqn:Ef; simpl; [| lia].
      exfalso. apply Hfirst. by rewrite <- (str_chars first), Ef. }
    destruct Hlen as [m ->].
    rewrite (finditer_nonspace_token _ 0 [] (chars first)
               (" "%char :: word ++ " "%char :: chars rest));
      [| done | | done | done].
    2:{ intros E. apply Hfirst. by rewrite <- (str_chars first), E. }
    rewrite (finditer_nonspace_token _ _ [" "%char] word
               (" "%char :: chars rest));
      [done | by repeat constructor | | done | done].
    unfold word. by destruct ds. }
  unfold Sonnet_init. cbn [data_title data_lines]. rewrite Hsplit.
  unfold rstrip. rewrite chars_str. unfold word.
  rewrite rstrip_chars_app; last first.
  { eapply Forall_impl; [exact Hall|]. intros c (d & Hd & ->).
    by destruct (digit_char_plain d Hd) as (_ & ? & _). }
  unfold int. rewrite chars_str, digit_count_numeral by done.
  rewrite (proj2 (Z.leb_le _ _)) by (unfold int_max_str_digits; lia).
  by rewrite (int_digits_numeral ds n).
Qed.

Lemma Sonnet_init_reads_number_witness :
  Sonnet_init {| data_title := "Sonnet 18: Shall I compare thee";
                 data_lines := [] |}
  = inr {| sonnet_title := "Sonnet 18: Shall I compare thee";
           sonnet_lines := []; sonnet_id := 18 |}.
Proof.
  apply (Sonnet_init_reads_number "Sonnet" "Shall I compare thee" 18 1 []).
  - split; [lia | done].
  - discriminate.
  - repeat constructor.
Defined.

(** ** The list objects of a lookup *)

Lemma grown_refl (h : store) : grown h h [].
Proof. by split_and!. Qed.

Lemma add_posting_grown (h0 h : store) (sonnets : dict Z Sonnet)
    (results : dict Z SearchResult) (seen : list (Z * list Posting))
    (doc_id : Z) (sonnet : Sonnet) (ps : list Posting) (p : Posting) :
  results_ok h sonnets results (seen ++ [(doc_id, ps)]) ->
  dict_get doc_id sonnets = Some sonnet ->
  grown h0 h results ->
  match (let* sr := posting_result sonnet p in
         add_result doc_id results sr) h with
  | Returns results' h' => grown h0 h' results'
  | Raises e => True
  end.
Proof.
  intros Hok Hsonnet (Hlen0 & Hold0 & Hfresh0). unfold bind.
  pose proof (posting_result_spec h sonnet p) as Hsr.
  destruct (posting_result sonnet p h) as [sr h1|e]; [| done].
  destruct Hsr as (Hsum1 & Hlen1 & Hold1 & Hfresh).
  unfold add_result.
  destruct (dict_get doc_id results) as [r|] eqn:Eget.
  - destruct (results_ok_entry _ _ _ _ _ _ Hok Eget)
      as (Hne & sonnet' & Hsonnet' & Hsum).
    assert (sonnet' = sonnet) as -> by congruence.
    assert (Hvalid : forall x, x ∈ refs (sr_line_matches r) ->
              (x < length h)%nat)
      by (intros x Hx; by apply (results_ok_valid _ _ _ _ _ _ _ Hok Eget)).
    assert (Hsum' : summary h1 sonnet
                      (postings_for doc_id (seen ++ [(doc_id, ps)])) r).
    { apply (summary_frame h); [| done | done].
      intros x Hx. by apply Hold1, Hvalid. }
    destruct (summary_combine h1 sonnet _ [p] r sr Hsum' Hsum1)
      as (h2 & Hrun & Hlen2 & Hframe2 & Hrefs2 & Hsum2).
    { intros x Hx Hx'. apply Hfresh in Hx'. apply Hvalid in Hx. lia. }
    unfold bind. rewrite Hrun. simpl. split_and!; [lia | |].
    + intros x Hx. rewrite Hframe2, Hold1, Hold0; [done | done | lia |].
      intros Hx'. apply (Hfresh0 doc_id r Eget) in Hx'. lia.
    + intros id r'. rewrite dict_get_set. case_decide as E.
      * intros [= <-] x [Hx | Hx]%Hrefs2.
        -- by apply (Hfresh0 doc_id r).
        -- apply Hfresh in Hx. lia.
      * apply Hfresh0.
  - simpl. split_and!; [lia | |].
    + intros x Hx. rewrite Hold1, Hold0; [done | done | lia].
    + intros id r'. rewrite dict_get_set. case_decide as E.
      * intros [= <-] x Hx. apply Hfresh in Hx. lia.
      * apply Hfresh0.
Qed.

Lemma postings_loop_grown (h0 : store) (sonnets : dict Z Sonnet)
    (seen : list (Z * list Posting)) (doc_id : Z) (sonnet : Sonnet)
    (todo : list Posting) :
  forall (ps : list Posting) (results : dict Z SearchResult) (h : store),
    results_ok h sonnets results (seen ++ [(doc_id, ps)]) ->
    dict_get doc_id sonnets = Some sonnet ->
    grown h0 h results ->
    match for_each todo
            (fun results posting =>
               let* sr := posting_result sonnet posting in
               add_result doc_id results sr)
            results h with
    | Returns results' h' => grown h0 h' results'
    | Raises e => True
    end.
Proof.
  induction todo as [|p todo IH]; intros ps results h Hok Hsonnet Hg.
  { done. }
  rewrite for_each_cons.
  pose proof (add_posting_ok h sonnets results seen doc_id sonnet ps p
                Hok Hsonnet) as Hstep.
  pose proof (add_posting_grown h0 h sonnets results seen doc_id sonnet ps p
                Hok Hsonnet Hg) as Hstep'.
  destruct ((let* sr := posting_result sonnet p in
             add_result doc_id results sr) h) as [results1 h1|e]; [| done].
  destruct Hstep as [Hok1 Hlen1].
  by apply (IH (ps ++ [p]) results1 h1).
Qed.

Section lookup_grown.
Context `{Stemmer}.

Lemma docs_loop_grown (h0 : store) (self : Index)
    (todo : list (Z * list Posting)) :
  forall (seen : list (Z * list Posting)) (results : dict Z SearchResult)
         (h : store),
    results_ok h (index_sonnets self) results seen ->
    grown h0 h results ->
    match for_each todo
            (fun results '(doc_id, postings) =>
               let* sonnet :=
                 get_or_raise KeyError
                   (dict_get doc_id (index_sonnets self)) in
               for_each postings
                 (fun results posting =>
                    let* sr := posting_result sonnet posting in
                    add_result doc_id results sr)
                 results)
            results h with
    | Returns results' h' => grown h0 h' results'
    | Raises e => True
    end.
Proof.
  induction todo as [|[doc_id ps] todo IH]; intros seen results h Hok Hg.
  { done. }
  rewrite for_each_cons. unfold bind at 1.
  destruct (dict_get doc_id (index_sonnets self)) as [sonnet|] eqn:Es;
    simpl; [| done].
  assert (Hok0 : results_ok h (index_sonnets self) results
                   (seen ++ [(doc_id, [])])).
  { destruct Hok as (Hk & Hent & Hdisj). split_and!; [done | | done].
    intros id. rewrite postings_for_snoc_nil. apply Hent. }
  pose proof (postings_loop_ok (index_sonnets self) seen doc_id sonnet ps []
                results h Hok0 Es) as Hloop.
  pose proof (postings_loop_grown h0 (index_sonnets self) seen doc_id sonnet
                ps [] results h Hok0 Es Hg) as Hloop'.
  destruct (for_each ps _ results h) as [results1 h1|e]; [| done].
  simpl in Hloop. destruct Hloop as [Hok1 Hlen1].
  by apply (IH (seen ++ [(doc_id, ps)]) results1 h1).
Qed.

Lemma Index_search_for_grown (self : Index) (token : string) (h : store) :
  match Index_search_for self token h with
  | Returns results h' => grown h h' results
  | Raises e => True
  end.
Proof.
  unfold Index_search_for.
  case_decide; [apply grown_refl|].
  destruct (dict_get (normalized_stem_token token) (index_dictionary self))
    as [pl|]; [| apply grown_refl].
  apply (docs_loop_grown h self pl [] [] h);
    [apply results_ok_nil | apply grown_refl].
Qed.

End lookup_grown.

(** ** The running mapping of a search *)

Section sound.
Variable sonnets : dict Z Sonnet.
Variable known : Z -> Posting -> Prop.

Lemma stands_for_valid (h : store) (id : Z) (r : SearchResult) (x : ref) :
  stands_for h sonnets known id r -> x ∈ refs (sr_line_matches r) ->
  (x < length h)%nat.
Proof.
  intros (sonnet & ps & _ & Hsum & _) Hx.
  destruct Hsum as (_ & _ & _ & _ & _ & _ & _ & _ & Hv).
  rewrite Forall_forall in Hv. by apply Hv.
Qed.

Lemma stands_for_frame (h h' : store) (id : Z) (r : SearchResult) :
  (forall x, x ∈ refs (sr_line_matches r) -> deref h' x = deref h x) ->
  (length h <= length h')%nat ->
  stands_for h sonnets known id r -> stands_for h' sonnets known id r.
Proof.
  intros Hsame Hlen (sonnet & ps & Hs & Hsum & Hne & Hk).
  exists sonnet, ps. split_and!; [done | | done | done].
  by apply (summary_frame h).
Qed.

Lemma results_ok_sound (h : store) (results : dict Z SearchResult)
    (seen : list (Z * list Posting)) :
  results_ok h sonnets results seen ->
  (forall id p, p ∈ postings_for id seen -> known id p) ->
  sound h sonnets known results.
Proof.
  intros (Hnd & Hent & Hdisj) Hknown. split_and!; [done | | done].
  intros id r Hget. specialize (Hent id). rewrite Hget in Hent.
  destruct Hent as (Hne & sonnet & Hs & Hsum).
  exists sonnet, (postings_for id seen). split_and!; [done.. |].
  apply Forall_forall. intros p. apply Hknown.
Qed.

Lemma sound_frame (h h' : store) (results : dict Z SearchResult) :
  (length h <= length h')%nat ->
  (forall x, (x < length h)%nat -> deref h' x = deref h x) ->
  sound h sonnets known results -> sound h' sonnets known results.
Proof.
  intros Hlen Hold (Hnd & Hent & Hdisj). split_and!; [done | | done].
  intros id r Hget. apply (stands_for_frame h); [| done | by apply Hent].
  intros x Hx. apply Hold. apply (stands_for_valid h id r); [| done].
  by apply Hent.
Qed.

Lemma sound_del (h : store) (results : dict Z SearchResult) (k : Z) :
  sound h sonnets known results ->
  sound h sonnets known (dict_del k results).
Proof.
  intros (Hnd & Hent & Hdisj). split_and!.
  - by apply dict_del_NoDup.
  - intros id r. rewrite dict_get_del by done. case_decide; [done|].
    apply Hent.
  - intros id1 id2 r1 r2 Hne. rewrite !dict_get_del by done.
    repeat case_decide; try done. by apply Hdisj.
Qed.

Lemma sound_dels (h : store) (ks : list Z) :
  forall results : dict Z SearchResult,
    sound h sonnets known results ->
    sound h sonnets known (fold_left (fun d k => dict_del k d) ks results).
Proof.
  induction ks as [|k ks IH]; intros results Hs; simpl; [done|].
  by apply IH, sound_del.
Qed.

Lemma pending_combine (h : store)
    (combined_results results : dict Z SearchResult) (doc_id : Z)
    (mine r : SearchResult) :
  sound h sonnets known combined_results ->
  pending h sonnets known combined_results results ->
  dict_get doc_id combined_results = Some mine ->
  dict_get doc_id results = Some r ->
  exists c h',
    combine_with mine r h = Returns c h'
    /\ length h' = length h
    /\ sound h' sonnets known (dict_set doc_id c combined_results)
    /\ pending h' sonnets known (dict_set doc_id c combined_results)
         (dict_del doc_id results)
    /\ (forall x, x ∉ refs (sr_line_matches mine) -> deref h' x = deref h x)
    /\ (forall x, x ∈ refs (sr_line_matches c) ->
                  x ∈ refs (sr_line_matches mine)
                  \/ x ∈ refs (sr_line_matches r)).
Proof.
  intros (Hnd & Hent & Hdisj) ((Hndr & Hentr & Hdisjr) & Hcross) Hmine Hr.
  destruct (Hent _ _ Hmine) as (sonnet & ps1 & Hs1 & Hsum1 & Hne1 & Hk1).
  destruct (Hentr _ _ Hr) as (sonnet' & ps2 & Hs2 & Hsum2 & Hne2 & Hk2).
  assert (sonnet' = sonnet) as -> by congruence.
  destruct (summary_combine h sonnet ps1 ps2 mine r Hsum1 Hsum2)
    as (h' & Hrun & Hlen & Hframe & Hrefs & Hsum).
  { by apply (Hcross doc_id doc_id). }
  exists (combined mine r), h'. split_and!; [done | done | | | done | done].
  - split_and!.
    + by apply dict_set_NoDup.
    + intros id r'. rewrite dict_get_set. case_decide as E.
      * intros [= <-]. subst id. exists sonnet, (ps1 ++ ps2).
        split_and!; [done | done | by destruct ps1 | by apply Forall_app].
      * intros Hget. apply (stands_for_frame h); [| lia | by apply Hent].
        intros x Hx. apply Hframe. intros Hx'.
        by apply (Hdisj id doc_id r' mine E Hget Hmine x).
    + intros id1 id2 r1 r2 Hne. rewrite !dict_get_set.
      destruct (decide (id1 = doc_id)) as [->|E1];
        destruct (decide (id2 = doc_id)) as [->|E2]; try done.
      * intros [= <-] Hget2 x [Hx | Hx]%Hrefs.
        -- by apply (Hdisj doc_id id2 mine r2).
        -- intros Hx'. by apply (Hcross id2 doc_id r2 r Hget2 Hr x).
      * intros Hget1 [= <-] x Hx [Hx' | Hx']%Hrefs.
        -- by apply (Hdisj id1 doc_id r1 mine E1 Hget1 Hmine x).
        -- by apply (Hcross id1 doc_id r1 r Hget1 Hr x).
      * by apply Hdisj.
  - split.
    + split_and!.
      * by apply dict_del_NoDup.
      * intros id r'. rewrite dict_get_del by done. case_decide as E; [done|].
        intros Hget. apply (stands_for_frame h); [| lia | by apply Hentr].
        intros x Hx. apply Hframe. intros Hx'.
        by apply (Hcross doc_id id mine r' Hmine Hget x).
      * intros id1 id2 r1 r2 Hne. rewrite !dict_get_del by done.
        repeat case_decide; try done. by apply Hdisjr.
    + intros id1 id2 r1 r2. rewrite dict_get_set, dict_get_del by done.
      destruct (decide (id2 = doc_id)) as [->|E2]; [done|].
      destruct (decide (id1 = doc_id)) as [->|E1].
      * intros [= <-] Hget2 x [Hx | Hx]%Hrefs.
        -- by apply (Hcross doc_id id2 mine r2).
        -- apply (Hdisjr doc_id id2 r r2); [congruence | done..].
      * by apply Hcross.
Qed.

Lemma pending_insert (h : store)
    (combined_results results : dict Z SearchResult) (doc_id : Z)
    (r : SearchResult) :
  sound h sonnets known combined_results ->
  pending h sonnets known combined_results results ->
  dict_get doc_id combined_results = None ->
  dict_get doc_id results = Some r ->
  sound h sonnets known (dict_set doc_id r combined_results)
  /\ pending h sonnets known (dict_set doc_id r combined_results)
       (dict_del doc_id results).
Proof.
  intros (Hnd & Hent & Hdisj) ((Hndr & Hentr & Hdisjr) & Hcross) Hnone Hr.
  split; [| split].
  - split_and!.
    + by apply dict_set_NoDup.
    + intros id r'. rewrite dict_get_set. case_decide as E.
      * intros [= <-]. subst id. by apply Hentr.
      * apply Hent.
    + intros id1 id2 r1 r2 Hne. rewrite !dict_get_set.
      destruct (decide (id1 = doc_id)) as [->|E1];
        destruct (decide (id2 = doc_id)) as [->|E2]; try done.
      * intros [= <-] Hget2 x Hx Hx'.
        by apply (Hcross id2 doc_id r2 r Hget2 Hr x).
      * intros Hget1 [= <-] x Hx.
        by apply (Hcross id1 doc_id r1 r Hget1 Hr x).
      * by apply Hdisj.
  - split_and!.
    + by apply dict_del_NoDup.
    + intros id r'. rewrite dict_get_del by done. case_decide as E; [done|].
      apply Hentr.
    + intros id1 id2 r1 r2 Hne. rewrite !dict_get_del by done.
      repeat case_decide; try done. by apply Hdisjr.
  - intros id1 id2 r1 r2. rewrite dict_get_set, dict_get_del by done.
    destruct (decide (id2 = doc_id)) as [->|E2]; [done|].
    destruct (decide (id1 = doc_id)) as [->|E1].
    + intros [= <-] Hget2.
      apply (Hdisjr doc_id id2 r r2); [congruence | done..].
    + by apply Hcross.
Qed.

Lemma above_set (base : nat) (results : dict Z SearchResult) (k : Z)
    (r : SearchResult) :
  above base results ->
  (forall x, x ∈ refs (sr_line_matches r) -> (base <= x)%nat) ->
  above base (dict_set k r results).
Proof.
  intros Ha Hr id r'. rewrite dict_get_set. case_decide; [| apply Ha].
  by intros [= <-].
Qed.

Lemma above_del (base : nat) (results : dict Z SearchResult) (k : Z) :
  NoDup (dict_keys results) -> above base results ->
  above base (dict_del k results).
Proof.
  intros Hnd Ha id r. rewrite dict_get_del by done.
  case_decide; [done | apply Ha].
Qed.

Lemma above_dels (base : nat) (ks : list Z) :
  forall results : dict Z SearchResult,
    NoDup (dict_keys results) -> above base results ->
    above base (fold_left (fun d k => dict_del k d) ks results).
Proof.
  induction ks as [|k ks IH]; intros results Hnd Ha; simpl; [done|].
  apply IH; [by apply dict_del_NoDup | by apply above_del].
Qed.

(** The loop of the OR branch. *)
Lemma search_or_sound (todo : dict Z SearchResult) :
  forall (combined_results : dict Z SearchResult) (h : store),
    sound h sonnets known combined_results ->
    pending h sonnets known combined_results todo ->
    exists combined_results' h',
      for_each todo
        (fun combined_results '(doc_id, r) =>
           add_result doc_id combined_results r)
        combined_results h
      = Returns combined_results' h'
      /\ length h' = length h
      /\ sound h' sonnets known combined_results'
      /\ forall base,
           above base combined_results -> above base todo ->
           above base combined_results'
           /\ forall x, (x < base)%nat -> deref h' x = deref h x.
Proof.
  induction todo as [|[doc_id r] todo IH]; intros c h Hs Hp.
  { exists c, h. split_and!; [done.. |]. by intros base Ha _. }
  rewrite for_each_cons. unfold add_result at 1.
  assert (Hr : dict_get doc_id ((doc_id, r) :: todo) = Some r)
    by (simpl; by rewrite decide_True).
  assert (Hdel : dict_del doc_id ((doc_id, r) :: todo) = todo)
    by (simpl; by rewrite decide_True).
  assert (Htail : forall base, above base ((doc_id, r) :: todo) ->
            above base todo).
  { intros base Ha. rewrite <- Hdel. apply above_del; [apply Hp | done]. }
  destruct (dict_get doc_id c) as [mine|] eqn:Eget.
  - destruct (pending_combine h c _ doc_id mine r Hs Hp Eget Hr)
      as (comb & h1 & Hrun & Hlen & Hs1 & Hp1 & Hframe & Hrefs).
    unfold bind. rewrite Hrun. simpl. rewrite Hdel in Hp1.
    destruct (IH _ h1 Hs1 Hp1) as (c' & h' & Hrun' & Hlen' & Hs' & Hb').
    exists c', h'. split_and!; [done | lia | done |].
    intros base Ha Htodo.
    destruct (Hb' base) as [Ha' Hold']; [| by apply Htail |].
    { apply above_set; [done|]. intros x [Hx | Hx]%Hrefs.
      - by apply (Ha doc_id mine).
      - by apply (Htodo doc_id r). }
    split; [done|]. intros x Hx. rewrite Hold' by done. apply Hframe.
    intros Hx'. apply (Ha doc_id mine Eget) in Hx'. lia.
  - destruct (pending_insert h c _ doc_id r Hs Hp Eget Hr) as [Hs1 Hp1].
    simpl. rewrite Hdel in Hp1.
    destruct (IH _ h Hs1 Hp1) as (c' & h' & Hrun' & Hlen' & Hs' & Hb').
    exists c', h'. split_and!; [done.. |].
    intros base Ha Htodo. apply Hb'; [| by apply Htail].
    apply above_set; [done|]. by apply (Htodo doc_id r).
Qed.

(** The loop of the other branch over the keys of the running mapping. *)
Lemma search_and_sound (results : dict Z SearchResult) (todo : list Z) :
  forall (cur waiting : dict Z SearchResult) (deleted : list Z) (h : store),
    sound h sonnets known cur ->
    pending h sonnets known cur waiting ->
    NoDup todo ->
    (forall k, k ∈ todo ->
       is_Some (dict_get k cur)
       /\ dict_get k waiting = dict_get k results) ->
    exists cur' deleted' h',
      for_each todo
        (fun '(combined_results, deleted) doc_id =>
           match dict_get doc_id results, dict_get doc_id combined_results
           with
           | Some r, Some mine =>
               let* c := combine_with mine r in
               ret (dict_set doc_id c combined_results, deleted)
           | Some r, None => raise KeyError
           | None, _ => ret (combined_results, deleted ++ [doc_id])
           end)
        (cur, deleted) h
      = Returns (cur', deleted') h'
      /\ length h' = length h
      /\ sound h' sonnets known cur'
      /\ forall base,
           above base cur -> above base waiting ->
           above base cur'
           /\ forall x, (x < base)%nat -> deref h' x = deref h x.
Proof.
  induction todo as [|k todo IH]; intros cur waiting deleted h Hs Hp Hnd Hk.
  { exists cur, deleted, h. split_and!; [done.. |]. by intros base Ha _. }
  rewrite for_each_cons. apply NoDup_cons in Hnd as [Hnot Hnd].
  destruct (Hk k) as [[mine Hmine] Hw]; [by left|].
  rewrite Hmine.
  destruct (dict_get k results) as [r|] eqn:Er.
  - destruct (pending_combine h cur waiting k mine r Hs Hp Hmine Hw)
      as (comb & h1 & Hrun & Hlen & Hs1 & Hp1 & Hframe & Hrefs).
    unfold bind. rewrite Hrun. simpl.
    destruct (IH _ _ deleted h1 Hs1 Hp1 Hnd)
      as (cur' & deleted' & h' & Hrun' & Hlen' & Hs' & Hb').
    { intros k' Hk'. destruct (Hk k') as [Hsome Hw']; [by right|].
      assert (k' <> k) by (by intros ->).
      rewrite dict_get_set, decide_False by done.
      rewrite dict_get_del, decide_False by (done || apply Hp).
      done. }
    exists cur', deleted', h'. split_and!; [done | lia | done |].
    intros base Ha Hwait.
    destruct (Hb' base) as [Ha' Hold'].
    { apply above_set; [done|]. intros x [Hx | Hx]%Hrefs.
      - by apply (Ha k mine).
      - by apply (Hwait k r). }
    { apply above_del; [apply Hp | done]. }
    split; [done|]. intros x Hx. rewrite Hold' by done. apply Hframe.
    intros Hx'. apply (Ha k mine Hmine) in Hx'. lia.
  - simpl.
    destruct (IH cur waiting (deleted ++ [k]) h Hs Hp Hnd)
      as (cur' & deleted' & h' & Hrun' & Hlen' & Hs' & Hb').
    { intros k' Hk'. apply Hk. by right. }
    by exists cur', deleted', h'.
Qed.

End sound.

(** ** The order of the line matches *)

Lemma for_each_inv {A B} (I : A -> Prop) (body : A -> B -> M A)
    (l : list B) :
  (forall acc x h acc' h',
     x ∈ l -> I acc -> body acc x h = Returns acc' h' -> I acc') ->
  forall acc h acc' h',
    I acc -> for_each l body acc h = Returns acc' h' -> I acc'.
Proof.
  induction l as [|x l IH]; intros Hbody acc h acc' h' Hacc Hrun.
  { by injection Hrun as <- <-. }
  rewrite for_each_cons in Hrun.
  destruct (body acc x h) as [acc1 h1|e] eqn:E; [| done].
  apply (IH (fun a y h0 a' h0' Hy =>
               Hbody a y h0 a' h0' (list_elem_of_further _ _ _ Hy))
           acc1 h1 acc' h'); [| done].
  by apply (Hbody acc x h acc1 h1); [left | |].
Qed.

Lemma combine_with_sorted (a b : SearchResult) (h h' : store)
    (c : SearchResult) :
  combine_with a b h = Returns c h' -> lines_sorted c.
Proof.
  unfold combine_with, bind.
  destruct (for_each (sr_line_matches b) merge_line _ h) as [d h1|e];
    [| done].
  intros [= <- <-]. unfold lines_sorted. simpl.
  apply sorted_Sorted, line_no_leb_total.
Qed.

Lemma add_result_in_order (doc_id : Z) (results : dict Z SearchResult)
    (sr : SearchResult) (h h' : store) (results' : dict Z SearchResult) :
  lines_in_order results -> lines_sorted sr ->
  add_result doc_id results sr h = Returns results' h' ->
  lines_in_order results'.
Proof.
  intros Hall Hsr. unfold add_result.
  destruct (dict_get doc_id results) as [r|].
  - unfold bind. destruct (combine_with r sr h) as [c h1|e] eqn:E; [| done].
    intros [= <- <-]. apply Forall_dict_set; [done|].
    by apply (combine_with_sorted _ _ _ _ _ E).
  - intros [= <- <-]. by apply Forall_dict_set.
Qed.

Lemma Forall_dict_del {K V} `{EqDecision K} (P : K * V -> Prop) (k : K)
    (d : dict K V) :
  Forall P d -> Forall P (dict_del k d).
Proof.
  induction 1 as [|[k' v'] d Hx Hd IH]; simpl; [done|].
  case_decide; [done | by constructor].
Qed.

Section in_order.
Context `{Stemmer}.

Lemma Index_search_for_in_order (self : Index) (token : string)
    (h h' : store) (results : dict Z SearchResult) :
  Index_search_for self token h = Returns results h' ->
  lines_in_order results.
Proof.
  unfold Index_search_for. case_decide; [by intros [= <- <-]; constructor|].
  destruct (dict_get (normalized_stem_token token) (index_dictionary self))
    as [pl|]; [| by intros [= <- <-]; constructor].
  apply for_each_inv; [| constructor].
  intros acc [doc_id ps] h0 acc' h0' _ Hacc. unfold bind.
  destruct (dict_get doc_id (index_sonnets self)) as [sonnet|]; [| done].
  simpl. apply for_each_inv; [| done].
  intros acc1 p h1 acc1' h1' _ Hacc1.
  destruct (posting_result sonnet p h1) as [sr h2|e] eqn:E; [| done].
  apply add_result_in_order; [done|].
  unfold posting_result in E. unfold lines_sorted.
  destruct (posting_line_no p) as [ln|].
  - unfold bind in E.
    destruct (index_list (sonnet_lines sonnet) (ln - 1)); [| done].
    simpl in E. injection E as <- <-. simpl. repeat constructor.
  - injection E as <- <-. constructor.
Qed.

Lemma search_word_in_order (self : Searcher) (search_mode : string)
    (combined_results : dict Z SearchResult) (word : string) (h h' : store)
    (combined_results' : dict Z SearchResult) :
  lines_in_order combined_results ->
  search_word self search_mode combined_results word h
  = Returns combined_results' h' ->
  lines_in_order combined_results'.
Proof.
  intros Hc. unfold search_word, bind.
  destruct (Index_search_for (searcher_index self)
              (normalized_stem_token word) h) as [results h1|e] eqn:E;
    [| done].
  apply Index_search_for_in_order in E.
  destruct combined_results as [|e0 c]; [by intros [= <- <-]|].
  case_decide.
  - unfold search_or. apply for_each_inv; [| done].
    intros acc [doc_id r] h0 acc' h0' Hin Hacc.
    apply add_result_in_order; [done|].
    unfold lines_in_order in E. rewrite Forall_forall in E.
    by apply (E (doc_id, r)).
  - unfold search_and, bind.
    match goal with
    | |- context [for_each ?l ?body ?acc h1] =>
        destruct (for_each l body acc h1) as [[cur deleted] h2|e] eqn:Eloop
    end; [| done].
    intros [= <- <-].
    assert (Hcur : lines_in_order cur).
    { revert Eloop.
      apply (for_each_inv
               (fun s : dict Z SearchResult * list Z =>
                  lines_in_order s.1)); [| done].
      intros [acc dl] doc_id h0 [acc' dl'] h0' _ Hacc. simpl in *.
      destruct (dict_get doc_id results) as [r|] eqn:Er.
      - destruct (dict_get doc_id acc) as [mine|]; [| done].
        unfold bind.
        destruct (combine_with mine r h0) as [comb h3|e] eqn:Ec; [| done].
        intros [= <- <- <-]. apply Forall_dict_set; [done|].
        by apply (combine_with_sorted _ _ _ _ _ Ec).
      - by intros [= <- <- <-]. }
    clear Eloop. revert cur Hcur.
    induction deleted as [|k deleted IH]; intros cur Hcur; simpl; [done|].
    by apply IH, Forall_dict_del.
Qed.

End in_order.

(** ** The results of a search *)

Section search_sound.
Context `{Stemmer}.
Variable sonnets : list Sonnet.
Variable known : Z -> Posting -> Prop.
Hypothesis Hids : NoDup (sonnet_id <$> sonnets).

Lemma search_word_sound (search_mode : string)
    (combined_results : dict Z SearchResult) (word : string) (h : store) :
  sound h (index_sonnets (Index_init sonnets)) known combined_results ->
  (forall id p,
     p ∈ postings_for id
           (lookup_postings (Index_init sonnets)
              (normalized_stem_token word)) -> known id p) ->
  exists combined_results' h',
    search_word (Searcher_init sonnets) search_mode combined_results word h
    = Returns combined_results' h'
    /\ sound h' (index_sonnets (Index_init sonnets)) known
         combined_results'
    /\ (length h <= length h')%nat
    /\ forall base,
         (base <= length h)%nat -> above base combined_results ->
         above base combined_results'
         /\ forall x, (x < base)%nat -> deref h' x = deref h x.
Proof.
  intros Hs Hknown. unfold search_word, bind.
  cbn [searcher_index Searcher_init].
  set (token := normalized_stem_token word) in *.
  pose proof (Index_search_for_ok (Index_init sonnets) token h) as Hok.
  pose proof (Index_search_for_grown (Index_init sonnets) token h) as Hg.
  destruct (Index_search_for_returns sonnets token h Hids)
    as (results & h1 & Hrun).
  rewrite Hrun in Hok, Hg |- *. destruct Hok as [Hok _].
  destruct Hg as (Hlen & Hold & Hfresh).
  pose proof (results_ok_sound _ known _ _ _ Hok Hknown) as Hsr.
  assert (Hnew : forall base, (base <= length h)%nat -> above base results).
  { intros base Hb id r Hget x Hx. apply (Hfresh id r Hget) in Hx. lia. }
  destruct combined_results as [|e c].
  { eexists _, _. split_and!; [done.. |]. intros base Hb _.
    split; [by apply Hnew|]. intros x Hx. apply Hold. lia. }
  set (cur := e :: c) in *.
  assert (Hs1 : sound h1 (index_sonnets (Index_init sonnets)) known cur)
    by (by apply (sound_frame _ _ h)).
  assert (Hp : pending h1 (index_sonnets (Index_init sonnets)) known cur
                 results).
  { split; [done|]. intros id1 id2 r1 r2 Hget1 Hget2 x Hx Hx'.
    apply (Hfresh id2 r2 Hget2) in Hx'.
    destruct Hs as (_ & Hent & _).
    pose proof (stands_for_valid _ _ _ _ _ _ (Hent _ _ Hget1) Hx). lia. }
  case_decide.
  - destruct (search_or_sound _ known results cur h1 Hs1 Hp)
      as (c' & h' & Hrun' & Hlen' & Hs' & Hb').
    unfold search_or. rewrite Hrun'.
    eexists _, _. split_and!; [done | done | lia |].
    intros base Hb Ha. destruct (Hb' base Ha (Hnew base Hb)) as [Ha' Hold'].
    split; [done|]. intros x Hx. rewrite Hold' by done. apply Hold. lia.
  - destruct (search_and_sound _ known results (dict_keys cur) cur results
                [] h1 Hs1 Hp)
      as (cur' & deleted' & h' & Hrun' & Hlen' & Hs' & Hb').
    { apply Hs. }
    { intros k Hk. split; [| done].
      destruct (dict_get k cur) eqn:E; [by eexists|].
      by apply dict_get_None in E. }
    unfold search_and. unfold bind at 1. rewrite Hrun'. simpl.
    eexists _, _. split_and!; [done | by apply sound_dels | lia |].
    intros base Hb Ha. destruct (Hb' base Ha (Hnew base Hb)) as [Ha' Hold'].
    split; [apply above_dels; [apply Hs' | done]|].
    intros x Hx. rewrite Hold' by done. apply Hold. lia.
Qed.

Lemma search_words_sound (search_mode : string) (words : list string) :
  forall (combined_results : dict Z SearchResult) (h : store),
    sound h (index_sonnets (Index_init sonnets)) known combined_results ->
    lines_in_order combined_results ->
    (forall word id p,
       word ∈ words ->
       p ∈ postings_for id
             (lookup_postings (Index_init sonnets)
                (normalized_stem_token word)) -> known id p) ->
    exists combined_results' h',
      for_each words (search_word (Searcher_init sonnets) search_mode)
        combined_results h
      = Returns combined_results' h'
      /\ sound h' (index_sonnets (Index_init sonnets)) known
           combined_results'
      /\ lines_in_order combined_results'
      /\ (length h <= length h')%nat
      /\ forall base,
           (base <= length h)%nat -> above base combined_results ->
           above base combined_results'
           /\ forall x, (x < base)%nat -> deref h' x = deref h x.
Proof.
  induction words as [|word words IH]; intros c h Hs Hord Hknown.
  { exists c, h. split_and!; [done.. |]. by intros base _ Ha. }
  rewrite for_each_cons.
  destruct (search_word_sound search_mode c word h Hs)
    as (c1 & h1 & Hrun & Hs1 & Hlen1 & Hb1).
  { intros id p. apply Hknown. by left. }
  rewrite Hrun.
  destruct (IH c1 h1 Hs1) as (c' & h' & Hrun' & Hs' & Hord' & Hlen' & Hb').
  - by apply (search_word_in_order _ _ _ _ _ _ _ Hord Hrun).
  - intros w id p Hw. apply Hknown. by right.
  - exists c', h'. split_and!; [done | done | done | lia |].
    intros base Hb Ha. destruct (Hb1 base Hb Ha) as [Ha1 Hold1].
    destruct (Hb' base) as [Ha' Hold']; [lia | done |].
    split; [done|]. intros x Hx. by rewrite Hold', Hold1.
Qed.

End search_sound.

Lemma index_sonnets_elem `{Stemmer} (sonnets : list Sonnet) (id : Z)
    (sonnet : Sonnet) :
  dict_get id (index_sonnets (Index_init sonnets)) = Some sonnet ->
  sonnet ∈ sonnets /\ sonnet_id sonnet = id.
Proof.
  simpl. rewrite fold_dict_set_last.
  destruct (last (filter (fun s => sonnet_id s = id) sonnets)) as [s|] eqn:El;
    [| done].
  intros [= ->]. apply last_Some_elem_of in El.
  by apply list_elem_of_filter in El as [Hid El].
Qed.

(** What a result of the running mapping holds when it stands for
    postings that the search has come upon. *)
Lemma result_facts `{Stemmer} (sonnets : list Sonnet) (query : string)
    (h' : store) (id : Z) (r : SearchResult) :
  NoDup (sonnet_id <$> sonnets) ->
  stands_for h' (index_sonnets (Index_init sonnets))
    (query_postings sonnets query) id r ->
  lines_sorted r ->
  exists sonnet,
    sonnet ∈ sonnets /\ sonnet_id sonnet = id
    /\ sr_title r = sonnet_title sonnet
    /\ 0 < sr_matches r
    /\ count_invariant h' r
    /\ Forall (query_span query (sonnet_title sonnet)) (sr_title_spans r)
    /\ StronglySorted Z.lt (line_numbers (sr_line_matches r))
    /\ Forall (fun lm =>
                 line_at sonnet (lm_line_no lm) = Some (lm_text lm)
                 /\ deref h' (lm_spans lm) <> []
                 /\ Forall (query_span query (lm_text lm))
                      (deref h' (lm_spans lm)))
         (sr_line_matches r).
Proof.
  intros Hids (sonnet & ps & Hs & Hsum & Hne & Hk) Hord.
  destruct (index_sonnets_elem _ _ _ Hs) as [Hin Hid].
  assert (Hocc : forall p, p ∈ ps ->
            exists word, word ∈ split query
              /\ p ∈ sonnet_postings (search_key word) sonnet).
  { intros p Hp. rewrite Forall_forall in Hk.
    destruct (Hk p Hp) as (word & Hw & Hpw). exists word. split; [done|].
    rewrite <- Hid, lookup_postings_indexed in Hpw by done.
    unfold indexed_postings in Hpw. fold (search_key word) in Hpw.
    case_decide; [by apply elem_of_nil in Hpw | done]. }
  assert (Hline : forall ln x, x ∈ line_spans_of ps ln ->
            exists line, line_at sonnet ln = Some line
              /\ query_span query line x).
  { intros ln x Hx. unfold line_spans_of in Hx.
    apply list_elem_of_fmap in Hx as (p & -> & Hp).
    apply list_elem_of_filter in Hp as [Hln Hp].
    destruct (Hocc p Hp) as (word & Hw & Hpw).
    assert (Hx : posting_span p
                   ∈ line_spans_of (sonnet_postings (search_key word) sonnet)
                       ln).
    { unfold line_spans_of. apply list_elem_of_fmap_2.
      by apply list_elem_of_filter. }
    apply line_spans_of_occurrences in Hx as (line & Hl & Hspan).
    exists line. split; [done|]. by exists word. }
  exists sonnet. split_and!; [done | done | apply Hsum | | | | |].
  - destruct Hsum as (_ & -> & _). destruct ps; [done | simpl; lia].
  - by apply (summary_count _ _ _ _ Hsum).
  - apply Forall_forall. intros x Hx.
    destruct Hsum as (_ & _ & Hts & _). rewrite Hts in Hx.
    unfold title_spans_of in Hx.
    apply list_elem_of_fmap in Hx as (p & -> & Hp).
    apply list_elem_of_filter in Hp as [Hln Hp].
    destruct (Hocc p Hp) as (word & Hw & Hpw). exists word. split; [done|].
    apply title_spans_of_occurrences. unfold title_spans_of.
    apply list_elem_of_fmap_2. by apply list_elem_of_filter.
  - apply Sorted_lt_line_numbers; [done | apply Hsum].
  - apply Forall_forall. intros lm Hlm.
    destruct (summary_line_match _ _ _ _ _ Hsum Hlm) as [Hd Htxt].
    rewrite Hd.
    destruct (line_spans_of ps (lm_line_no lm)) as [|x l] eqn:El;
      [by rewrite decide_True in Htxt|].
    rewrite decide_False in Htxt by done.
    destruct (Hline (lm_line_no lm) x) as (line & Hl & _);
      [rewrite El; by left|].
    rewrite (line_at_index _ _ _ Hl) in Htxt. injection Htxt as Htxt.
    rewrite Htxt. split_and!; [done | done |].
    rewrite <- El. apply Forall_forall. intros y Hy.
    destruct (Hline _ _ Hy) as (line' & Hl' & Hspan). congruence.
Qed.

(** X17: the results of a search, on a corpus whose documents have
    different ids, for every query and every mode.  The search returns;
    its results are those of the running mapping, which has a document
    at most once.  The result of a document has the title of the
    document, at least one match, and a match count that is the number of
    its title spans plus the number of spans of its line matches.  Every
    span is the span of a token of the title, or of the line, that is
    looked up for a word of the query.  The line matches come in strictly
    increasing order of line number, each with the text of that line of
    the document and at least one span, and no list of spans is shared
    between the results of two documents. *)
Theorem search_results_sound `{Stemmer} (sonnets : list Sonnet)
    (query search_mode : string) (h : store) :
  NoDup (sonnet_id <$> sonnets) ->
  exists combined_results h',
    search_combined (Searcher_init sonnets) query search_mode h
    = Returns combined_results h'
    /\ Searcher_search (Searcher_init sonnets) query search_mode h
       = Returns (sorted title_leb (dict_values combined_results)) h'
    /\ NoDup (dict_keys combined_results)
    /\ (forall id r, dict_get id combined_results = Some r ->
          exists sonnet,
            sonnet ∈ sonnets /\ sonnet_id sonnet = id
            /\ sr_title r = sonnet_title sonnet
            /\ 0 < sr_matches r
            /\ count_invariant h' r
            /\ Forall (query_span query (sonnet_title sonnet))
                 (sr_title_spans r)
            /\ StronglySorted Z.lt (line_numbers (sr_line_matches r))
            /\ Forall (fun lm =>
                         line_at sonnet (lm_line_no lm) = Some (lm_text lm)
                         /\ deref h' (lm_spans lm) <> []
                         /\ Forall (query_span query (lm_text lm))
                              (deref h' (lm_spans lm)))
                 (sr_line_matches r))
    /\ forall id1 id2 r1 r2,
         id1 <> id2 -> dict_get id1 combined_results = Some r1 ->
         dict_get id2 combined_results = Some r2 ->
         forall x, x ∈ refs (sr_line_matches r1) ->
                   x ∉ refs (sr_line_matches r2).
Proof.
  intros Hids.
  destruct (search_words_sound sonnets (query_postings sonnets query) Hids
              search_mode (split query) [] h)
    as (c & h' & Hrun & (Hnd & Hent & Hdisj) & Hord & _).
  { split_and!; [constructor | done | done]. }
  { constructor. }
  { intros word id p Hw Hp. by exists word. }
  exists c, h'. unfold Searcher_search, search_combined, bind.
  rewrite Hrun. split_and!; [done | done | done | | done].
  intros id r Hget. apply result_facts; [done | by apply Hent |].
  unfold lines_in_order in Hord. rewrite Forall_forall in Hord.
  apply (Hord (id, r)). by apply dict_get_Some_elem.
Qed.

Lemma search_results_sound_witness :
  exists combined_results h',
    search_combined (H := plural_stemmer)
      (Searcher_init (H := plural_stemmer) corpus) "shall thee" "AND" []
    = Returns combined_results h'
    /\ dict_keys combined_results = [1].
Proof.
  destruct (search_results_sound (H := plural_stemmer) corpus
              "shall thee" "AND" [])
    as (c & h' & Hrun & _).
  { repeat constructor; compute; intros Hin; inversion Hin; subst;
      try discriminate; match goal with H : _ ∈ [] |- _ => inversion H end. }
  exists c, h'. split; [exact Hrun|].
  vm_compute in Hrun. by injection Hrun as <- <-.
Defined.

(** ** The order of the results *)

Lemma title_leb_total (a b : SearchResult) :
  title_leb a b = false -> title_leb b a = true.
Proof.
  unfold title_leb. intros E.
  destruct (String.leb_total (sr_title a) (sr_title b)) as [E' | E'];
    [congruence | done].
Qed.

(** X18: the list that a search returns, on a corpus whose documents
    have different ids: it holds the results of the running mapping, each
    once, in order of title, and has at most as many results as the
    corpus has documents. *)
Theorem search_results_by_title `{Stemmer} (sonnets : list Sonnet)
    (query search_mode : string) (h : store) :
  NoDup (sonnet_id <$> sonnets) ->
  exists combined_results results h',
    search_combined (Searcher_init sonnets) query search_mode h
    = Returns combined_results h'
    /\ Searcher_search (Searcher_init sonnets) query search_mode h
       = Returns results h'
    /\ results ≡ₚ dict_values combined_results
    /\ Sorted (fun a b => String.leb (sr_title a) (sr_title b) = true)
         results
    /\ (length results <= length sonnets)%nat
    /\ Z.of_nat (length results)
       <= searcher_total_sonnets (Searcher_init sonnets).
Proof.
  intros Hids.
  destruct (search_words_sound sonnets (fun _ _ => True) Hids search_mode
              (split query) [] h) as (c & h' & Hrun & (Hnd & Hent & _) & _).
  { split_and!; [constructor | done | done]. }
  { constructor. }
  { done. }
  exists c, (sorted title_leb (dict_values c)), h'.
  unfold Searcher_search, search_combined, bind. rewrite Hrun.
  assert (Hlen : (length (sorted title_leb (dict_values c))
                  <= length sonnets)%nat).
  { rewrite (Permutation_length (sorted_perm title_leb (dict_values c))).
    unfold dict_values. rewrite length_fmap.
    rewrite <- (length_fmap fst c), <- (length_fmap sonnet_id sonnets).
    apply submseteq_length, NoDup_submseteq; [done|].
    intros id Hin.
    destruct (dict_get id c) as [r|] eqn:Er;
      [| by apply dict_get_None in Er].
    destruct (Hent id r Er) as (sonnet & ps & Hs & _).
    destruct (index_sonnets_elem _ _ _ Hs) as [Hs' <-].
    by apply list_elem_of_fmap_2. }
  split_and!; [done | done | apply sorted_perm | | done | simpl; lia].
  apply (sorted_Sorted title_leb title_leb_total).
Qed.

Lemma search_results_by_title_witness :
  exists results h',
    Searcher_search (H := plural_stemmer)
      (Searcher_init (H := plural_stemmer) corpus) "shall" "OR" []
    = Returns results h'
    /\ sr_title <$> results = ["Sonnet 1: Fairest"; "Sonnet 2: Winters"].
Proof.
  destruct (search_results_by_title (H := plural_stemmer) corpus
              "shall" "OR" [])
    as (c & results & h' & _ & Hrun & _).
  { repeat constructor; compute; intros Hin; inversion Hin; subst;
      try discriminate; match goal with H : _ ∈ [] |- _ => inversion H end. }
  exists results, h'. split; [exact Hrun|].
  vm_compute in Hrun. by injection Hrun as <- <-.
Defined.

(** ** When the searches raise *)

(** X19: the index lookup raises exactly when its postings list names a
    document that the index does not know, which is a KeyError, or holds
    the posting of a line that the document does not have, which is an
    IndexError; the exception is that of the first such place, and does
    not depend on the store.  An index that the constructor builds can
    be in that state when two documents of the corpus share an id. *)
Theorem lookup_raises_exactly `{Stemmer} (self : Index) (token : string)
    (h : store) :
  (forall e, Index_search_for self token h = Raises e
             <-> lookup_error self token = Some e)
  /\ ((exists results h', Index_search_for self token h = Returns results h')
      <-> lookup_error self token = None)
  /\ (forall e, lookup_error self token = Some e ->
                e = KeyError \/ e = IndexError).
Proof.
  pose proof (Index_search_for_error self token h) as Herr.
  split_and!.
  - intros e. destruct (Index_search_for self token h) as [results h'|e'].
    + rewrite Herr. split; done.
    + rewrite Herr. split; congruence.
  - destruct (Index_search_for self token h) as [results h'|e'].
    + split; [done|]. intros _. by eexists _, _.
    + rewrite Herr. split; [by intros (? & ? & ?) | done].
  - intros e. unfold lookup_error.
    generalize (lookup_postings self token). intros pl.
    induction pl as [|[doc_id ps] pl IH]; simpl; [done|].
    destruct (dict_get doc_id (index_sonnets self)) as [sonnet|];
      [| intros [= <-]; by left].
    assert (Hps : forall e', postings_error sonnet ps = Some e' ->
              e' = IndexError).
    { clear. induction ps as [|p ps IHps]; simpl; [done|].
      unfold posting_error.
      destruct (posting_line_no p) as [ln|]; [| done].
      destruct (index_list (sonnet_lines sonnet) (ln - 1)); [done|].
      by intros e' [= <-]. }
    destruct (postings_error sonnet ps) as [e'|]; [| done].
    intros [= <-]. right. by apply Hps.
Qed.

Example lookup_raises_on_shared_id :
  let long := {| sonnet_title := "Sonnet 1: Long";
                 sonnet_lines := ["no match here"; "thee"];
                 sonnet_id := 1 |} in
  let short := {| sonnet_title := "Sonnet 1: Short";
                  sonnet_lines := ["one line"]; sonnet_id := 1 |} in
  Index_search_for (H := identity_stemmer)
    (Index_init (H := identity_stemmer) [long; short]) "thee" []
  = Raises IndexError.
Proof. reflexivity. Qed.

(** X20: the per-document search raises exactly when the index has, for
    the stem of the query and the id of the document, a posting of a
    line that the document does not have; the exception is an
    IndexError.  It does not ask whether the index knows the document. *)
Theorem Sonnet_search_for_raises_exactly `{Stemmer} (self : Sonnet)
    (query : string) (index : Index) (h : store) :
  ((exists r h', Sonnet_search_for self query index h = Returns r h')
   <-> forall ln,
         line_spans_of (own_postings self query index) ln <> [] ->
         is_Some (index_list (sonnet_lines self) (ln - 1)))
  /\ (forall e, Sonnet_search_for self query index h = Raises e ->
                e = IndexError).
Proof.
  pose proof (Sonnet_search_for_spec self query index h) as Hspec.
  destruct (Sonnet_search_for self query index h) as [r h'|e].
  - split; [| done]. split; [| intros _; by eexists _, _].
    intros _ ln Hne.
    destruct Hspec as (_ & _ & _ & Hsp & Htx & _).
    specialize (Hsp ln). specialize (Htx ln).
    rewrite decide_False in Htx by done. rewrite <- Htx.
    apply text_at_present.
    destruct (decide (ln ∈ line_numbers (sr_line_matches r)))
      as [|Hnot]; [done|].
    rewrite spans_at_absent in Hsp by done. congruence.
  - destruct Hspec as (-> & ln & Hne & Hnone). split; [| by intros ? [= <-]].
    split; [by intros (? & ? & ?)|].
    intros Hall. destruct (Hall ln Hne) as [t Ht]. congruence.
Qed.

Example Sonnet_search_for_unknown_document :
  let other := {| sonnet_title := "Sonnet 7: Other";
                  sonnet_lines := []; sonnet_id := 7 |} in
  Sonnet_search_for (H := identity_stemmer) other "thee"
    (Index_init (H := identity_stemmer) corpus) []
  = Returns {| sr_title := "Sonnet 7: Other"; sr_title_spans := [];
               sr_line_matches := []; sr_matches := 0 |} [].
Proof. reflexivity. Qed.

(** ** One token added to the index *)

(** X21: adding a token to the dictionary appends one posting, with the
    line number, the position and the token given, to the postings of
    the stem and the document, and leaves the postings of every other
    stem or document as they were; nothing is merged or left out when the
    same occurrence is added again.  A stem that is a key keeps its
    place among the keys, and a new stem becomes the last key. *)
Theorem _add_token_appends
    (dictionary : dict string (dict Z (list Posting)))
    (doc_id : Z) (stem : string) (line_no : option Z) (position : Z)
    (token : string) :
  let posting := {| posting_line_no := line_no;
                    posting_position := position;
                    posting_original_token := token |} in
  let dictionary' :=
    _add_token dictionary doc_id stem line_no position token in
  postings_at dictionary' stem doc_id
  = postings_at dictionary stem doc_id ++ [posting]
  /\ (forall stem' doc_id',
        (stem', doc_id') <> (stem, doc_id) ->
        postings_at dictionary' stem' doc_id'
        = postings_at dictionary stem' doc_id')
  /\ postings_at
       (_add_token dictionary' doc_id stem line_no position token)
       stem doc_id
     = postings_at dictionary stem doc_id ++ [posting; posting]
  /\ dict_keys dictionary'
     = (if dict_in stem dictionary then dict_keys dictionary
        else dict_keys dictionary ++ [stem]).
Proof.
  intros posting dictionary'. unfold dictionary'. split_and!.
  - rewrite postings_at_add_token. by rewrite decide_True.
  - intros stem' doc_id' Hne. rewrite postings_at_add_token.
    rewrite decide_False; [by rewrite app_nil_r|].
    intros [-> ->]. done.
  - rewrite !postings_at_add_token, !decide_True by done.
    by rewrite <- app_assoc.
  - unfold _add_token, dict_in.
    destruct (dict_get stem dictionary) as [by_doc|] eqn:E.
    + by rewrite (dict_keys_set_present _ _ _ by_doc).
    + by rewrite dict_keys_set_absent.
Qed.

Example _add_token_example :
  _add_token [("thee", [(1, [])])] 2 "thee" (Some 3) 14 "thee,"
  = [("thee",
      [(1, []);
       (2, [{| posting_line_no := Some 3; posting_position := 14;
               posting_original_token := "thee," |}])])].
Proof. reflexivity. Qed.

(** ** Highlighting the results of a search *)

Lemma stem_span_within `{Stemmer} (key text : string) (x : span) :
  stem_span key text x ->
  (0 <= x.1 <= x.2 /\ x.2 <= len text)
  /\ slice text x.1 x.2 <> ""
  /\ normalized_stem_token (slice text x.1 x.2) = key.
Proof.
  intros (token & Hin & He & Hkey).
  apply tokenize_tokens in Hin as (k & Hk & Hat).
  pose proof (token_at_bound _ _ _ Hat) as Hb.
  pose proof (token_at_slice _ _ _ Hat) as Hs.
  rewrite !length_chars in Hb.
  assert (Hne : token <> "") by (destruct Hat as (Hne & _); by intros ->).
  rewrite He, Hk, Hs. unfold len. split_and!; [lia.. | done | done].
Qed.

Lemma stem_span_token `{Stemmer} (key text : string) (x : span) :
  stem_span key text x ->
  token_at (chars text) (chars (slice text x.1 x.2)) (Z.to_nat x.1).
Proof.
  intros (token & Hin & He & Hkey).
  apply tokenize_tokens in Hin as (k & Hk & Hat).
  pose proof (token_at_slice _ _ _ Hat) as Hs.
  by rewrite He, Hk, Hs, Nat2Z.id.
Qed.

Lemma highlight_strip (text : string) (spans : list span) (mode : string) :
  within text spans ->
  join (strip_markers (highlight_pieces text spans mode)) = text.
Proof.
  intros Hin. rewrite highlight_pieces_from.
  pose proof (merge_spans_within text spans Hin) as Hm.
  destruct (pieces_from_spec text mode (merge_spans spans) 0)
    as [_ Hjoin]; [lia | done | apply merge_spans_gap | |].
  { eapply Forall_impl; [exact Hm|]. intros x Hx. simpl in Hx. lia. }
  by rewrite Hjoin, slice_from_0.
Qed.

(** X22: what is highlighted in the results of a search, on a corpus
    whose documents have different ids: the spans of a result lie inside
    the title, and those of a line match inside the text of the line;
    each span cuts out a whole token of that text (a run without
    whitespace, not empty, with whitespace or the end of the text on
    either side), and the normalized stem of the token is the key of a
    word of the query (the word stemmed twice); and the pieces that the
    highlighter joins for these spans are, without the markers, the
    title or the line. *)
Theorem search_spans_highlight `{Stemmer} (sonnets : list Sonnet)
    (query search_mode highlight_mode : string) (h : store) :
  NoDup (sonnet_id <$> sonnets) ->
  exists combined_results h',
    search_combined (Searcher_init sonnets) query search_mode h
    = Returns combined_results h'
    /\ forall id r, dict_get id combined_results = Some r ->
         let marked (text : string) (spans : list span) :=
           within text spans
           /\ Forall (fun x : span =>
                        slice text x.1 x.2 <> ""
                        /\ token_at (chars text) (chars (slice text x.1 x.2))
                             (Z.to_nat x.1)
                        /\ exists word,
                             word ∈ split query
                             /\ normalized_stem_token (slice text x.1 x.2)
                                = search_key word) spans
           /\ join (strip_markers
                      (highlight_pieces text spans highlight_mode))
              = text in
         marked (sr_title r) (sr_title_spans r)
         /\ Forall (fun lm => marked (lm_text lm) (deref h' (lm_spans lm)))
              (sr_line_matches r).
Proof.
  intros Hids.
  destruct (search_words_sound sonnets (query_postings sonnets query) Hids
              search_mode (split query) [] h)
    as (c & h' & Hrun & (_ & Hent & _) & Hord & _).
  { split_and!; [constructor | done | done]. }
  { constructor. }
  { intros word id p Hw Hp. by exists word. }
  exists c, h'. split; [done|]. intros id r Hget.
  destruct (result_facts sonnets query h' id r Hids)
    as (sonnet & _ & _ & Ht & _ & _ & Hts & _ & Hlines);
    [by apply Hent | |].
  { unfold lines_in_order in Hord. rewrite Forall_forall in Hord.
    apply (Hord (id, r)). by apply dict_get_Some_elem. }
  assert (Hmarked : forall text spans,
            Forall (query_span query text) spans ->
            within text spans
            /\ Forall (fun x : span =>
                         slice text x.1 x.2 <> ""
                         /\ token_at (chars text)
                              (chars (slice text x.1 x.2)) (Z.to_nat x.1)
                         /\ exists word,
                              word ∈ split query
                              /\ normalized_stem_token (slice text x.1 x.2)
                                 = search_key word) spans
            /\ join (strip_markers
                       (highlight_pieces text spans highlight_mode))
               = text).
  { intros text spans Hall.
    assert (Hin : within text spans).
    { eapply Forall_impl; [exact Hall|].
      intros x (word & _ & Hspan).
      by apply stem_span_within in Hspan as [? _]. }
    split_and!; [done | | by apply highlight_strip].
    eapply Forall_impl; [exact Hall|].
    intros x (word & Hw & Hspan).
    pose proof (stem_span_token _ _ _ Hspan) as Hat.
    apply stem_span_within in Hspan as (_ & Hne & Hkey).
    split_and!; [done | done |]. by exists word. }
  simpl. split.
  - rewrite Ht. by apply Hmarked.
  - eapply Forall_impl; [exact Hlines|].
    intros lm (_ & _ & Hall). by apply Hmarked.
Qed.

Lemma search_spans_highlight_witness :
  exists combined_results h',
    search_combined (H := plural_stemmer)
      (Searcher_init (H := plural_stemmer) corpus) "Winter" "OR" []
    = Returns combined_results h'
    /\ sr_title_spans <$> dict_values combined_results = [[(10, 17)]].
Proof.
  destruct (search_spans_highlight (H := plural_stemmer) corpus
              "Winter" "OR" "DEFAULT" [])
    as (c & h' & Hrun & _).
  { repeat constructor; compute; intros Hin; inversion Hin; subst;
      try discriminate; match goal with H : _ ∈ [] |- _ => inversion H end. }
  exists c, h'. split; [exact Hrun|].
  vm_compute in Hrun. by injection Hrun as <- <-.
Defined.

(** ** A combination of any two results *)

Lemma merge_lines_keys (al bl : list LineMatch) :
  forall (d : dict Z LineMatch) (h : store),
    NoDup (dict_keys d) ->
    Forall (fun e : Z * LineMatch =>
              e.1 = lm_line_no e.2 /\ (e.2 ∈ al \/ e.2 ∈ bl)) d ->
    exists d' h',
      for_each bl merge_line d h = Returns d' h'
      /\ length h' = length h
      /\ NoDup (dict_keys d')
      /\ Forall (fun e : Z * LineMatch =>
                   e.1 = lm_line_no e.2 /\ (e.2 ∈ al \/ e.2 ∈ bl)) d'
      /\ forall ln, ln ∈ dict_keys d'
                    <-> ln ∈ dict_keys d \/ ln ∈ line_numbers bl.
Proof.
  assert (Hgen : forall todo,
            (forall lm, lm ∈ todo -> lm ∈ bl) ->
            forall (d : dict Z LineMatch) (h : store),
              NoDup (dict_keys d) ->
              Forall (fun e : Z * LineMatch =>
                        e.1 = lm_line_no e.2 /\ (e.2 ∈ al \/ e.2 ∈ bl)) d ->
              exists d' h',
                for_each todo merge_line d h = Returns d' h'
                /\ length h' = length h
                /\ NoDup (dict_keys d')
                /\ Forall (fun e : Z * LineMatch =>
                             e.1 = lm_line_no e.2
                             /\ (e.2 ∈ al \/ e.2 ∈ bl)) d'
                /\ forall ln, ln ∈ dict_keys d'
                              <-> ln ∈ dict_keys d \/ ln ∈ line_numbers todo).
  { induction todo as [|lm todo IH]; intros Hsub d h Hnd Hall.
    { exists d, h. split_and!; [done.. |]. intros ln. split; [by left|].
      by intros [? | ?%elem_of_nil]. }
    rewrite for_each_cons. unfold merge_line at 1.
    assert (Hsub' : forall x, x ∈ todo -> x ∈ bl)
      by (intros x Hx; apply Hsub; by right).
    destruct (dict_get (lm_line_no lm) d) as [mine|] eqn:Eget.
    - unfold bind, read, extend, ret.
      destruct (IH Hsub' d (<[lm_spans mine := deref h (lm_spans mine)
                                               ++ deref h (lm_spans lm)]> h)
                  Hnd Hall) as (d' & h' & -> & Hlen & Hnd' & Hall' & Hkeys).
      exists d', h'. split_and!; [done | by rewrite Hlen, length_insert
                                 | done | done |].
      intros ln. rewrite Hkeys. unfold line_numbers. rewrite fmap_cons.
      rewrite elem_of_cons. split; [tauto|].
      intros [? | [-> | ?]]; [tauto | | tauto]. left.
      destruct (decide (lm_line_no lm ∈ dict_keys d)) as [|Hnot]; [done|].
      assert (dict_get (lm_line_no lm) d = None) by (by apply dict_get_None).
      congruence.
    - unfold ret.
      destruct (IH Hsub' (dict_set (lm_line_no lm) (LineMatch_copy lm) d) h)
        as (d' & h' & -> & Hlen & Hnd' & Hall' & Hkeys).
      + by apply dict_set_NoDup.
      + apply Forall_dict_set; [done|]. rewrite LineMatch_copy_id. simpl.
        split; [done|]. right. apply Hsub. by left.
      + exists d', h'. split_and!; [done.. |].
        intros ln. rewrite Hkeys, dict_keys_set_absent by done.
        unfold line_numbers. rewrite fmap_cons, elem_of_app, !elem_of_cons.
        rewrite elem_of_nil. tauto. }
  intros d h Hnd Hall. by apply Hgen.
Qed.

Lemma keyed_fold (al : list LineMatch) :
  forall (l : list LineMatch) (d : dict Z LineMatch),
    (forall lm, lm ∈ l -> lm ∈ al) ->
    NoDup (dict_keys d) ->
    Forall (fun e : Z * LineMatch =>
              e.1 = lm_line_no e.2 /\ (e.2 ∈ al \/ e.2 ∈ [])) d ->
    let d' := fold_left
                (fun d lm => dict_set (lm_line_no lm) (LineMatch_copy lm) d)
                l d in
    NoDup (dict_keys d')
    /\ Forall (fun e : Z * LineMatch =>
                 e.1 = lm_line_no e.2 /\ (e.2 ∈ al \/ e.2 ∈ [])) d'
    /\ forall ln, ln ∈ dict_keys d'
                  <-> ln ∈ dict_keys d \/ ln ∈ line_numbers l.
Proof.
  induction l as [|lm l IH]; intros d Hsub Hnd Hall; cbn [fold_left].
  { split_and!; [done.. |]. intros ln. split; [by left|].
    by intros [? | ?%elem_of_nil]. }
  cbv zeta.
  destruct (IH (dict_set (lm_line_no lm) (LineMatch_copy lm) d))
    as (Hnd' & Hall' & Hkeys).
  - intros x Hx. apply Hsub. by right.
  - by apply dict_set_NoDup.
  - apply Forall_dict_set; [done|]. rewrite LineMatch_copy_id. simpl.
    split; [done|]. left. apply Hsub. by left.
  - split_and!; [done.. |]. intros ln. rewrite Hkeys.
    unfold line_numbers. rewrite fmap_cons, elem_of_cons.
    destruct (dict_get (lm_line_no lm) d) as [mine|] eqn:Eget.
    + rewrite (dict_keys_set_present _ _ _ mine) by done.
      split; [tauto|]. intros [? | [-> | ?]]; [tauto | | tauto]. left.
      destruct (decide (lm_line_no lm ∈ dict_keys d)) as [|Hnot]; [done|].
      assert (dict_get (lm_line_no lm) d = None) by (by apply dict_get_None).
      congruence.
    + rewrite dict_keys_set_absent by done.
      rewrite elem_of_app, elem_of_cons, elem_of_nil. tauto.
Qed.

(** X23: a combination returns for any two results and any store, and
    the store holds as many span lists of line matches afterwards as
    before.  The result has the title of the first argument, the sum of
    the two match counts, and the title spans of both in order.  Its
    line matches are line matches of the arguments, one for every line
    number that an argument has and no line number twice, in strictly
    increasing order of line number. *)
Theorem combine_with_total (a b : SearchResult) (h : store) :
  exists c h',
    combine_with a b h = Returns c h'
    /\ length h' = length h
    /\ sr_title c = sr_title a
    /\ sr_matches c = sr_matches a + sr_matches b
    /\ sr_title_spans c ≡ₚ sr_title_spans a ++ sr_title_spans b
    /\ Sorted (fun x y => span_leb x y = true) (sr_title_spans c)
    /\ StronglySorted Z.lt (line_numbers (sr_line_matches c))
    /\ (forall ln, ln ∈ line_numbers (sr_line_matches c)
                   <-> ln ∈ line_numbers (sr_line_matches a)
                       \/ ln ∈ line_numbers (sr_line_matches b))
    /\ (forall lm, lm ∈ sr_line_matches c ->
                   lm ∈ sr_line_matches a \/ lm ∈ sr_line_matches b).
Proof.
  unfold combine_with, bind.
  destruct (keyed_fold (sr_line_matches a) (sr_line_matches a) [])
    as (Hnd0 & Hall0 & Hkeys0); [done | constructor | constructor |].
  set (d0 := fold_left
               (fun d lm => dict_set (lm_line_no lm) (LineMatch_copy lm) d)
               (sr_line_matches a) []) in *.
  destruct (merge_lines_keys (sr_line_matches a) (sr_line_matches b) d0 h)
    as (d' & h' & -> & Hlen & Hnd' & Hall' & Hkeys'); [done | |].
  { eapply Forall_impl; [exact Hall0|]. intros e [? [? | ?%elem_of_nil]].
    split; [done | by left]. done. }
  assert (Hnums : line_numbers (dict_values d') = dict_keys d').
  { unfold line_numbers, dict_values, dict_keys. clear -Hall'.
    induction Hall' as [|[k v] d [Hk _] _ IH]; [done|].
    rewrite !fmap_cons. cbn [fst snd] in *. by f_equal. }
  assert (Hperm : sorted line_no_leb (dict_values d') ≡ₚ dict_values d')
    by apply sorted_perm.
  eexists _, h'. split; [done|]. simpl.
  split_and!; [done | done | done | apply sorted_perm | | | |].
  - apply sorted_Sorted, span_leb_total.
  - apply Sorted_lt_line_numbers.
    + apply sorted_Sorted, line_no_leb_total.
    + unfold line_numbers. rewrite Hperm. fold (line_numbers (dict_values d')).
      by rewrite Hnums.
  - intros ln. unfold line_numbers at 1. rewrite Hperm.
    fold (line_numbers (dict_values d')). rewrite Hnums, Hkeys', Hkeys0.
    split; [| tauto]. by intros [[?%elem_of_nil | ?] | ?]; [| left | right].
  - intros lm. rewrite Hperm. intros (e & -> & He)%list_elem_of_fmap.
    rewrite Forall_forall in Hall'. by apply (Hall' e He).
Qed.

Example combine_with_repeated_line :
  let a := result_of [line_x_y 1 0%nat; line_x_y 1 1%nat] 2 in
  let b := result_of [line_x_y 2 2%nat; line_x_y 2 3%nat] 2 in
  exists c h',
    combine_with a b store_x_y = Returns c h'
    /\ line_numbers (sr_line_matches c) = [1; 2]
    /\ sr_matches c = 4.
Proof. intros a b. by eexists _, _. Qed.

(** ** The order of the words *)

Lemma or_count_comm (a b : option Z) : or_count a b = or_count b a.
Proof. destruct a, b; simpl; f_equal; lia. Qed.

Lemma or_count_assoc (a b c : option Z) :
  or_count (or_count a b) c = or_count a (or_count b c).
Proof. destruct a, b, c; simpl; f_equal; lia. Qed.

Lemma fold_or_count_perm (l1 l2 : list (option Z)) :
  l1 ≡ₚ l2 ->
  forall a, fold_left or_count l1 a = fold_left or_count l2 a.
Proof.
  induction 1 as [|x l1 l2 _ IH|x y l|l1 l2 l3 _ IH1 _ IH2]; intros a; simpl.
  - done.
  - apply IH.
  - f_equal. rewrite !or_count_assoc. f_equal. apply or_count_comm.
  - by rewrite IH1.
Qed.

(** X24: the counts of an OR search do not depend on the order of the
    words: on a corpus whose documents have different ids, two queries
    with the same words in any order, each as often, give every
    document of the corpus the same match count, or both no result. *)
Theorem or_search_word_order `{Stemmer} (sonnets : list Sonnet)
    (query1 query2 : string) (h1 h2 : store) :
  NoDup (sonnet_id <$> sonnets) -> split query1 ≡ₚ split query2 ->
  exists combined1 h1' combined2 h2',
    search_combined (Searcher_init sonnets) query1 "OR" h1
    = Returns combined1 h1'
    /\ search_combined (Searcher_init sonnets) query2 "OR" h2
       = Returns combined2 h2'
    /\ forall sonnet, sonnet ∈ sonnets ->
         count_of combined1 (sonnet_id sonnet)
         = count_of combined2 (sonnet_id sonnet).
Proof.
  intros Hids Hperm.
  destruct (search_or_loop_counts sonnets (split query1) [] h1 Hids)
    as (c1 & h1' & Hrun1 & _ & _ & Hc1);
    [constructor | by intros id ?%elem_of_nil |].
  destruct (search_or_loop_counts sonnets (split query2) [] h2 Hids)
    as (c2 & h2' & Hrun2 & _ & _ & Hc2);
    [constructor | by intros id ?%elem_of_nil |].
  exists c1, h1', c2, h2'. split_and!; [done | done |].
  intros sonnet Hin. rewrite (Hc1 sonnet Hin), (Hc2 sonnet Hin).
  apply fold_or_count_perm. by apply fmap_Permutation.
Qed.

Lemma or_search_word_order_witness :
  exists combined1 h1' combined2 h2',
    search_combined (H := plural_stemmer)
      (Searcher_init (H := plural_stemmer) corpus) "thee shall" "OR" []
    = Returns combined1 h1'
    /\ search_combined (H := plural_stemmer)
         (Searcher_init (H := plural_stemmer) corpus) "shall  thee" "OR" []
       = Returns combined2 h2'
    /\ count_of combined1 1 = count_of combined2 1.
Proof.
  destruct (or_search_word_order (H := plural_stemmer) corpus
              "thee shall" "shall  thee" [] [])
    as (c1 & h1' & c2 & h2' & Hrun1 & Hrun2 & Hc).
  { repeat constructor; compute; intros Hin; inversion Hin; subst;
      try discriminate; match goal with H : _ ∈ [] |- _ => inversion H end. }
  { apply Permutation_swap. }
  exists c1, h1', c2, h2'. split_and!; [exact Hrun1 | exact Hrun2 |].
  apply (Hc sonnet1). by left.
Defined.


(** ** Tokens lie apart *)

Lemma finditer_nonspace_head (n : nat) (pos : Z) (cs : list ascii) :
  match finditer_nonspace n pos cs with
  | [] => True
  | (tok, off) :: _ =>
      match cs with
      | [] => False
      | c :: _ => if isspace c then pos < off else pos <= off
      end
  end.
Proof.
  destruct n as [|n]; [done|]. cbn [finditer_nonspace]. cbv zeta.
  destruct cs as [|c cs]; [done|].
  destruct (nonspace_run (skip_space (c :: cs))) as [|x tok]; [done|].
  destruct (skip_space_split cs) as (ws & E & _).
  cbn [skip_space]. destruct (isspace c) eqn:Ec.
  - apply (f_equal length) in E. rewrite length_app in E.
    cbn [length]. lia.
  - lia.
Qed.

Lemma finditer_nonspace_apart (n : nat) :
  forall (pos : Z) (cs : list ascii),
    Sorted (fun a b : string * Z => a.2 + len a.1 < b.2)
      (finditer_nonspace n pos cs).
Proof.
  induction n as [|n IH]; intros pos cs; [constructor|].
  cbn [finditer_nonspace]. cbv zeta.
  destruct (nonspace_run (skip_space cs)) as [|x tok] eqn:Erun;
    [constructor|].
  constructor; [apply IH|].
  destruct (nonspace_run_split (skip_space cs)) as (_ & _ & Hnext).
  rewrite Erun in Hnext.
  set (start := pos + Z.of_nat (length cs - length (skip_space cs))).
  pose proof (finditer_nonspace_head n
                (start + Z.of_nat (length (x :: tok)))
                (drop (length (x :: tok)) (skip_space cs))) as Hhead.
  destruct (finditer_nonspace n _ _) as [|[tok' off'] l]; [constructor|].
  constructor. cbn [fst snd]. rewrite len_str.
  destruct (drop (length (x :: tok)) (skip_space cs)) as [|c rest];
    [done|].
  by rewrite Hnext in Hhead.
Qed.

(** X25: the tokens of a text lie apart: a token ends before the
    offset of the next one, with at least one character between them, so
    the spans of two tokens of the same text never touch or overlap. *)
Theorem tokenize_tokens_apart (text : string) :
  Sorted (fun a b : string * Z => a.2 + len a.1 < b.2) (tokenize text)
  /\ forall i j a b,
       (i < j)%nat -> tokenize text !! i = Some a ->
       tokenize text !! j = Some b -> a.2 + len a.1 < b.2.
Proof.
  assert (Hs : Sorted (fun a b : string * Z => a.2 + len a.1 < b.2)
                 (tokenize text)) by apply finditer_nonspace_apart.
  split; [done|].
  assert (Htrans : Transitive (fun a b : string * Z => a.2 + len a.1 < b.2)).
  { intros [t1 o1] [t2 o2] [t3 o3]. simpl. unfold len. lia. }
  apply (Sorted_StronglySorted _) in Hs.
  revert Hs. generalize (tokenize text). clear text.
  intros l Hs. induction Hs as [|x l Hs IH Hx]; intros i j a b Hij Hi Hj.
  { by rewrite lookup_nil in Hi. }
  destruct j as [|j]; [lia|]. destruct i as [|i]; simpl in *.
  - injection Hi as ->. rewrite Forall_forall in Hx. apply Hx.
    by apply (list_elem_of_lookup_2 _ j).
  - apply (IH i j); [lia | done | done].
Qed.

Example tokenize_tokens_apart_example :
  tokenize "thee,thou  thy" = [("thee,thou", 0); ("thy", 11)].
Proof. reflexivity. Qed.

(** ** A search and the results of earlier searches *)

(** X26: a search works on list objects of its own, on a corpus whose
    documents have different ids: it leaves every list as it was that
    existed before, and the lists of its results are all created by
    it.  So a result of an earlier search keeps its spans, and its
    match count stays right, whatever is searched afterwards. *)
Theorem search_keeps_old_lists `{Stemmer} (sonnets : list Sonnet)
    (query search_mode : string) (h : store) :
  NoDup (sonnet_id <$> sonnets) ->
  exists combined_results h',
    search_combined (Searcher_init sonnets) query search_mode h
    = Returns combined_results h'
    /\ (length h <= length h')%nat
    /\ (forall x, (x < length h)%nat -> deref h' x = deref h x)
    /\ above (length h) combined_results
    /\ forall earlier : SearchResult,
         Forall (fun x => (x < length h)%nat)
           (refs (sr_line_matches earlier)) ->
         (forall ln,
            spans_at h' (sr_line_matches earlier) ln
            = spans_at h (sr_line_matches earlier) ln)
         /\ (count_invariant h earlier -> count_invariant h' earlier).
Proof.
  intros Hids.
  destruct (search_words_sound sonnets (fun _ _ => True) Hids search_mode
              (split query) [] h) as (c & h' & Hrun & _ & _ & Hlen & Hb).
  { split_and!; [constructor | done | done]. }
  { constructor. }
  { done. }
  destruct (Hb (length h)) as [Ha Hold]; [done | done |].
  exists c, h'. split_and!; [done.. |].
  intros earlier Hvalid. rewrite Forall_forall in Hvalid.
  assert (Hsame : forall x, x ∈ refs (sr_line_matches earlier) ->
            deref h' x = deref h x)
    by (intros x Hx; by apply Hold, Hvalid).
  split.
  - intros ln. by apply spans_at_frame.
  - unfold count_invariant. by rewrite (span_total_frame h h').
Qed.

Lemma search_keeps_old_lists_witness :
  exists combined_results h',
    search_combined (H := plural_stemmer)
      (Searcher_init (H := plural_stemmer) corpus) "shall thee" "OR"
      store_x_y
    = Returns combined_results h'
    /\ deref h' 0%nat = [(0, 1)].
Proof.
  destruct (search_keeps_old_lists (H := plural_stemmer) corpus
              "shall thee" "OR" store_x_y)
    as (c & h' & Hrun & _ & Hold & _).
  { repeat constructor; compute; intros Hin; inversion Hin; subst;
      try discriminate; match goal with H : _ ∈ [] |- _ => inversion H end. }
  exists c, h'. split; [exact Hrun|].
  rewrite Hold; [reflexivity | simpl; lia].
Defined.
